(** * ax1-services: browser-driven DIAN and RUES lambdas

    A shallow embedding of the decision logic of the repository:
    - [Captcha]: the challenge solver ([resolveCaptcha] and the 2Captcha
      polling loop);
    - [Rues]: the registry search ([handle], [searchByIdentification],
      [getCardStatusActive], [extractInformation]) and its lambda handler;
    - [Dian]: the token-by-email flow ([validatePayload], [handle],
      [waitForResultMessage], the modal guard installed by
      [setupModalGuards]) and its lambda handler.

    The page driver (Playwright), the remote sites and the captcha
    services are the environment: every answer they give is a field of a
    world record, and the embedded functions are the code's reaction to
    these answers.  Part I holds the definitions, Part II the properties. *)

From Stdlib Require Import ZArith Ascii String List Lia.
From stdpp Require Import base strings list gmap.
Import ListNotations.

#[local] Open Scope string_scope.

(** * Part I: the embedding *)

(** ** JavaScript values, strings and exceptions *)
Module JS.

(** White space removed by [String.prototype.trim], within one-byte
    characters: TAB, LF, VT, FF, CR and SPACE. *)
Definition is_ws (c : ascii) : bool :=
  let n := N_of_ascii c in
  ((n =? 9) || (n =? 10) || (n =? 11) || (n =? 12) || (n =? 13) || (n =? 32))%N.

Fixpoint trimStart (s : string) : string :=
  match s with
  | EmptyString => EmptyString
  | String c s' => if is_ws c then trimStart s' else s
  end.

Fixpoint trimEnd (s : string) : string :=
  match s with
  | EmptyString => EmptyString
  | String c s' =>
      match trimEnd s' with
      | EmptyString => if is_ws c then EmptyString else String c EmptyString
      | r => String c r
      end
  end.

Definition trim (s : string) : string := trimEnd (trimStart s).

(** Truthiness of a string: only the empty string is falsy. *)
Definition nonEmpty (s : string) : bool :=
  match s with EmptyString => false | String _ _ => true end.

(** [s.includes(sub)]. *)
Definition includes (s sub : string) : bool :=
  match index 0 sub s with Some _ => true | None => false end.

(** [l.join(sep)]. *)
Fixpoint join (sep : string) (l : list string) : string :=
  match l with
  | [] => ""
  | [x] => x
  | x :: rest => x +:+ sep +:+ join sep rest
  end.

(** [s.toLowerCase()] on the letters A-Z. *)
Definition lowerChar (c : ascii) : ascii :=
  let n := N_of_ascii c in
  if ((65 <=? n) && (n <=? 90))%N then ascii_of_N (n + 32) else c.

Fixpoint toLowerCase (s : string) : string :=
  match s with
  | EmptyString => EmptyString
  | String c s' => String (lowerChar c) (toLowerCase s')
  end.

(** [a || b] on strings. *)
Definition orElse (a b : string) : string := if nonEmpty a then a else b.

(** A field of a lambda event.  [JOther] stands for the values the
    handlers do not tell apart (numbers, objects, arrays): it carries what
    [String(v)] yields and whether the value is truthy. *)
Inductive jsval : Type :=
| JUndefined
| JNull
| JBool (b : bool)
| JStr (s : string)
| JOther (str : string) (truthy : bool).

(** [String(v)]. *)
Definition toString (v : jsval) : string :=
  match v with
  | JUndefined => "undefined"
  | JNull => "null"
  | JBool true => "true"
  | JBool false => "false"
  | JStr s => s
  | JOther s _ => s
  end.

Definition nullish (v : jsval) : bool :=
  match v with JUndefined | JNull => true | _ => false end.

(** [a ?? b]. *)
Definition coalesce (a b : jsval) : jsval := if nullish a then b else a.

Definition truthy (v : jsval) : bool :=
  match v with
  | JUndefined | JNull => false
  | JBool b => b
  | JStr s => nonEmpty s
  | JOther _ t => t
  end.

(** Truthiness of a [string | null | undefined]. *)
Definition truthyOpt (o : option string) : bool :=
  match o with Some s => nonEmpty s | None => false end.

(** An [Error] object: its message and the [code] property the registry
    search attaches to the errors it classifies. *)
Record JsError : Type := mkError { message : string; code : option string }.

(** Errors raised by the page driver or by plain [new Error(msg)]. *)
Definition plainError (msg : string) : JsError := mkError msg None.

(** A computation that returns or throws. *)
Inductive result (A : Type) : Type :=
| Ok (a : A)
| Throw (e : JsError).
#[global] Arguments Ok {A} a.
#[global] Arguments Throw {A} e.

Definition bind {A B : Type} (r : result A) (k : A -> result B) : result B :=
  match r with
  | Ok a => k a
  | Throw e => Throw e
  end.

(** [await step] where the driver either completes or rejects with a
    message. *)
Definition await (step : option string) : result unit :=
  match step with
  | None => Ok tt
  | Some msg => Throw (plainError msg)
  end.

End JS.

Import JS.

#[global] Instance result_bind : MBind result :=
  fun A B k r => JS.bind r k.
#[global] Instance result_ret : MRet result := @Ok.

(** ** The challenge solver (captcha.ts) *)
Module Captcha.

(** Answer of the 2Captcha submit endpoint [in.php]. *)
Inductive SubmitReply : Type :=
| SubmitRejects (msg : string)                       (* axios.post throws *)
| SubmitData (statusIsOne : bool) (request : string). (* response.data *)

(** Answer of the status endpoint [res.php] to one poll. *)
Inductive PollReply : Type :=
| PollRejects (msg : string)   (* axios.post throws *)
| PollPending                  (* resultData.status !== 1 *)
| PollReady (request : string). (* resultData.status === 1 *)

(** What the solver does to the outside, in order. *)
Inductive CaptchaCall : Type :=
| CallAntiCaptcha
| CallSubmit
| CallPoll (n : nat)
| CallSleep (ms : Z).

Record CaptchaWorld : Type := {
  (** [ac.solveTurnstileProxyless]: a token ([null] when the library
      resolves without one), or the message it rejects with. *)
  antiCaptcha : option string + string;
  submit : SubmitReply;
  (** the reply to the n-th poll request, counted from 0 *)
  polls : nat -> PollReply
}.

Definition maxAttempts : nat := 15.
Definition pollDelay : Z := 7000.

(** The loop [while (attempts < 15)] of [solveCaptcha2Captcha].
    [remaining] is [15 - attempts]; it decreases exactly when [attempts]
    is incremented, and both other branches leave the loop. *)
Fixpoint pollLoop (remaining : nat) (polls : nat -> PollReply)
    : option string * list CaptchaCall :=
  match remaining with
  | 0 => (None, [])
  | S remaining' =>
      let attempts := maxAttempts - remaining in
      match polls attempts with
      | PollReady request => (Some request, [CallPoll attempts])
      | PollPending =>
          let '(solution, calls) := pollLoop remaining' polls in
          (solution, CallPoll attempts :: CallSleep pollDelay :: calls)
      | PollRejects _ => (None, [CallPoll attempts])
      end
  end.

Definition solveCaptcha2Captcha (w : CaptchaWorld)
    : option string * list CaptchaCall :=
  match submit w with
  | SubmitRejects _ => (None, [CallSubmit])
  | SubmitData false _ => (None, [CallSubmit])
  | SubmitData true _captchaId =>
      let '(solution, calls) := pollLoop maxAttempts (polls w) in
      (solution, CallSubmit :: calls)
  end.

Definition solveCaptchaAntiCaptcha (w : CaptchaWorld) : option string :=
  match antiCaptcha w with
  | inl token => token
  | inr _ => None
  end.

Definition resolveCaptcha (w : CaptchaWorld)
    : option string * list CaptchaCall :=
  let solution := solveCaptchaAntiCaptcha w in
  if truthyOpt solution then (solution, [CallAntiCaptcha])
  else
    let '(solution2, calls) := solveCaptcha2Captcha w in
    (solution2, CallAntiCaptcha :: calls).

(** Number of poll requests and total sleep in a call sequence. *)
Definition pollCount (calls : list CaptchaCall) : nat :=
  length (List.filter (fun c => match c with CallPoll _ => true | _ => false end) calls).

Definition sleptTotal (calls : list CaptchaCall) : Z :=
  fold_right (fun c acc => match c with CallSleep ms => ms + acc | _ => acc end)%Z 0%Z calls.

End Captcha.

(** ** The registry search (get-rues-data.ts and its lambda) *)
Module Rues.

Inductive RecordType : Type := RM | ESAL | ESOL.

(** [CONFIG.recordTypes], [CONFIG.mapRecords], [CONFIG.maxTries]. *)
Definition recordTypes : list RecordType := [RM; ESAL; ESOL].

Definition mapRecords (recordType : RecordType) : string :=
  match recordType with
  | RM => "Registro Mercantil"
  | ESAL => "Entidades sin animo de lucro"
  | ESOL => "Registro de entidades de economia solidaria"
  end.

Definition maxTries : nat := 3.

(** A [.registroapi] element: the text of its label
    ([.registroapi__etiqueta]) and of its value element, each absent when
    the element is not there. *)
Record Registro : Type := { etiqueta : option string; valor : option string }.

(** A [.card-result] element of the result list. *)
Record Card : Type := {
  spans : list string;        (* textContent of each span, in document order *)
  titulo : option string;     (* textContent of .filtro__titulo *)
  registros : list Registro;  (* its .registroapi children *)
  enlace : bool               (* it holds a '.resultado__enlace a' link *)
}.

(** The fields of a [RuesData] object. *)
Inductive RuesValue : Type :=
| VStr (s : string)
| VRecord (m : gmap string string)
| VActivities (l : list (string * string)).

(** What the detail view shows. *)
Record DetailObs : Type := {
  detailTabs : bool;                             (* the general tab rendered in time *)
  generalTab : option (list Registro);
  economicTab : nat -> option (list Registro);   (* at try 1, 2, 3 *)
  representativeTab : option (option string)     (* the tab, and its .legal text *)
}.

(** What the page answers while one record type is searched. *)
Record SearchObs : Type := {
  waitTypeSelector : option string;   (* waitForSelector rejects with this message *)
  typeSelectorCount : nat;
  selectOption : option string;
  waitIdInput : option string;
  buttonDisplays : list string;       (* computed display of each submit button *)
  spinnerClears : bool;               (* the spinner left the button within 60 s *)
  alertas : option (list string);     (* texts of .mensaje-alerta; None: evaluate threw *)
  cards : list Card;
  waitResults : option string;
  clickTimeout : string;              (* message of the click on a missing link *)
  detail : DetailObs
}.

Inductive DriverCall : Type :=
| Launch | NewContext | NewPage | Goto | Search
| ClosePage | CloseContext | CloseBrowser.

Record World : Type := {
  launch : option string;
  newContext : option string;
  newPage : option string;
  goto : option string;
  search : RecordType -> SearchObs
}.

Record RuesPayload : Type := {
  identificationNumber : option string;   (* None: the property is absent *)
  headless : option bool
}.

Record RuesResult : Type := {
  success : bool;
  data : option (gmap string RuesValue);
  error : option string
}.

Record RuesEvent : Type := {
  ev_identificationNumber : jsval;
  ev_headless : jsval
}.

Inductive ResponseBody : Type :=
| BodyResult (r : RuesResult)
| BodyError (error errorCode : string).

Record Response : Type := { statusCode : Z; body : ResponseBody }.

(** *** getCardStatusActive *)

Definition isActiva (text : string) : bool := String.eqb (trim text) "Activa".

Definition hasActiva (card : Card) : bool := existsb isActiva (spans card).

(** The [for] loop over the cards, started at index [i]. *)
Fixpoint firstActiva (i : nat) (cards : list Card) : option nat :=
  match cards with
  | [] => None
  | card :: rest => if hasActiva card then Some i else firstActiva (S i) rest
  end.

(** The in-page function: the index of the card, or -1. *)
Definition cardIndexEval (cards : list Card) : Z :=
  match firstActiva 0 cards with
  | Some i => Z.of_nat i
  | None => if (0 <? length cards)%nat then (Z.of_nat (length cards) - 1)%Z else (-1)%Z
  end.

Definition getCardStatusActive (cards : list Card) : result nat :=
  let cardIndex := cardIndexEval cards in
  if (cardIndex <? 0)%Z then Throw (plainError "Card no encontrada")
  else Ok (Z.to_nat cardIndex).

(** [allCards.nth(cardIndex)] in [extractInformation]. *)
Definition selectedCard (cards : list Card) : result (option Card) :=
  cardIndex ← getCardStatusActive cards;
  Ok (cards !! cardIndex).

Section Extraction.

(** [normalizeKey] runs in the page and relies on the browser's Unicode
    tables ([normalize("NFD")], [\w], [\s]); it is kept abstract. *)
Variable normalizeKey : string -> string.

Definition registroEntry (r : Registro) : option (string * string) :=
  match etiqueta r, valor r with
  | Some label, Some value => Some (normalizeKey (trim label), trim value)
  | _, _ => None
  end.

(** [records.forEach(...)] filling [result]. *)
Definition collectRegistros (records : list Registro) (result : gmap string string)
    : gmap string string :=
  fold_left
    (fun acc r =>
       match registroEntry r with
       | Some (key, value) => <[key := value]> acc
       | None => acc
       end)
    records result.

Definition extractBasicInfo (cards : list Card) : result (gmap string string) :=
  cardIndex ← getCardStatusActive cards;
  match cards with
  | [] => Throw (plainError "No se encontró contenedor de resultados")
  | _ =>
      match cards !! cardIndex with
      | None =>
          Throw (plainError "Cannot read properties of undefined (reading 'querySelector')")
      | Some cardResult =>
          let result : gmap string string :=
            match titulo cardResult with
            | Some nombre => {[ "nombre" := nombre ]}
            | None => ∅
            end in
          Ok (collectRegistros (registros cardResult) result)
      end
  end.

Definition getTabInformation (records : list Registro) : gmap string string :=
  collectRegistros records ∅.

Definition activityEntry (r : Registro) : option (string * string) :=
  match etiqueta r, valor r with
  | Some ciiu, Some description => Some (trim ciiu, trim description)
  | _, _ => None
  end.

(** The [for (attempt = 1; attempt <= maxTries; attempt++)] loop;
    [tries] is the number of attempts left. *)
Fixpoint getEconomicActivity (tries attempt : nat)
    (tab : nat -> option (list Registro)) : list (string * string) :=
  match tries with
  | 0 => []
  | S tries' =>
      match tab attempt with
      | None => getEconomicActivity tries' (S attempt) tab
      | Some [] => getEconomicActivity tries' (S attempt) tab
      | Some records =>
          List.filter (fun item => nonEmpty (fst item)) (omap activityEntry records)
      end
  end.

Definition extractDetailedInfo (d : DetailObs) : gmap string RuesValue :=
  let generalInfo :=
    match generalTab d with
    | Some records => getTabInformation records
    | None => ∅
    end in
  let economicInfo := getEconomicActivity maxTries 1 (economicTab d) in
  let legalRepresentative :=
    match representativeTab d with
    | Some (Some text) => text
    | _ => ""
    end in
  <["informacion_general" := VRecord generalInfo]>
    (<["actividad_economica" := VActivities economicInfo]>
       (<["representante_legal" := VStr legalRepresentative]> ∅)).

Definition waitForDetailTabs (d : DetailObs) : result unit :=
  if detailTabs d then Ok tt
  else Throw (plainError "No se pudo cargar la página de detalles").

(** The object literal
    [{ nombre: basicInfo.nombre || '', tipo_empresa: '', ...basicInfo, ...details }]:
    later entries win, so the union is taken with the later spread on the
    left. *)
Definition extractInformation (o : SearchObs) : result (gmap string RuesValue) :=
  await (waitResults o);;
  basicInfo ← extractBasicInfo (cards o);
  card ← selectedCard (cards o);
  (match card with
   | Some c => if enlace c then Ok tt else Throw (plainError (clickTimeout o))
   | None => Throw (plainError (clickTimeout o))
   end);;
  waitForDetailTabs (detail o);;
  let details := extractDetailedInfo (detail o) in
  Ok (details ∪ (VStr <$> basicInfo) ∪
      <["nombre" := VStr (default "" (basicInfo !! "nombre"))]>
        (<["tipo_empresa" := VStr ""]> ∅)).

(** *** searchByIdentification *)

Definition selectRecordType (o : SearchObs) : result unit :=
  await (waitTypeSelector o);;
  if (typeSelectorCount o =? 0)%nat
  then Throw (plainError "No se encontró ningún elemento select")
  else await (selectOption o).

Definition visibleButton (o : SearchObs) : bool :=
  existsb (fun display => negb (String.eqb display "none")) (buttonDisplays o).

(** Returns whether the API responded.  The first wait (spinner appears)
    is tolerated either way and leaves no trace in the result. *)
Definition enterIdentificationAndSubmit (o : SearchObs) : result bool :=
  await (waitIdInput o);;
  if visibleButton o then
    if spinnerClears o then Ok true else Ok false
  else Ok false.

Definition verifyResults (o : SearchObs) : bool :=
  match alertas o with
  | None => false
  | Some messages =>
      if existsb (fun m => includes m "No se encontraron resultados") messages
      then false
      else (0 <? length (cards o))%nat
  end.

Definition apiError (identification : string) : JsError :=
  mkError ("No se pudo consultar el documento " +:+ identification +:+
           ". La API de RUES no está respondiendo. Por favor intente más tarde.")
          (Some "API_ERROR").

Definition notFoundError (identification : string) : JsError :=
  mkError ("Documento " +:+ identification +:+
           " no encontrado en ningún tipo de registro (RM, ESAL, ESOL).")
          (Some "NOT_FOUND").

(** The [for (const recordType of CONFIG.recordTypes)] loop and the two
    throws after it; [allApisFailed] is the loop's flag. *)
Fixpoint searchLoop (types : list RecordType) (w : RecordType -> SearchObs)
    (identification : string) (allApisFailed : bool)
    : result (gmap string RuesValue) :=
  match types with
  | [] =>
      if allApisFailed then Throw (apiError identification)
      else Throw (notFoundError identification)
  | recordType :: rest =>
      let o := w recordType in
      selectRecordType o;;
      apiResponded ← enterIdentificationAndSubmit o;
      if (apiResponded : bool) then
        if verifyResults o then
          result ← extractInformation o;
          Ok (<["tipo_empresa" := VStr (mapRecords recordType)]> result)
        else searchLoop rest w identification false
      else searchLoop rest w identification allApisFailed
  end.

Definition searchByIdentification (w : RecordType -> SearchObs)
    (identification : string) : result (gmap string RuesValue) :=
  searchLoop recordTypes w identification true.

(** *** handle and the lambda handler *)

(** [handle]: the result (the [catch] rethrows) and the driver calls made,
    the [finally] block included.  [page] is only assigned once
    [setupPage] has returned, so a failed [goto] leaves it [null]. *)
Definition handle (payload : RuesPayload) (w : World)
    : result RuesResult * list DriverCall :=
  match identificationNumber payload with
  | None | Some "" => (Throw (plainError "La identificación es requerida."), [])
  | Some identification =>
      match launch w with
      | Some msg => (Throw (plainError msg), [Launch])
      | None =>
      match newContext w with
      | Some msg => (Throw (plainError msg), [Launch; NewContext; CloseBrowser])
      | None =>
      match newPage w with
      | Some msg =>
          (Throw (plainError msg),
           [Launch; NewContext; NewPage; CloseContext; CloseBrowser])
      | None =>
      match goto w with
      | Some msg =>
          (Throw (plainError msg),
           [Launch; NewContext; NewPage; Goto; CloseContext; CloseBrowser])
      | None =>
          (result ← searchByIdentification (search w) identification;
           Ok {| success := true; data := Some result; error := None |},
           [Launch; NewContext; NewPage; Goto; Search;
            ClosePage; CloseContext; CloseBrowser])
      end end end end
  end.

Definition normalizePayload (event : RuesEvent) : RuesPayload :=
  {| identificationNumber := Some (toString (ev_identificationNumber event));
     headless :=
       Some match ev_headless event with
            | JBool true => true
            | JStr "true" => true
            | JUndefined => true
            | _ => false
            end |}.

Definition statusOf (errorCode : option string) : Z :=
  match errorCode with
  | Some "NOT_FOUND" => 404
  | Some "API_ERROR" => 503
  | _ => 500
  end.

Definition handler (event : RuesEvent) (w : World) : Response * list DriverCall :=
  let payload := normalizePayload event in
  let '(outcome, calls) := handle payload w in
  match outcome with
  | Ok result => ({| statusCode := 200; body := BodyResult result |}, calls)
  | Throw e =>
      ({| statusCode := statusOf (code e);
          body := BodyError (message e)
                    (if truthyOpt (code e) then default "" (code e)
                     else "UNKNOWN_ERROR") |},
       calls)
  end.

End Extraction.

End Rues.

(** ** The token-by-email flow (generate-dian-token-email.ts and its lambda) *)
Module Dian.

Record DianTokenEmailPayload : Type := {
  identificationType : option string;   (* None: the property is absent *)
  userCode : option string;
  companyCode : option string;
  origin : option string;
  headless : option bool
}.

Record DianTokenEmailResult : Type := {
  res_success : bool;
  res_message : option string;
  res_error : option string;
  res_origin : option string;
  res_screenshot : option string
}.

Record DianEvent : Type := {
  ev_identificationType : jsval;
  ev_CompanyIdentificationType : jsval;
  ev_userCode : jsval;
  ev_UserCode : jsval;
  ev_companyCode : jsval;
  ev_CompanyCode : jsval;
  ev_origin : jsval;
  ev_headless : jsval
}.

Record Response : Type := { statusCode : Z; body : DianTokenEmailResult }.

(** *** validatePayload *)

Definition missingFields (payload : DianTokenEmailPayload) : list string :=
  ((if truthyOpt (identificationType payload) then [] else ["identificationType"]) ++
   (if truthyOpt (userCode payload) then [] else ["userCode"]) ++
   (if truthyOpt (companyCode payload) then [] else ["companyCode"]))%list.

Definition validatePayload (payload : DianTokenEmailPayload) : result unit :=
  let missing := missingFields payload in
  if (0 <? length missing)%nat
  then Throw (plainError ("Campos obligatorios faltantes: " +:+ join ", " missing))
  else Ok tt.

(** *** The error modal, as the page shows it *)

Record ModalDom : Type := {
  display : string;              (* getComputedStyle(modal).display *)
  hasInClass : bool;             (* classList.contains('in') *)
  ariaHidden : option string     (* getAttribute('aria-hidden') *)
}.

Record Document : Type := {
  errorModal : option ModalDom;          (* #errorModal *)
  errorModalTitle : option string;       (* textContent of #errorModal-title *)
  errorModalMessage : option string      (* textContent of #errorModal-message *)
}.

Definition modalShown (modal : ModalDom) : bool :=
  (negb (String.eqb (display modal) "none") || hasInClass modal)
  && negb (bool_decide (ariaHidden modal = Some "true")).

Definition isModalVisible (doc : Document) : bool :=
  match errorModal doc with
  | None => false
  | Some modal => modalShown modal
  end.

Definition defaultModalText : string :=
  "Se presentó un error en el portal de la DIAN.".

(** [[title, message].filter(Boolean).join(' - ') || default], with
    [title] and [message] the trimmed texts ('' when the element is
    missing). *)
Definition modalText (doc : Document) : string :=
  let title := trim (default "" (errorModalTitle doc)) in
  let message := trim (default "" (errorModalMessage doc)) in
  orElse (join " - " (List.filter nonEmpty [title; message])) defaultModalText.

Record BlockedRedirect : Type := { fn : string; ts : Z; args : list string }.

Record ModalGuardState : Type := {
  lastError : option string;
  blockedRedirects : list BlockedRedirect
}.

(** *** waitForResultMessage *)

(** [page.$(selector)] followed by [innerText()]. *)
Inductive ElementText : Type :=
| QueryFails (msg : string)   (* page.$ rejects *)
| NoElement
| TextFails (msg : string)    (* innerText() rejects *)
| Text (s : string).

(** [page.$('#legalRepresentative')] and the visibility evaluation. *)
Inductive SelectionProbe : Type :=
| SelectionFails (msg : string)
| NoSelection
| Selection (shown : bool).   (* a rejected evaluation counts as false *)

(** What the page answers during one iteration of the polling loop. *)
Record TickObs : Type := {
  stored : option string;                (* consumeStoredModalError *)
  modalState : option ModalGuardState;   (* getModalState *)
  modalProbe : option Document;          (* readModalError; None: a driver call rejects *)
  successAlert : ElementText;            (* .dian-alert-info p *)
  errorAlert : ElementText;              (* .dian-alert-danger p *)
  toastMessage : ElementText;            (* .toast-message *)
  bodyText : string + string;            (* document.body.innerText, or the rejection *)
  isClosed : bool;                       (* page.isClosed() *)
  selectionButton : SelectionProbe;
  fallbackProbe : option Document;       (* the second readModalError *)
  waitForTimeout : option string         (* page.waitForTimeout(100) rejects *)
}.

Record PollerState : Type := {
  lastModalError : option string;
  lastBlockedRedirects : nat
}.

Inductive TickResult : Type :=
| Return (msg : string)
| Fail (msg : string)
| Continue (st : PollerState).

Definition readModalError (probe : option Document) : option string :=
  match probe with
  | None => None
  | Some doc => if isModalVisible doc then Some (modalText doc) else None
  end.

Definition successMessage (e : ElementText) : option string :=
  match e with
  | Text s => Some (trim s)
  | TextFails _ => Some ""
  | QueryFails _ | NoElement => None
  end.

Definition readAlert (e : ElementText) : result (option string) :=
  match e with
  | QueryFails msg | TextFails msg => Throw (plainError msg)
  | NoElement => Ok None
  | Text s => Ok (Some (trim s))
  end.

Definition credentialsMessage : string :=
  "Verifique las credenciales de inicio de sesión.".

Definition extractErrorMessage (o : TickObs) : result (option string) :=
  alert ← readAlert (errorAlert o);
  if truthyOpt alert then Ok alert else
  toast ← readAlert (toastMessage o);
  if truthyOpt toast then Ok toast else
  match bodyText o with
  | inr msg => Throw (plainError msg)
  | inl text =>
      if includes text "credenciales" || includes text "incorrect"
      then Ok (Some credentialsMessage)
      else Ok None
  end.

Definition closedMarker : string :=
  "Target page, context or browser has been closed".

Definition reloadedMessage : string :=
  "La página de la DIAN se recargó antes de obtener respuesta. Verifique el estado del portal e intente nuevamente.".

Definition closedMessage : string :=
  "La página de la DIAN se cerró antes de obtener respuesta. Verifique los datos e intente nuevamente.".

Definition notGeneratedMessage : string :=
  "No fue posible generar el token. Verifique la información e intente nuevamente.".

Definition timeoutMessage : string :=
  "No se recibió confirmación del envío del correo. Verifique las credenciales.".

(** What is thrown inside the [try] around [extractErrorMessage]: the
    extracted text, or the rejection of a driver call. *)
Definition errorBlockThrown (o : TickObs) : option string :=
  match extractErrorMessage o with
  | Ok extracted => if truthyOpt extracted then extracted else None
  | Throw e => Some (message e)
  end.

(** What is thrown inside the [try] around the initial-screen check.  Its
    own [catch] logs whatever is thrown there, so [tick] does not use it. *)
Definition selectionBlockThrown (last : option string) (o : TickObs) : option string :=
  match selectionButton o with
  | SelectionFails msg => Some msg
  | NoSelection => None
  | Selection false => None
  | Selection true =>
      if truthyOpt last then last
      else
        let fallbackModal := readModalError (fallbackProbe o) in
        if truthyOpt fallbackModal then fallbackModal
        else Some notGeneratedMessage
  end.

Definition guardError (o : TickObs) : option string :=
  match modalState o with
  | Some st => lastError st
  | None => None
  end.

Definition blockedCount (o : TickObs) : nat :=
  match modalState o with
  | Some st => length (blockedRedirects st)
  | None => 0
  end.

(** One iteration of the [while] loop. *)
Definition tick (st : PollerState) (o : TickObs) : TickResult :=
  if truthyOpt (stored o) then Fail (default "" (stored o)) else
  if truthyOpt (guardError o) then Fail (default "" (guardError o)) else
  let blocked :=
    if (0 <? blockedCount o)%nat && negb (blockedCount o =? lastBlockedRedirects st)%nat
    then blockedCount o else lastBlockedRedirects st in
  let modalError := readModalError (modalProbe o) in
  if truthyOpt modalError then Fail (default "" modalError) else
  if truthyOpt (successMessage (successAlert o))
  then Return (default "" (successMessage (successAlert o))) else
  if match errorBlockThrown o with
     | Some thrown => includes thrown closedMarker
     | None => false
     end
  then Fail (default reloadedMessage (lastModalError st)) else
  let last :=
    if truthyOpt (guardError o) && negb (truthyOpt (lastModalError st))
    then guardError o else lastModalError st in
  if isClosed o then Fail (default closedMessage last) else
  let _logged := selectionBlockThrown last o in
  match waitForTimeout o with
  | Some msg => Fail msg
  | None => Continue {| lastModalError := last; lastBlockedRedirects := blocked |}
  end.

(** The loop, run over the observations of the iterations that start
    before the deadline; when they are used up the deadline has passed. *)
Fixpoint pollTicks (st : PollerState) (ticks : list TickObs) : result string :=
  match ticks with
  | [] => Throw (plainError (default timeoutMessage (lastModalError st)))
  | o :: rest =>
      match tick st o with
      | Return msg => Ok msg
      | Fail msg => Throw (plainError msg)
      | Continue st' => pollTicks st' rest
      end
  end.

Definition waitForResultMessage (ticks : list TickObs) : result string :=
  pollTicks {| lastModalError := None; lastBlockedRedirects := 0 |} ticks.

(** *** interactWithLoginForm and handle *)

(** What the page and the captcha services answer while the login form
    is filled and submitted. *)
Record LoginObs : Type := {
  waitLegalRepresentative : option string;
  clickLegalRepresentative : option string;
  forceClickLegalRepresentative : option string;
  waitForm : option string;
  fillForm : option string;              (* selectOption and the two fills *)
  waitCaptcha : option string;
  siteKey : option string;               (* the data-sitekey attribute *)
  captcha : Captcha.CaptchaWorld;
  waitCaptchaInput : option string;
  clickSubmit : option string;
  forceClickSubmit : option string
}.

(** A click that is retried with [force: true] when it rejects. *)
Definition clickWithRetry (click force : option string) : result unit :=
  match click with
  | None => Ok tt
  | Some _ => await force
  end.

Definition solveTurnstileCaptcha (o : LoginObs) : result (option string) :=
  await (waitCaptcha o);;
  if truthyOpt (siteKey o) then
    let token := fst (Captcha.resolveCaptcha (captcha o)) in
    if truthyOpt token then
      await (waitCaptchaInput o);;
      Ok token
    else Ok None
  else Throw (plainError "No se pudo obtener el sitekey del captcha").

Definition interactWithLoginForm (o : LoginObs) : result unit :=
  await (waitLegalRepresentative o);;
  clickWithRetry (clickLegalRepresentative o) (forceClickLegalRepresentative o);;
  await (waitForm o);;
  await (fillForm o);;
  captchaSolution ← solveTurnstileCaptcha o;
  if truthyOpt captchaSolution
  then clickWithRetry (clickSubmit o) (forceClickSubmit o)
  else Throw (plainError "No se pudo resolver el captcha Turnstile").

Inductive DriverCall : Type :=
| Launch | NewContext | NewPage | AddInitScript | Goto | Interact | Poll
| Screenshot | ClosePage | CloseContext | CloseBrowser.

Record World : Type := {
  isLambda : bool;                  (* AWS_LAMBDA_FUNCTION_NAME is set *)
  launch : option string;
  newContext : option string;
  newPage : option string;
  addInitScript : option string;
  goto : option string;
  login : LoginObs;
  ticks : list TickObs;
  screenshotData : option string    (* the base64 image; None: screenshot rejects *)
}.

(** The [catch] block of [handle]: the failure result and the screenshot
    call it makes when a page exists outside Lambda. *)
Definition failure (payload : DianTokenEmailPayload) (w : World)
    (pageOpen : bool) (errorMessage : string)
    : DianTokenEmailResult * list DriverCall :=
  let shoot := pageOpen && negb (isLambda w) in
  let screenshot := if shoot then screenshotData w else None in
  ({| res_success := false;
      res_message := None;
      res_error := Some errorMessage;
      res_origin := origin payload;
      res_screenshot :=
        if negb (isLambda w) && truthyOpt screenshot then screenshot else None |},
   if shoot then [Screenshot] else []).

(** The steps of [handle] once a page exists. *)
Definition pageFlow (w : World) : result string * list DriverCall :=
  match addInitScript w with
  | Some msg => (Throw (plainError msg), [AddInitScript])
  | None =>
  match goto w with
  | Some msg => (Throw (plainError msg), [AddInitScript; Goto])
  | None =>
  match interactWithLoginForm (login w) with
  | Throw e => (Throw e, [AddInitScript; Goto; Interact])
  | Ok _ => (waitForResultMessage (ticks w), [AddInitScript; Goto; Interact; Poll])
  end end end.

(** [handle]: the result and the driver calls made, the [catch] and
    [finally] blocks included. *)
Definition handle (payload : DianTokenEmailPayload) (w : World)
    : DianTokenEmailResult * list DriverCall :=
  match validatePayload payload with
  | Throw e => failure payload w false (message e)
  | Ok _ =>
  match launch w with
  | Some msg =>
      let '(r, shot) := failure payload w false msg in (r, Launch :: shot)
  | None =>
  match newContext w with
  | Some msg =>
      let '(r, shot) := failure payload w false msg in
      (r, ([Launch; NewContext] ++ shot ++ [CloseBrowser])%list)
  | None =>
  match newPage w with
  | Some msg =>
      let '(r, shot) := failure payload w false msg in
      (r, ([Launch; NewContext; NewPage] ++ shot ++ [CloseContext; CloseBrowser])%list)
  | None =>
      let '(outcome, calls) := pageFlow w in
      match outcome with
      | Ok msg =>
          ({| res_success := true;
              res_message := Some msg;
              res_error := None;
              res_origin := origin payload;
              res_screenshot := None |},
           ([Launch; NewContext; NewPage] ++ calls ++
            [ClosePage; CloseContext; CloseBrowser])%list)
      | Throw e =>
          let '(r, shot) := failure payload w true (message e) in
          (r, ([Launch; NewContext; NewPage] ++ calls ++ shot ++
               [ClosePage; CloseContext; CloseBrowser])%list)
      end
  end end end
  end.

(** *** The lambda handler *)

Definition normalizeBoolean (value : jsval) (defaultValue : bool) : bool :=
  match value with
  | JUndefined | JNull | JStr "" => defaultValue
  | JBool b => b
  | JStr s =>
      let normalized := toLowerCase (trim s) in
      if bool_decide (normalized ∈ ["true"; "1"; "yes"; "si"]) then true
      else if bool_decide (normalized ∈ ["false"; "0"; "no"]) then false
      else defaultValue
  | JOther _ _ => defaultValue
  end.

Definition buildPayload (event : DianEvent) : DianTokenEmailPayload :=
  {| identificationType :=
       Some (toString (coalesce (coalesce (ev_identificationType event)
                                          (ev_CompanyIdentificationType event))
                                (JStr "")));
     userCode :=
       Some (toString (coalesce (coalesce (ev_userCode event) (ev_UserCode event))
                                (JStr "")));
     companyCode :=
       Some (toString (coalesce (coalesce (ev_companyCode event) (ev_CompanyCode event))
                                (JStr "")));
     origin :=
       if truthy (ev_origin event) then Some (toString (ev_origin event)) else None;
     headless := Some (normalizeBoolean (ev_headless event) true) |}.

Definition handler (event : DianEvent) (w : World) : Response * list DriverCall :=
  let '(result, calls) := handle (buildPayload event) w in
  ({| statusCode := if res_success result then 200 else 400; body := result |}, calls).

(** *** The modal guard installed by setupModalGuards

    The script handed to [page.addInitScript] runs in every new document
    of the page.  A tab holds what the script reads and writes: the
    document, [sessionStorage], the state objects created by [setup] (a
    heap, so that two objects with equal fields stay distinct), the marker
    [window.__dianModalState], the pending [DOMContentLoaded] listeners,
    the mutation observers and the wrappers around the three navigation
    functions.  Every closure made by one run of [setup] refers to that
    run's state object, named by its index in the heap. *)

Inductive NavFn : Type := Assign | Replace | Reload.

Definition navName (f : NavFn) : string :=
  match f with
  | Assign => "assign"
  | Replace => "replace"
  | Reload => "reload"
  end.

Record Tab : Type := {
  loading : bool;                        (* document.readyState === 'loading' *)
  document : Document;
  sessionError : option string;          (* sessionStorage['__dianModalError'] *)
  heap : list ModalGuardState;
  dianModalState : option nat;           (* window.__dianModalState *)
  pendingSetups : nat;                   (* once-listeners for DOMContentLoaded *)
  observers : list nat;                  (* one per MutationObserver, by state *)
  wrappers : NavFn -> list nat;          (* window.location[f]: wrappers, outermost
                                            first, around the native function *)
  navigations : list (NavFn * list string)   (* native navigations performed *)
}.

Record Page : Type := {
  initScripts : nat;   (* how many times addInitScript registered the script *)
  tab : Tab
}.

Definition setLastError (text : string) (st : ModalGuardState) : ModalGuardState :=
  {| lastError := Some text; blockedRedirects := blockedRedirects st |}.

Definition pushBlocked (b : BlockedRedirect) (st : ModalGuardState) : ModalGuardState :=
  {| lastError := lastError st; blockedRedirects := blockedRedirects st ++ [b] |}.

(** [captureModal] of the closure whose state object is [id]. *)
Definition captureModal (id : nat) (t : Tab) : Tab :=
  if isModalVisible (document t) then
    let text := modalText (document t) in
    {| loading := loading t;
       document := document t;
       sessionError := Some text;
       heap := alter (setLastError text) id (heap t);
       dianModalState := dianModalState t;
       pendingSetups := pendingSetups t;
       observers := observers t;
       wrappers := wrappers t;
       navigations := navigations t |}
  else t.

(** The function [setup] of the init script. *)
Definition setup (t : Tab) : Tab :=
  let id := length (heap t) in
  let stored := sessionError t in
  let state :=
    {| lastError := if truthyOpt stored then stored else None;
       blockedRedirects := [] |} in
  let observed :=
    {| loading := loading t;
       document := document t;
       sessionError := sessionError t;
       heap := heap t ++ [state];
       dianModalState := Some id;
       pendingSetups := pendingSetups t;
       observers := observers t ++ [id];
       wrappers := wrappers t;
       navigations := navigations t |} in
  let captured := captureModal id observed in
  {| loading := loading captured;
     document := document captured;
     sessionError := sessionError captured;
     heap := heap captured;
     dianModalState := dianModalState captured;
     pendingSetups := pendingSetups captured;
     observers := observers captured;
     wrappers := fun f => id :: wrappers captured f;
     navigations := navigations captured |}.

(** One run of the init script in the current document. *)
Definition runInitScript (t : Tab) : Tab :=
  match dianModalState t with
  | Some _ => t
  | None =>
      if loading t then
        {| loading := loading t;
           document := document t;
           sessionError := sessionError t;
           heap := heap t;
           dianModalState := dianModalState t;
           pendingSetups := S (pendingSetups t);
           observers := observers t;
           wrappers := wrappers t;
           navigations := navigations t |}
      else setup t
  end.

(** [setupModalGuards(page)]: one more registration of the script. *)
Definition setupModalGuards (p : Page) : Page :=
  {| initScripts := S (initScripts p); tab := tab p |}.

Definition setDocument (doc : Document) (t : Tab) : Tab :=
  {| loading := loading t;
     document := doc;
     sessionError := sessionError t;
     heap := heap t;
     dianModalState := dianModalState t;
     pendingSetups := pendingSetups t;
     observers := observers t;
     wrappers := wrappers t;
     navigations := navigations t |}.

(** A call of [window.location[f](args)] that goes through [ws]. *)
Fixpoint callNavigation (ws : list nat) (f : NavFn) (a : list string) (now : Z)
    (t : Tab) : Tab :=
  match ws with
  | [] =>
      {| loading := loading t;
         document := document t;
         sessionError := sessionError t;
         heap := heap t;
         dianModalState := dianModalState t;
         pendingSetups := pendingSetups t;
         observers := observers t;
         wrappers := wrappers t;
         navigations := navigations t ++ [(f, a)] |}
  | id :: inner =>
      let t1 := captureModal id t in
      if isModalVisible (document t1) then
        {| loading := loading t1;
           document := document t1;
           sessionError := sessionError t1;
           heap := alter (pushBlocked {| fn := navName f; ts := now; args := a |})
                         id (heap t1);
           dianModalState := dianModalState t1;
           pendingSetups := pendingSetups t1;
           observers := observers t1;
           wrappers := wrappers t1;
           navigations := navigations t1 |}
      else callNavigation inner f a now t1
  end.

(** What happens in the page. *)
Inductive PageEvent : Type :=
| NewDocument (doc : Document)     (* a navigation commits: fresh window, scripts run *)
| DOMContentLoaded
| Mutation (doc : Document)        (* a change the observers are told about *)
| SilentChange (doc : Document)    (* a change outside the observers' filter *)
| Navigate (f : NavFn) (a : list string) (now : Z).

Definition freshTab (doc : Document) (t : Tab) : Tab :=
  {| loading := true;
     document := doc;
     sessionError := sessionError t;
     heap := [];
     dianModalState := None;
     pendingSetups := 0;
     observers := [];
     wrappers := fun _ => [];
     navigations := navigations t |}.

Definition fireDOMContentLoaded (t : Tab) : Tab :=
  if loading t then
    Nat.iter (pendingSetups t) setup
      {| loading := false;
         document := document t;
         sessionError := sessionError t;
         heap := heap t;
         dianModalState := dianModalState t;
         pendingSetups := 0;
         observers := observers t;
         wrappers := wrappers t;
         navigations := navigations t |}
  else t.

Definition step (p : Page) (e : PageEvent) : Page :=
  {| initScripts := initScripts p;
     tab :=
       match e with
       | NewDocument doc => Nat.iter (initScripts p) runInitScript (freshTab doc (tab p))
       | DOMContentLoaded => fireDOMContentLoaded (tab p)
       | Mutation doc =>
           fold_left (fun t id => captureModal id t) (observers (tab p))
                     (setDocument doc (tab p))
       | SilentChange doc => setDocument doc (tab p)
       | Navigate f a now => callNavigation (wrappers (tab p) f) f a now (tab p)
       end |}.

Definition run (p : Page) (events : list PageEvent) : Page :=
  fold_left step events p.

(** What the flow can see of the page: the object behind the marker (as
    [getModalState] returns it), the persisted error, and the navigations
    that really took place. *)
Record Observable : Type := {
  seenState : option ModalGuardState;
  seenStored : option string;
  seenNavigations : list (NavFn * list string)
}.

Definition observe (p : Page) : Observable :=
  {| seenState := id ← dianModalState (tab p); heap (tab p) !! id;
     seenStored := sessionError (tab p);
     seenNavigations := navigations (tab p) |}.

End Dian.

#[local] Open Scope nat_scope.
#[local] Open Scope list_scope.

(** ** Notions used in the statements, and example worlds *)

(** *** Card lists *)
Module CardNotions.
Import Rues.

Definition cardWith (texts : list string) : Card :=
  {| spans := texts; titulo := None; registros := []; enlace := true |}.

End CardNotions.

(** *** The calls of the polling loop *)
Module CaptchaNotions.
Import Captcha.

(** The calls made by [n] polls answered "not ready", from poll [from] on. *)
Definition pendingCalls (from n : nat) : list CaptchaCall :=
  flat_map (fun j => [CallPoll j; CallSleep pollDelay]) (seq from n).

(** Scenario C of the specification: the job completes at the second
    poll. *)
Definition secondPollWorld : CaptchaWorld :=
  {| antiCaptcha := inr "provider A failed";
     submit := SubmitData true "7429";
     polls := fun n => match n with 0 => PollPending | _ => PollReady "token" end |}.

(** A poll request that throws, followed by a poll that would report the
    solution. *)
Definition failingPollWorld : CaptchaWorld :=
  {| antiCaptcha := inr "provider A failed";
     submit := SubmitData true "7429";
     polls := fun n => match n with 0 => PollRejects "socket hang up" | _ => PollReady "token" end |}.

End CaptchaNotions.

(** *** Validation results and field aliases *)
Module DianHandlerNotions.
Import Dian.

Definition missingMessage (payload : DianTokenEmailPayload) : string :=
  "Campos obligatorios faltantes: " +:+ join ", " (missingFields payload).

Definition validationFailure (payload : DianTokenEmailPayload) : DianTokenEmailResult :=
  {| res_success := false;
     res_message := None;
     res_error := Some (missingMessage payload);
     res_origin := origin payload;
     res_screenshot := None |}.

Definition emptyWorld : World :=
  {| isLambda := false;
     launch := None; newContext := None; newPage := None;
     addInitScript := None; goto := None;
     login :=
       {| waitLegalRepresentative := None;
          clickLegalRepresentative := None;
          forceClickLegalRepresentative := None;
          waitForm := None;
          fillForm := None;
          waitCaptcha := None;
          siteKey := Some "0x4AAAAAAA";
          captcha := CaptchaNotions.secondPollWorld;
          waitCaptchaInput := None;
          clickSubmit := None;
          forceClickSubmit := None |};
     ticks := [];
     screenshotData := Some "iVBORw0KGgo=" |}.

Definition onlyUserCode : DianTokenEmailPayload :=
  {| identificationType := Some "";
     userCode := Some "1010168874";
     companyCode := None;
     origin := Some "test";
     headless := Some true |}.

Definition present (v : jsval) : bool := negb (nullish v).

(** The value chosen by [camel ?? Pascal ?? '']. *)
Definition aliased (camel pascal : jsval) : string :=
  if present camel then toString camel
  else if present pascal then toString pascal
  else "".

(** The event that supplies under the documented names what [event]
    supplies under the aliases. *)
Definition documentedNames (event : DianEvent) : DianEvent :=
  {| ev_identificationType := ev_CompanyIdentificationType event;
     ev_CompanyIdentificationType := JUndefined;
     ev_userCode := ev_UserCode event;
     ev_UserCode := JUndefined;
     ev_companyCode := ev_CompanyCode event;
     ev_CompanyCode := JUndefined;
     ev_origin := ev_origin event;
     ev_headless := ev_headless event |}.

Definition aliasEvent : DianEvent :=
  {| ev_identificationType := JUndefined;
     ev_CompanyIdentificationType := JStr "10910094";
     ev_userCode := JNull;
     ev_UserCode := JOther "1010168874" true;
     ev_companyCode := JUndefined;
     ev_CompanyCode := JStr "901827899";
     ev_origin := JStr "test";
     ev_headless := JStr "TRUE" |}.

End DianHandlerNotions.

(** *** Signals of the registry search and example pages *)
Module RuesNotions.
Import Rues.

(** The search was submitted under this record type and the spinner of
    the submit button never left it. *)
Definition indicatorNeverClears (o : SearchObs) : Prop :=
  selectRecordType o = Ok tt ∧ waitIdInput o = None ∧
  visibleButton o = true ∧ spinnerClears o = false.

Definition apiResponded (o : SearchObs) : Prop :=
  enterIdentificationAndSubmit o = Ok true.

Definition recordFound (o : SearchObs) : Prop :=
  apiResponded o ∧ verifyResults o = true.

(** A driver that launches, opens a context and a page, and loads the
    site. *)
Definition ready (W : World) : Prop :=
  launch W = None ∧ newContext W = None ∧ newPage W = None ∧ goto W = None.

(** *** Example pages *)

Definition noDetail : DetailObs :=
  {| detailTabs := false;
     generalTab := None;
     economicTab := fun _ => None;
     representativeTab := None |}.

(** The search is submitted and the spinner stays. *)
Definition stuck : SearchObs :=
  {| waitTypeSelector := None;
     typeSelectorCount := 1;
     selectOption := None;
     waitIdInput := None;
     buttonDisplays := ["none"; "block"];
     spinnerClears := false;
     alertas := Some [];
     cards := [];
     waitResults := None;
     clickTimeout := "locator.click: Timeout 120000ms exceeded.";
     detail := noDetail |}.

(** The API answers that there is no such record. *)
Definition noResults : SearchObs :=
  {| waitTypeSelector := None;
     typeSelectorCount := 1;
     selectOption := None;
     waitIdInput := None;
     buttonDisplays := ["none"; "block"];
     spinnerClears := true;
     alertas := Some ["No se encontraron resultados para la consulta"];
     cards := [];
     waitResults := None;
     clickTimeout := "locator.click: Timeout 120000ms exceeded.";
     detail := noDetail |}.

(** Two cards for the same entity, the second one active; the page labels
    the entity with a company type of its own. *)
Definition found : SearchObs :=
  {| waitTypeSelector := None;
     typeSelectorCount := 1;
     selectOption := None;
     waitIdInput := None;
     buttonDisplays := ["block"];
     spinnerClears := true;
     alertas := Some [];
     cards :=
       [ {| spans := ["900123456"; "Cancelada"];
            titulo := Some "FUNDACION DEMO";
            registros := [];
            enlace := true |};
         {| spans := ["900123456"; "Activa"];
            titulo := Some "FUNDACION DEMO";
            registros :=
              [ {| etiqueta := Some "tipo_empresa"; valor := Some "Sociedad" |};
                {| etiqueta := Some "estado"; valor := Some " Activa " |} ];
            enlace := true |} ];
     waitResults := None;
     clickTimeout := "locator.click: Timeout 120000ms exceeded.";
     detail :=
       {| detailTabs := true;
          generalTab := Some [ {| etiqueta := Some "municipio"; valor := Some "TUNJA" |} ];
          economicTab :=
            fun attempt =>
              match attempt with
              | 1 => None
              | 2 => Some []
              | _ => Some [ {| etiqueta := Some "9499"; valor := Some "Otras asociaciones" |} ]
              end;
          representativeTab := Some (Some "ANA DIAZ") |} |}.

Definition readyWorld (w : RecordType → SearchObs) : World :=
  {| launch := None; newContext := None; newPage := None; goto := None; search := w |}.

Definition eventFor (identification : jsval) : RuesEvent :=
  {| ev_identificationNumber := identification; ev_headless := JUndefined |}.

(** Scenario A of the specification: found under ESAL only. *)
Definition scenarioA (c : RecordType) : SearchObs :=
  match c with ESAL => found | _ => noResults end.

End RuesNotions.

(** *** Signals of a polling iteration *)
Module PollerNotions.
Import Dian.

(** The poller state after the iterations [before], when each of them
    ends in the 100 ms wait. *)
Fixpoint continued (st : PollerState) (before : list TickObs) : option PollerState :=
  match before with
  | [] => Some st
  | o :: rest =>
      match tick st o with
      | Continue st' => continued st' rest
      | _ => None
      end
  end.

Definition initialState : PollerState :=
  {| lastModalError := None; lastBlockedRedirects := 0 |}.

Definition outcome (r : TickResult) (after : list TickObs) : result string :=
  match r with
  | Return msg => Ok msg
  | Fail msg => Throw (plainError msg)
  | Continue st => pollTicks st after
  end.

(** The signals of one iteration. *)
Definition successPresent (o : TickObs) : Prop :=
  truthyOpt (successMessage (successAlert o)) = true.

Definition persistedError (o : TickObs) : bool := truthyOpt (stored o).
Definition liveError (o : TickObs) : bool := truthyOpt (guardError o).
Definition modalError (o : TickObs) : bool := truthyOpt (readModalError (modalProbe o)).

(** Non-empty text in the error alert or in the toast. *)
Definition alertError (o : TickObs) : bool :=
  match errorAlert o with Text s => nonEmpty (trim s) | _ => false end
  || match toastMessage o with Text s => nonEmpty (trim s) | _ => false end.

(** An iteration in which nothing has happened yet. *)
Definition quiet : TickObs :=
  {| stored := None;
     modalState := Some {| lastError := None; blockedRedirects := [] |};
     modalProbe := Some {| errorModal := None;
                           errorModalTitle := None;
                           errorModalMessage := None |};
     successAlert := NoElement;
     errorAlert := NoElement;
     toastMessage := NoElement;
     bodyText := inl "Ingreso de usuarios";
     isClosed := false;
     selectionButton := NoSelection;
     fallbackProbe := None;
     waitForTimeout := None |}.

Definition sentMessage : string :=
  "Se ha enviado el código de acceso al correo registrado.".

(** The modal is shown while the success alert is there too. *)
Definition modalAndSuccess : TickObs :=
  {| stored := None;
     modalState := Some {| lastError := None; blockedRedirects := [] |};
     modalProbe :=
       Some {| errorModal :=
                 Some {| display := "block"; hasInClass := true; ariaHidden := None |};
               errorModalTitle := Some " Error ";
               errorModalMessage := Some "Usuario no autorizado" |};
     successAlert := Text sentMessage;
     errorAlert := NoElement;
     toastMessage := NoElement;
     bodyText := inl "";
     isClosed := false;
     selectionButton := NoSelection;
     fallbackProbe := None;
     waitForTimeout := None |}.

(** The error alert and the success alert both hold text. *)
Definition alertAndSuccess : TickObs :=
  {| stored := None;
     modalState := Some {| lastError := None; blockedRedirects := [] |};
     modalProbe := Some {| errorModal := None;
                           errorModalTitle := None;
                           errorModalMessage := None |};
     successAlert := Text sentMessage;
     errorAlert := Text "El usuario no existe";
     toastMessage := Text "Error";
     bodyText := inl "";
     isClosed := false;
     selectionButton := NoSelection;
     fallbackProbe := None;
     waitForTimeout := None |}.

End PollerNotions.

(** *** The view of a single guard *)
Module GuardNotions.
Import Dian.

(** What one guard shows of a tab, whichever state object and however
    many wrappers stand behind it: either the scripts still wait for
    [DOMContentLoaded], or a state object is behind the marker. *)
Inductive View : Type :=
| Waiting (doc : Document) (stored : option string)
          (navs : list (NavFn * list string))
| Guarding (st : ModalGuardState) (doc : Document) (stored : option string)
           (navs : list (NavFn * list string)).

(** The state object and the persisted error right after [setup]. *)
Definition capturedState (doc : Document) (stored : option string) : ModalGuardState :=
  {| lastError :=
       if isModalVisible doc then Some (modalText doc)
       else if truthyOpt stored then stored else None;
     blockedRedirects := [] |}.

Definition capturedStored (doc : Document) (stored : option string) : option string :=
  if isModalVisible doc then Some (modalText doc) else stored.

(** How a single guard reacts to the events of the page. *)
Definition viewStep (v : View) (e : PageEvent) : View :=
  match e, v with
  | NewDocument doc, Waiting _ stored navs => Waiting doc stored navs
  | NewDocument doc, Guarding _ _ stored navs => Waiting doc stored navs
  | DOMContentLoaded, Waiting doc stored navs =>
      Guarding (capturedState doc stored) doc (capturedStored doc stored) navs
  | DOMContentLoaded, Guarding _ _ _ _ => v
  | Mutation doc, Waiting _ stored navs => Waiting doc stored navs
  | Mutation doc, Guarding st _ stored navs =>
      if isModalVisible doc
      then Guarding (setLastError (modalText doc) st) doc (Some (modalText doc)) navs
      else Guarding st doc stored navs
  | SilentChange doc, Waiting _ stored navs => Waiting doc stored navs
  | SilentChange doc, Guarding st _ stored navs => Guarding st doc stored navs
  | Navigate f a now, Waiting doc stored navs => Waiting doc stored (navs ++ [(f, a)])
  | Navigate f a now, Guarding st doc stored navs =>
      if isModalVisible doc
      then Guarding (pushBlocked {| fn := navName f; ts := now; args := a |}
                       (setLastError (modalText doc) st))
                    doc (Some (modalText doc)) navs
      else Guarding st doc stored (navs ++ [(f, a)])
  end.

Definition observeView (v : View) : Observable :=
  match v with
  | Waiting _ stored navs =>
      {| seenState := None; seenStored := stored; seenNavigations := navs |}
  | Guarding st _ stored navs =>
      {| seenState := Some st; seenStored := stored; seenNavigations := navs |}
  end.

Definition Pending (t : Tab) : Prop :=
  loading t = true ∧ heap t = [] ∧ dianModalState t = None ∧
  observers t = [] ∧ (∀ f, wrappers t f = []) ∧ 0 < pendingSetups t.

(** The marker points to a state object with fields [st]; that object's
    observer is registered and its wrapper is the outermost one of every
    navigation function. *)
Definition Installed (t : Tab) (st : ModalGuardState) : Prop :=
  loading t = false ∧
  ∃ a, dianModalState t = Some a ∧ heap t !! a = Some st ∧
       a ∈ observers t ∧ ∀ f, ∃ inner, wrappers t f = a :: inner.

Definition views (t : Tab) (v : View) : Prop :=
  match v with
  | Waiting doc stored navs =>
      Pending t ∧ document t = doc ∧ sessionError t = stored ∧ navigations t = navs
  | Guarding st doc stored navs =>
      Installed t st ∧ document t = doc ∧ sessionError t = stored ∧ navigations t = navs
  end.

Definition captureAll (ids : list nat) (t : Tab) : Tab :=
  fold_left (fun t id => captureModal id t) ids t.

(** The tab of a new document once the script has run [n] times. *)
Definition pendingTab (n : nat) (doc : Document) (t : Tab) : Tab :=
  {| loading := true;
     document := doc;
     sessionError := sessionError t;
     heap := [];
     dianModalState := None;
     pendingSetups := n;
     observers := [];
     wrappers := fun _ => [];
     navigations := navigations t |}.

(** Two pages that hold the script at least once and either share their
    tab or show the same view. *)
Definition alike (p q : Page) : Prop :=
  0 < initScripts p ∧ 0 < initScripts q ∧
  (tab p = tab q ∨ ∃ v, views (tab p) v ∧ views (tab q) v).

(** *** Example course of a page *)

Definition hiddenModal : Document :=
  {| errorModal := Some {| display := "none"; hasInClass := false;
                           ariaHidden := Some "true" |};
     errorModalTitle := Some "";
     errorModalMessage := Some "" |}.

Definition shownModal : Document :=
  {| errorModal := Some {| display := "block"; hasInClass := true; ariaHidden := None |};
     errorModalTitle := Some "Error";
     errorModalMessage := Some " Usuario no autorizado " |}.

Definition blankTab : Tab :=
  {| loading := false;
     document := hiddenModal;
     sessionError := None;
     heap := [];
     dianModalState := None;
     pendingSetups := 0;
     observers := [];
     wrappers := fun _ => [];
     navigations := [] |}.

Definition blankPage : Page := {| initScripts := 0; tab := blankTab |}.

(** The login page loads, redirects once, then shows the modal and tries
    to reload. *)
Definition course : list PageEvent :=
  [ NewDocument hiddenModal;
    DOMContentLoaded;
    Navigate Assign ["/User/CompanyLogin"] 1730000000000;
    Mutation shownModal;
    Navigate Reload [] 1730000000500 ].

End GuardNotions.

(** * Part I, continued: further parts of the code *)

(** ** The proxy pool (proxies.ts) *)
Module Proxies.

Definition WEBSHARE_PROXIES : list string :=
  [ "142.111.48.253:7030:hzggpbol:xqrp7h734xyj";
    "31.59.20.176:6754:hzggpbol:xqrp7h734xyj";
    "23.95.150.145:6114:hzggpbol:xqrp7h734xyj";
    "198.23.239.134:6540:hzggpbol:xqrp7h734xyj";
    "45.38.107.97:6014:hzggpbol:xqrp7h734xyj";
    "107.172.163.27:6543:hzggpbol:xqrp7h734xyj";
    "198.105.121.200:6462:hzggpbol:xqrp7h734xyj";
    "64.137.96.74:6641:hzggpbol:xqrp7h734xyj";
    "216.10.27.159:6837:hzggpbol:xqrp7h734xyj";
    "142.111.67.146:5611:hzggpbol:xqrp7h734xyj" ].

(** [username] and [password] are [undefined] when the entry has fewer
    than four parts. *)
Record ProxyConfig : Type := {
  server : string;
  username : option string;
  password : option string
}.

(** [s.split(sep)] for a separator of one character. *)
Fixpoint split (sep : ascii) (s : string) : list string :=
  match s with
  | EmptyString => [EmptyString]
  | String c s' =>
      if Ascii.eqb c sep then EmptyString :: split sep s'
      else
        match split sep s' with
        | [] => [String c EmptyString]
        | part :: parts => String c part :: parts
        end
  end.

(** A part of the entry inside a template literal: [undefined] prints
    as its name. *)
Definition interpolate (part : option string) : string :=
  default "undefined" part.

(** The destructuring [[ip, port, username, password] = proxy.split(':')]
    and the object returned. *)
Definition proxyConfig (proxy : string) : ProxyConfig :=
  let parts := split ":" proxy in
  {| server := "http://" +:+ interpolate (parts !! 0%nat) +:+ ":" +:+
               interpolate (parts !! 1%nat);
     username := parts !! 2%nat;
     password := parts !! 3%nat |}.

(** [getNextProxy] over the pool [proxies], with the module variable
    [proxyIndex] passed in and out.  The index read is below the length,
    so the entry is always there. *)
Definition getNextProxyFrom (proxies : list string) (proxyIndex : nat)
    : option ProxyConfig * nat :=
  if (length proxies =? 0)%nat then (None, proxyIndex)
  else
    (proxyConfig <$> proxies !! (proxyIndex mod length proxies)%nat,
     ((proxyIndex + 1) mod length proxies)%nat).

Definition getNextProxy (proxyIndex : nat) : option ProxyConfig * nat :=
  getNextProxyFrom WEBSHARE_PROXIES proxyIndex.

End Proxies.

(** ** The certificate login (get-dian-cookie-by-certificate.ts and its lambda) *)
Module DianAuth.

Record Payload : Type := {
  base64CertificateP12 : string;
  certificatePassword : string;
  identificationType : string;
  nitRepresentanteLegal : string;
  headless : option bool
}.

Record PageInfo : Type := {
  title : string;
  url : string;
  bodyText : string;
  formElements : nat;
  hasTurnstile : bool;
  hasIdentificationTypeField : bool;
  hasUserCodeField : bool;
  hasCompanyCodeField : bool
}.

(** A cookie of the context; the flow hands the cookies on as they are. *)
Record Cookie : Type := {
  name : string;
  value : string;
  domain : string;
  path : string
}.

Record Screenshots : Type := {
  beforeSubmit : option string;
  final : option string
}.

Record HandleResult : Type := {
  success : bool;
  certificateAccepted : option bool;
  formFilled : option bool;
  pageInfo : option PageInfo;
  screenshots : option Screenshots;
  cookies : option (list Cookie);
  error : option string
}.

Record Response : Type := { statusCode : Z; body : HandleResult }.

(** What node-forge makes of the P12 file. *)
Inductive P12 : Type :=
| P12Rejects (msg : string)   (* wrong password, not a P12 file *)
| P12NoCertificate            (* no certificate bag, or a bag without certificate *)
| P12NoKey                    (* no key bag, or a bag without key *)
| P12Pems.                    (* certificate and key converted to PEM *)

(** The calls the flow makes to the file system, the driver and the
    captcha services. *)
Inductive Call : Type :=
| WritePems | Launch | NewContext | NewPage | Goto | Settle | ReadContent
| ClickAdvanced | ClickProceed | PressKeys | Analyse
| SelectOption | FillUserCode | ReadCompanyCode | ReadCaptcha
| SolveCaptcha | InjectSolution | ShotBeforeSubmit | ClickSubmit | ReadAfterLogin
| ShotFinal | ReadCookies | Sleep (ms : Z)
| CloseContext | CloseBrowser.

(** What the page answers while the login form is filled.  The fixed
    pauses between the steps are taken to complete. *)
Record FormObs : Type := {
  selectOption : option string;
  fillUserCode : option string;
  inputValue : option string;
  (** the .cf-turnstile element and its data-sitekey attribute; on the
      right the rejection of the evaluation *)
  captchaElement : option (option string) + string;
  captcha : Captcha.CaptchaWorld;
  inject : option string;
  shotBeforeSubmit : string + string;
  clickSubmit : option string;
  afterLogin : option string
}.

Record World : Type := {
  isLambda : bool;
  mkdir : option string;              (* existsSync / mkdirSync throw *)
  p12 : P12;
  writePems : option string;          (* writeFileSync throws *)
  launch : option string;             (* executablePath or chromium.launch reject *)
  newContext : option string;
  newPage : option string;
  settle : option string;             (* waitForTimeout(2000) *)
  content : string + string;          (* page.content() *)
  currentUrl : string;
  advancedButton : bool;
  clickAdvanced : option string;
  proceedLink : bool;
  clickProceed : option string;
  pressKeys : option string;
  analyse : PageInfo + string;        (* the evaluation that builds pageInfo *)
  form : FormObs;
  shotFinal : string + string;
  readCookies : list Cookie + string;
  closeContext : option string;
  closeBrowser : option string
}.

(** A flow returns or throws, and leaves the calls it made. *)
Definition Flow (A : Type) : Type := (result A * list Call)%type.

Definition bindFlow {A B : Type} (m : Flow A) (k : A → Flow B) : Flow B :=
  match m with
  | (Ok a, calls) => let '(r, later) := k a in (r, (calls ++ later)%list)
  | (Throw e, calls) => (Throw e, calls)
  end.

Definition pass {A : Type} (a : A) : Flow A := (Ok a, []).

(** A call that completes or rejects with a message. *)
Definition call (c : Call) (step : option string) : Flow unit := (await step, [c]).

(** A call that yields a value or rejects with a message. *)
Definition callFor {A : Type} (c : Call) (answer : A + string) : Flow A :=
  match answer with
  | inl a => (Ok a, [c])
  | inr msg => (Throw (plainError msg), [c])
  end.

(** [try { m } catch { log }]: what [m] did stays done, its error is
    dropped. *)
Definition swallow {A : Type} (m : Flow A) : Flow unit := (Ok tt, snd m).

Definition conversionError (inner : string) : JsError :=
  plainError ("No se pudo convertir P12 a PEM: " +:+ inner).

(** Steps 1 and 2: the P12 file is turned into two PEM files. *)
Definition convertCertificate (w : World) : Flow unit :=
  match mkdir w with
  | Some msg => (Throw (plainError msg), [])
  | None =>
      match p12 w with
      | P12Rejects msg => (Throw (conversionError msg), [])
      | P12NoCertificate =>
          (Throw (conversionError "No se encontró un certificado en el archivo P12"), [])
      | P12NoKey =>
          (Throw (conversionError "No se encontró una llave privada en el archivo P12"), [])
      | P12Pems =>
          match writePems w with
          | Some msg => (Throw (conversionError msg), [WritePems])
          | None => (Ok tt, [WritePems])
          end
      end
  end.

Definition isWarningPage (pageContent currentUrl : string) : bool :=
  includes pageContent "Your connection is not private" ||
  includes pageContent "No es seguro" ||
  includes pageContent "NET::ERR_CERT" ||
  includes pageContent "Advanced" ||
  includes pageContent "Avanzado" ||
  includes currentUrl "chrome-error://".

(** Step 6, inside its [try]: the clicks or key presses that get past the
    warning page. *)
Definition bypassWarning (w : World) : Flow unit :=
  if advancedButton w then
    bindFlow (call ClickAdvanced (clickAdvanced w)) (fun _ =>
    if proceedLink w then call ClickProceed (clickProceed w) else pass tt)
  else call PressKeys (pressKeys w).

(** The captcha part of step 8; the value is [hasCaptcha.exists] and
    [captchaSolved]. *)
Definition solveFormCaptcha (o : FormObs) : Flow (bool * bool) :=
  bindFlow (callFor ReadCaptcha (captchaElement o)) (fun element =>
  let found := bool_decide (is_Some element) in
  let siteKey := default "" (default None element) in
  if found && nonEmpty siteKey then
    if truthyOpt (fst (Captcha.resolveCaptcha (captcha o))) then
      bindFlow (call SolveCaptcha None) (fun _ =>
      bindFlow (call InjectSolution (inject o)) (fun _ =>
      pass (found, true)))
    else
      bindFlow (call SolveCaptcha None) (fun _ => pass (found, false))
  else pass (found, true)).

(** Step 8, inside its [try]: the form is filled and submitted.  Beside
    the flow stands [screenshots.beforeSubmit], set once that screenshot
    is taken and kept whatever happens after it. *)
Definition fillLoginForm (o : FormObs) : Flow unit * option string :=
  let upToCaptcha : Flow (bool * bool) :=
    bindFlow (call SelectOption (selectOption o)) (fun _ =>
    bindFlow (call FillUserCode (fillUserCode o)) (fun _ =>
    bindFlow (call ReadCompanyCode (inputValue o)) (fun _ =>
    solveFormCaptcha o))) in
  match upToCaptcha with
  | (Throw e, calls) => ((Throw e, calls), None)
  | (Ok (found, captchaSolved), calls) =>
      match shotBeforeSubmit o with
      | inr msg => ((Throw (plainError msg), (calls ++ [ShotBeforeSubmit])%list), None)
      | inl shot =>
          (bindFlow ((Ok tt, (calls ++ [ShotBeforeSubmit])%list) : Flow unit) (fun _ =>
           bindFlow (if captchaSolved || negb found
                     then call ClickSubmit (clickSubmit o) else pass tt) (fun _ =>
           call ReadAfterLogin (afterLogin o))),
           Some shot)
      end
  end.

(** The [try] block of [handle] from the launch of the browser on. *)
Definition browse (payload : Payload) (w : World) : Flow HandleResult :=
  bindFlow (call Launch (launch w)) (fun _ =>
  bindFlow (call NewContext (newContext w)) (fun _ =>
  bindFlow (call NewPage (newPage w)) (fun _ =>
  bindFlow (swallow (call Goto None)) (fun _ =>
  bindFlow (call Settle (settle w)) (fun _ =>
  bindFlow (callFor ReadContent (content w)) (fun pageContent =>
  bindFlow (if isWarningPage pageContent (currentUrl w)
            then swallow (bypassWarning w) else pass tt) (fun _ =>
  bindFlow (callFor Analyse (analyse w)) (fun info =>
  let hasLoginForm := hasIdentificationTypeField info && hasUserCodeField info in
  let filled := if hasLoginForm then fillLoginForm (form w) else (pass tt, None) in
  bindFlow (swallow (fst filled)) (fun _ =>
  bindFlow (callFor ShotFinal (shotFinal w)) (fun finalShot =>
  bindFlow (callFor ReadCookies (readCookies w)) (fun cookieList =>
  bindFlow (if default false (headless payload)
            then pass tt else call (Sleep 60000) None) (fun _ =>
  pass {| success := true;
          certificateAccepted := Some hasLoginForm;
          formFilled := Some hasLoginForm;
          pageInfo := Some info;
          screenshots := Some {| beforeSubmit := snd filled; final := Some finalShot |};
          cookies := Some cookieList;
          error := None |})))))))))))).

(** The [try] and [catch] blocks of [handle]: every error becomes a
    failure result. *)
Definition attempt (payload : Payload) (w : World) : HandleResult * list Call :=
  match bindFlow (convertCertificate w) (fun _ => browse payload w) with
  | (Ok r, calls) => (r, calls)
  | (Throw e, calls) =>
      ({| success := false;
          certificateAccepted := None;
          formFilled := None;
          pageInfo := None;
          screenshots := None;
          cookies := None;
          error := Some (message e) |}, calls)
  end.

(** [browser] and [context] are assigned when their calls return. *)
Definition browserObtained (w : World) : bool :=
  match convertCertificate w with
  | (Ok _, _) => bool_decide (launch w = None)
  | _ => false
  end.

Definition contextObtained (w : World) : bool :=
  browserObtained w && bool_decide (newContext w = None).

(** The [finally] block: the two closings are not guarded, so a rejection
    of the first leaves the second undone and replaces the outcome. *)
Definition release (w : World) : Flow unit :=
  bindFlow (if contextObtained w then call CloseContext (closeContext w) else pass tt)
    (fun _ =>
  if browserObtained w then call CloseBrowser (closeBrowser w) else pass tt).

Definition handle (payload : Payload) (w : World) : Flow HandleResult :=
  let '(r, calls) := attempt payload w in
  match release w with
  | (Ok _, closing) => (Ok r, (calls ++ closing)%list)
  | (Throw e, closing) => (Throw e, (calls ++ closing)%list)
  end.

(** The lambda handler (lambdas/get-dian-cookie-by-certificate.ts). *)
Definition handler (event : Payload) (w : World) : Response * list Call :=
  match handle event w with
  | (Ok r, calls) => ({| statusCode := 200; body := r |}, calls)
  | (Throw e, calls) =>
      ({| statusCode := 500;
          body := {| success := false;
                     certificateAccepted := None;
                     formFilled := None;
                     pageInfo := None;
                     screenshots := None;
                     cookies := None;
                     error := Some (message e) |} |}, calls)
  end.

End DianAuth.


(** ** The in-page reads of the poller (generate-dian-token-email.ts) *)
Module DianInPage.
Import Dian.

(** The function evaluated in the page by [getModalState]:
    [window.__dianModalState ?? null]. *)
Definition getModalState (t : Tab) : option ModalGuardState :=
  id ← dianModalState t; heap t !! id.

(** The function evaluated in the page by [consumeStoredModalError]: the
    value stored under [__dianModalError], which is removed when it is
    truthy. *)
Definition consumeStoredModalError (t : Tab) : option string * Tab :=
  let value := sessionError t in
  (value,
   if truthyOpt value then
     {| loading := loading t;
        document := document t;
        sessionError := None;
        heap := heap t;
        dianModalState := dianModalState t;
        pendingSetups := pendingSetups t;
        observers := observers t;
        wrappers := wrappers t;
        navigations := navigations t |}
   else t).

End DianInPage.

(** ** Further notions used in the statements *)

(** *** The registry search, one record type at a time *)
Module RuesMoreNotions.
Import Rues RuesNotions.

(** The record type was searched to the end without a record: no step
    threw, and either the API did not respond or it reported no result. *)
Definition searchedWithoutRecord (o : SearchObs) : Prop :=
  selectRecordType o = Ok tt ∧
  (enterIdentificationAndSubmit o = Ok false ∨
   (enterIdentificationAndSubmit o = Ok true ∧ verifyResults o = false)).

Definition respondedb (o : SearchObs) : bool :=
  match enterIdentificationAndSubmit o with
  | Ok true => true
  | _ => false
  end.

(** The search under this record type ends in the error [e]: a step of
    the form throws it, or the extraction of the found record does. *)
Definition failsWith (normalizeKey : string → string) (o : SearchObs) (e : JsError) : Prop :=
  selectRecordType o = Throw e ∨
  (selectRecordType o = Ok tt ∧ enterIdentificationAndSubmit o = Throw e) ∨
  (selectRecordType o = Ok tt ∧ enterIdentificationAndSubmit o = Ok true ∧
   verifyResults o = true ∧ extractInformation normalizeKey o = Throw e).

(** The driver rejects the selection of the record type. *)
Definition selectFails (msg : string) : SearchObs :=
  {| waitTypeSelector := Some msg;
     typeSelectorCount := 0;
     selectOption := None;
     waitIdInput := None;
     buttonDisplays := [];
     spinnerClears := false;
     alertas := None;
     cards := [];
     waitResults := None;
     clickTimeout := "locator.click: Timeout 120000ms exceeded.";
     detail := noDetail |}.

(** RM does not respond, ESAL cannot be selected, ESOL would find. *)
Definition brokenESAL (c : RecordType) : SearchObs :=
  match c with
  | RM => stuck
  | ESAL => selectFails "page.waitForSelector: Timeout 120000ms exceeded."
  | ESOL => found
  end.

(** RM does not respond, the two others answer "no results". *)
Definition scenarioB (c : RecordType) : SearchObs :=
  match c with RM => stuck | _ => noResults end.

(** Found under RM; the later record types cannot even be selected. *)
Definition foundFirst (c : RecordType) : SearchObs :=
  match c with RM => found | _ => selectFails "never asked" end.

(** The record a page yields, and the record a search returns; empty when
    there is none. *)
Definition shownRecord (o : SearchObs) : gmap string RuesValue :=
  match extractInformation (fun key => key) o with
  | Ok r => r
  | Throw _ => ∅
  end.

Definition searchedRecord (w : RecordType → SearchObs) (identification : string)
    : gmap string RuesValue :=
  match searchByIdentification (fun key => key) w identification with
  | Ok r => r
  | Throw _ => ∅
  end.

(** The keys written by [extractDetailedInfo]. *)
Definition detailKeys : list string :=
  ["informacion_general"; "actividad_economica"; "representante_legal"].

(** The key under which a [.registroapi] row is stored, when it has both
    a label and a value. *)
Definition registroKey (normalizeKey : string → string) (r : Registro) : option string :=
  fst <$> registroEntry normalizeKey r.

(** The tries of the economic tab before try [k] show nothing. *)
Definition emptyBefore (tab : nat → option (list Registro)) (from k : nat) : Prop :=
  ∀ j, from ≤ j < k → tab j = None ∨ tab j = Some [].

(** The economic tab renders at the third try, with one row that has no
    code. *)
Definition lateTab (attempt : nat) : option (list Registro) :=
  match attempt with
  | 1 => None
  | 2 => Some []
  | _ => Some [ {| etiqueta := Some " 6201 "; valor := Some "Desarrollo de software" |};
                {| etiqueta := Some "  "; valor := Some "sin codigo" |};
                {| etiqueta := None; valor := Some "sin etiqueta" |} ]
  end.

(** A valid payload and a site that does not load. *)
Definition gotoFails : RuesPayload * World :=
  ({| identificationNumber := Some "900123456"; headless := None |},
   {| launch := None; newContext := None; newPage := None;
      goto := Some "page.goto: net::ERR_TIMED_OUT"; search := scenarioA |}).

End RuesMoreNotions.


(** *** Iterations of the poller without a deciding signal *)
Module PollerMoreNotions.
Import Dian PollerNotions.


(** The messages with which the poller can fail on the ticks [ticks]. *)
Definition failureMessage (ticks : list TickObs) (msg : string) : Prop :=
  (∃ o, o ∈ ticks ∧ (stored o = Some msg ∨ guardError o = Some msg ∨
                     readModalError (modalProbe o) = Some msg ∨
                     waitForTimeout o = Some msg)) ∨
  msg = reloadedMessage ∨ msg = closedMessage ∨ msg = timeoutMessage.



End PollerMoreNotions.


(** *** Courses of a page within one document *)
Module GuardMoreNotions.
Import Dian GuardNotions.

(** The event keeps the document: it is not a navigation that commits. *)
Definition sameDocument (e : PageEvent) : bool :=
  match e with NewDocument _ => false | _ => true end.

Definition viewRun (v : View) (events : list PageEvent) : View :=
  fold_left viewStep events v.

Definition viewStored (v : View) : option string :=
  match v with
  | Waiting _ stored _ => stored
  | Guarding _ _ stored _ => stored
  end.

(** From one guarded view to a later one nothing is lost: the error
    stays set, the log of blocked navigations, the navigations carried
    out and the persisted error only grow. *)
Definition grows (v v' : View) : Prop :=
  match v, v' with
  | Guarding st _ stored navs, Guarding st' _ stored' navs' =>
      (is_Some (lastError st) → is_Some (lastError st')) ∧
      blockedRedirects st `prefix_of` blockedRedirects st' ∧
      navs `prefix_of` navs' ∧
      (is_Some stored → is_Some stored')
  | _, _ => False
  end.

(** The modal is shown, the page tries to leave, then the modal is
    hidden again and the page leaves. *)
Definition flicker : list PageEvent :=
  [ Mutation shownModal;
    Navigate Replace ["/User/Login"] 1730000000700;
    Mutation hiddenModal;
    Navigate Assign ["/User/Login"] 1730000000900 ].

(** A page that holds the script, with an error persisted before it
    reloads. *)
Definition pageWithStoredError : Page :=
  {| initScripts := 1;
     tab := {| loading := false;
               document := shownModal;
               sessionError := Some "Error - Usuario no autorizado";
               heap := [];
               dianModalState := None;
               pendingSetups := 0;
               observers := [];
               wrappers := fun _ => [];
               navigations := [(Reload, [])] |} |}.

End GuardMoreNotions.

(** *** The proxy cursor *)
Module ProxiesNotions.
Import Proxies.

(** The string holds no separator. *)
Fixpoint sepFree (sep : ascii) (s : string) : bool :=
  match s with
  | EmptyString => true
  | String c s' => negb (Ascii.eqb c sep) && sepFree sep s'
  end.

(** The module variable [proxyIndex] after [k] calls of [getNextProxy]. *)
Definition cursorAfter (proxies : list string) (k : nat) (proxyIndex : nat) : nat :=
  Nat.iter k (fun cursor => snd (getNextProxyFrom proxies cursor)) proxyIndex.

(** The proxy handed out by call number [k], counted from 0. *)
Definition served (proxies : list string) (k : nat) (proxyIndex : nat)
    : option ProxyConfig :=
  fst (getNextProxyFrom proxies (cursorAfter proxies k proxyIndex)).

End ProxiesNotions.

(** *** Answers of the token-by-email handler *)
Module DianHandlerMoreNotions.
Import Dian DianHandlerNotions.

(** Everything works up to the captcha, for which no provider has an
    answer. *)
Definition noTokenWorld : World :=
  {| isLambda := true;
     launch := None; newContext := None; newPage := None;
     addInitScript := None; goto := None;
     login :=
       {| waitLegalRepresentative := None;
          clickLegalRepresentative := Some "locator.click: Timeout 10000ms exceeded.";
          forceClickLegalRepresentative := None;
          waitForm := None;
          fillForm := None;
          waitCaptcha := None;
          siteKey := Some "0x4AAAAAAA";
          captcha := CaptchaNotions.failingPollWorld;
          waitCaptchaInput := None;
          clickSubmit := None;
          forceClickSubmit := None |};
     ticks := [];
     screenshotData := Some "iVBORw0KGgo=" |}.

Definition fullPayload : DianTokenEmailPayload :=
  {| identificationType := Some "10910094";
     userCode := Some "1010168874";
     companyCode := Some "901827899";
     origin := None;
     headless := Some true |}.

End DianHandlerMoreNotions.

(** *** Results and pages of the certificate flow *)
Module DianAuthNotions.
Import JS DianAuth.

(** The result of the [catch] block. *)
Definition failed (msg : string) : HandleResult :=
  {| success := false;
     certificateAccepted := None;
     formFilled := None;
     pageInfo := None;
     screenshots := None;
     cookies := None;
     error := Some msg |}.

(** The calls [browse] makes outside the two guarded blocks. *)
Definition plainCalls : list Call :=
  [Launch; NewContext; NewPage; Goto; Settle; ReadContent; Analyse;
   ShotFinal; ReadCookies; Sleep 60000].

Definition hasLoginForm (info : PageInfo) : bool :=
  hasIdentificationTypeField info && hasUserCodeField info.

Definition loginPage : PageInfo :=
  {| title := "DIAN";
     url := "https://certificate-vpfe.dian.gov.co/User/CertificateLogin";
     bodyText := "Entrar";
     formElements := 1;
     hasTurnstile := true;
     hasIdentificationTypeField := true;
     hasUserCodeField := true;
     hasCompanyCodeField := true |}.

Definition somePayload : Payload :=
  {| base64CertificateP12 := "MIIKYQIBAzCC";
     certificatePassword := "secret";
     identificationType := "10910094";
     nitRepresentanteLegal := "1010168874";
     headless := None |}.

(** A form whose captcha is solved by the second provider. *)
Definition solvedForm : FormObs :=
  {| selectOption := None;
     fillUserCode := None;
     inputValue := None;
     captchaElement := inl (Some (Some "0x4AAAAAAA"));
     captcha := CaptchaNotions.secondPollWorld;
     inject := None;
     shotBeforeSubmit := inl "iVBORw0KGgo=";
     clickSubmit := None;
     afterLogin := None |}.

(** Everything answers. *)
Definition workingWorld : World :=
  {| isLambda := true;
     mkdir := None;
     p12 := P12Pems;
     writePems := None;
     launch := None;
     newContext := None;
     newPage := None;
     settle := None;
     content := inl "<html><body>Entrar</body></html>";
     currentUrl := "https://certificate-vpfe.dian.gov.co/User/CertificateLogin";
     advancedButton := false;
     clickAdvanced := None;
     proceedLink := false;
     clickProceed := None;
     pressKeys := None;
     analyse := inl loginPage;
     form := solvedForm;
     shotFinal := inl "iVBORw0KGgo=";
     readCookies := inl [{| name := ".AspNet.ApplicationCookie"; value := "x";
                            domain := "certificate-vpfe.dian.gov.co"; path := "/" |}];
     closeContext := None;
     closeBrowser := None |}.

Definition withP12 (answer : P12) (w : World) : World :=
  {| isLambda := isLambda w; mkdir := mkdir w; p12 := answer;
     writePems := writePems w; launch := launch w; newContext := newContext w;
     newPage := newPage w; settle := settle w; content := content w;
     currentUrl := currentUrl w; advancedButton := advancedButton w;
     clickAdvanced := clickAdvanced w; proceedLink := proceedLink w;
     clickProceed := clickProceed w; pressKeys := pressKeys w;
     analyse := analyse w; form := form w; shotFinal := shotFinal w;
     readCookies := readCookies w; closeContext := closeContext w;
     closeBrowser := closeBrowser w |}.

Definition withCloseContext (answer : option string) (w : World) : World :=
  {| isLambda := isLambda w; mkdir := mkdir w; p12 := p12 w;
     writePems := writePems w; launch := launch w; newContext := newContext w;
     newPage := newPage w; settle := settle w; content := content w;
     currentUrl := currentUrl w; advancedButton := advancedButton w;
     clickAdvanced := clickAdvanced w; proceedLink := proceedLink w;
     clickProceed := clickProceed w; pressKeys := pressKeys w;
     analyse := analyse w; form := form w; shotFinal := shotFinal w;
     readCookies := readCookies w; closeContext := answer;
     closeBrowser := closeBrowser w |}.

Definition withForm (answer : FormObs) (w : World) : World :=
  {| isLambda := isLambda w; mkdir := mkdir w; p12 := p12 w;
     writePems := writePems w; launch := launch w; newContext := newContext w;
     newPage := newPage w; settle := settle w; content := content w;
     currentUrl := currentUrl w; advancedButton := advancedButton w;
     clickAdvanced := clickAdvanced w; proceedLink := proceedLink w;
     clickProceed := clickProceed w; pressKeys := pressKeys w;
     analyse := analyse w; form := answer; shotFinal := shotFinal w;
     readCookies := readCookies w; closeContext := closeContext w;
     closeBrowser := closeBrowser w |}.

(** The identification type is not among the options of the select. *)
Definition rejectedForm : FormObs :=
  {| selectOption := Some "page.selectOption: Timeout 30000ms exceeded.";
     fillUserCode := None;
     inputValue := None;
     captchaElement := inl None;
     captcha := CaptchaNotions.secondPollWorld;
     inject := None;
     shotBeforeSubmit := inl "iVBORw0KGgo=";
     clickSubmit := None;
     afterLogin := None |}.

End DianAuthNotions.

(** *** Case analyses along the flows *)
Module DianHandlerTactics.
Import JS Dian.

(** One case for each place where [handle] can stop. *)
Ltac handle_cases payload w :=
  unfold handle, validatePayload, pageFlow, failure;
  destruct (missingFields payload) as [|field fields] eqn:Hm;
  cbn [length Nat.ltb Nat.leb];
  [destruct (launch w) as [?|] eqn:Hlaunch;
   [|destruct (newContext w) as [?|] eqn:Hcontext;
     [|destruct (newPage w) as [?|] eqn:Hpage;
       [|destruct (addInitScript w) as [?|] eqn:Hinit;
         [|destruct (goto w) as [?|] eqn:Hgoto;
           [|destruct (interactWithLoginForm (login w)) as [[]|?] eqn:Hlogin;
             [destruct (waitForResultMessage (ticks w)) as [?|?] eqn:Hwait|]]]]]]|];
  destruct (isLambda w) eqn:Hlambda;
  cbn [fst snd negb andb app
       res_success res_message res_error res_origin res_screenshot].

(** Membership of a call in an explicit list of calls. *)
Ltac membership :=
  intros;
  repeat match goal with
  | H : _ ∧ _ |- _ => destruct H
  | H : _ ∈ _ |- _ =>
      first [ by apply elem_of_nil in H
            | apply elem_of_cons in H as [H|H]; [discriminate H|]
            | clear H ]
  end;
  repeat split; try done; try congruence; try (by repeat constructor).

End DianHandlerTactics.

Module DianAuthTactics.
Import JS DianAuth.

(** One case for each place where [browse] can stop. *)
Ltac browse_cases payload w :=
  unfold browse;
  destruct (launch w) as [?|] eqn:Hlaunch; cbn -[isWarningPage];
  [|destruct (newContext w) as [?|] eqn:Hcontext; cbn -[isWarningPage];
    [|destruct (newPage w) as [?|] eqn:Hpage; cbn -[isWarningPage];
      [|destruct (settle w) as [?|] eqn:Hsettle; cbn -[isWarningPage];
        [|destruct (content w) as [pageContent|?] eqn:Hcontent; cbn -[isWarningPage];
          [destruct (isWarningPage pageContent (currentUrl w)) eqn:Hwarning;
           cbn -[isWarningPage];
           (destruct (analyse w) as [info|?] eqn:Hanalyse; cbn -[isWarningPage];
            [destruct (shotFinal w) as [finalShot|?] eqn:Hfinal; cbn -[isWarningPage];
             [destruct (readCookies w) as [cookieList|?] eqn:Hcookies;
              cbn -[isWarningPage];
              [destruct (default false (headless payload)) eqn:Hheadless;
               cbn -[isWarningPage]|]|]|])|]]]]].

Ltac split_calls H :=
  repeat first [rewrite elem_of_cons in H | rewrite elem_of_app in H
               | rewrite elem_of_nil in H];
  destruct_or! H;
  try done; try discriminate H.

Ltac form_step := cbn -[Captcha.resolveCaptcha truthyOpt nonEmpty].

Ltac form_end o :=
  destruct (afterLogin o) as [?|] eqn:Hafter; form_step.

Ltac form_tail o click :=
  change (nonEmpty "") with false; form_step;
  destruct (shotBeforeSubmit o) as [shot|?] eqn:Hshot; form_step;
  [lazymatch click with
   | true => destruct (clickSubmit o) as [?|] eqn:Hclick; form_step; [|form_end o]
   | false => form_end o
   end|].

(** One case for each place where [fillLoginForm] can stop. *)
Ltac form_cases o :=
  unfold fillLoginForm, solveFormCaptcha;
  destruct (selectOption o) as [?|] eqn:Hselect; form_step;
  [|destruct (fillUserCode o) as [?|] eqn:Hfill; form_step;
    [|destruct (inputValue o) as [?|] eqn:Hinput; form_step;
      [|destruct (captchaElement o) as [[[key|]|]|?] eqn:Helement; form_step;
        [destruct (nonEmpty key) eqn:Hkey;
         [destruct (truthyOpt (fst (Captcha.resolveCaptcha (captcha o)))) eqn:Htoken;
          [destruct (inject o) as [?|] eqn:Hinject; form_step; [|form_tail o true]
          |form_tail o false]
         |form_tail o true]
        |form_tail o true|form_tail o true|] ] ] ].

Ltac find_call :=
  repeat first [apply list_elem_of_here | apply list_elem_of_further
               | (apply elem_of_app; right)].

End DianAuthTactics.

(** * Part II: properties *)

(** ** Card selection *)
Module CardFacts.
Import Rues.
Import CardNotions.

Lemma firstActiva_Some (cards : list Card) : ∀ i k,
  firstActiva i cards = Some k →
  ∃ j c, k = i + j ∧ cards !! j = Some c ∧ hasActiva c = true ∧
         ∀ j' c', j' < j → cards !! j' = Some c' → hasActiva c' = false.
Proof.
  induction cards as [|card rest IH]; intros i k H; simpl in H; [discriminate|].
  destruct (hasActiva card) eqn:Hact.
  - injection H as <-. exists 0, card. split_and!; [lia|done|done|].
    intros j' c' Hlt. lia.
  - destruct (IH _ _ H) as (j & c & -> & Hj & Hc & Hbefore).
    exists (S j), c. split_and!; [lia|done|done|].
    intros [|j'] c' Hlt Hlook; simpl in Hlook.
    + by injection Hlook as <-.
    + apply (Hbefore j'); [lia|done].
Qed.

Lemma firstActiva_None (cards : list Card) : ∀ i,
  firstActiva i cards = None ↔ ∀ c, c ∈ cards → hasActiva c = false.
Proof.
  induction cards as [|card rest IH]; intros i; simpl.
  - split; [|done]. intros _ c Hc. by apply elem_of_nil in Hc.
  - destruct (hasActiva card) eqn:Hact.
    + split; [done|]. intros H. rewrite H in Hact; [done|]. apply list_elem_of_here.
    + rewrite IH. split.
      * intros H c Hc. apply elem_of_cons in Hc as [->|Hc]; [done|by apply H].
      * intros H c Hc. apply H. by apply list_elem_of_further.
Qed.

Lemma firstActiva_first (cards : list Card) : ∀ i j c,
  cards !! j = Some c → hasActiva c = true →
  (∀ j' c', j' < j → cards !! j' = Some c' → hasActiva c' = false) →
  firstActiva i cards = Some (i + j).
Proof.
  induction cards as [|card rest IH]; intros i j c Hj Hc Hbefore; [done|].
  simpl. destruct j as [|j]; simpl in Hj.
  - injection Hj as ->. rewrite Hc. f_equal. lia.
  - rewrite (Hbefore 0 card); [|lia|done].
    rewrite (IH (S i) j c Hj Hc); [f_equal; lia|].
    intros j' c' Hlt Hlook. apply (Hbefore (S j')); [lia|done].
Qed.

Lemma getCardStatusActive_found (cards : list Card) i :
  firstActiva 0 cards = Some i → getCardStatusActive cards = Ok i.
Proof.
  intros H. unfold getCardStatusActive, cardIndexEval. rewrite H.
  destruct (Z.ltb_spec (Z.of_nat i) 0); [lia|]. by rewrite Nat2Z.id.
Qed.

Lemma getCardStatusActive_last (cards : list Card) :
  cards ≠ [] → firstActiva 0 cards = None →
  getCardStatusActive cards = Ok (length cards - 1).
Proof.
  intros Hne H. unfold getCardStatusActive, cardIndexEval. rewrite H.
  destruct cards as [|c rest]; [done|]. simpl length.
  destruct (Nat.ltb_spec 0 (S (length rest))); [|lia].
  destruct (Z.ltb_spec (Z.of_nat (S (length rest)) - 1) 0); [lia|].
  f_equal. lia.
Qed.

Lemma getCardStatusActive_empty :
  getCardStatusActive [] = Throw (plainError "Card no encontrada").
Proof. reflexivity. Qed.

Lemma getCardStatusActive_in_range (cards : list Card) :
  cards ≠ [] → ∃ i, getCardStatusActive cards = Ok i ∧ i < length cards.
Proof.
  intros Hne. destruct (firstActiva 0 cards) as [i|] eqn:H.
  - exists i. split; [by apply getCardStatusActive_found|].
    destruct (firstActiva_Some _ _ _ H) as (j & c & -> & Hj & _).
    apply lookup_lt_Some in Hj. lia.
  - exists (length cards - 1). split; [by apply getCardStatusActive_last|].
    destruct cards; [done|]. simpl. lia.
Qed.

Lemma last_lookup_length (cards : list Card) :
  cards !! (length cards - 1) = last cards.
Proof.
  rewrite last_lookup. f_equal. lia.
Qed.

(** C7: with at least one result card, the card selected for detail
    extraction is the first one holding a span whose (trimmed) text is
    exactly "Activa"; when no card holds such a span it is the last card;
    "Card no encontrada" is raised only when there is no result card. *)
Theorem C7_selected_card (cards : list Card) :
  (∀ e, getCardStatusActive cards = Throw e → cards = []) ∧
  (cards ≠ [] →
   (∀ i c, cards !! i = Some c → hasActiva c = true →
           (∀ j c', j < i → cards !! j = Some c' → hasActiva c' = false) →
           getCardStatusActive cards = Ok i ∧ selectedCard cards = Ok (Some c)) ∧
   ((∀ c, c ∈ cards → hasActiva c = false) →
    getCardStatusActive cards = Ok (length cards - 1) ∧
    selectedCard cards = Ok (last cards))).
Proof.
  split.
  - intros e He. destruct cards as [|c rest]; [done|].
    destruct (getCardStatusActive_in_range (c :: rest)) as (i & Hi & _); [done|].
    congruence.
  - intros Hne. split.
    + intros i c Hi Hc Hbefore.
      pose proof (firstActiva_first cards 0 i c Hi Hc Hbefore) as Hfirst.
      simpl in Hfirst. apply getCardStatusActive_found in Hfirst.
      split; [done|]. unfold selectedCard. rewrite Hfirst. simpl. by rewrite Hi.
    + intros Hnone. apply (firstActiva_None cards 0) in Hnone.
      pose proof (getCardStatusActive_last cards Hne Hnone) as Hlast.
      split; [done|]. unfold selectedCard. rewrite Hlast. simpl.
      by rewrite last_lookup_length.
Qed.

Lemma C7_selected_card_witness :
  getCardStatusActive
    [cardWith ["Cancelada"]; cardWith ["NIT"; " Activa "]; cardWith ["Activa"]] = Ok 1
  ∧ getCardStatusActive [cardWith ["Cancelada"]; cardWith ["Inactiva"]] = Ok 1.
Proof.
  split.
  - destruct (C7_selected_card
      [cardWith ["Cancelada"]; cardWith ["NIT"; " Activa "]; cardWith ["Activa"]])
      as [_ H].
    destruct (H ltac:(done)) as [Hfirst _].
    apply (Hfirst 1 (cardWith ["NIT"; " Activa "]) eq_refl eq_refl).
    intros [|j] c' Hlt Hlook; [|lia]. by injection Hlook as <-.
  - destruct (C7_selected_card [cardWith ["Cancelada"]; cardWith ["Inactiva"]])
      as [_ H].
    destruct (H ltac:(done)) as [_ Hlast].
    apply Hlast.
    intros c Hc. repeat (apply elem_of_cons in Hc as [->|Hc]; [reflexivity|]).
    by apply elem_of_nil in Hc.
Defined.

(** C10: with at least one result card, [getCardStatusActive] returns an
    index inside the card list, so the card selections by that index (in
    [extractBasicInfo] and in [extractInformation]) find a card; its error
    branch is taken exactly when there is no result card. *)
Theorem C10_index_in_range (normalizeKey : string → string) (cards : list Card) :
  (cards ≠ [] →
   ∃ i c, getCardStatusActive cards = Ok i ∧ (0 ≤ i < length cards) ∧
          cards !! i = Some c ∧ selectedCard cards = Ok (Some c) ∧
          ∃ info, extractBasicInfo normalizeKey cards = Ok info) ∧
  (∀ e, getCardStatusActive cards = Throw e ↔
        cards = [] ∧ e = plainError "Card no encontrada").
Proof.
  split.
  - intros Hne. destruct (getCardStatusActive_in_range cards Hne) as (i & Hi & Hlt).
    destruct (lookup_lt_is_Some_2 cards i Hlt) as [c Hc].
    exists i, c. split_and!; [done|lia|done|done| |].
    + unfold selectedCard. rewrite Hi. simpl. by rewrite Hc.
    + unfold extractBasicInfo. rewrite Hi. simpl.
      destruct cards as [|c0 rest]; [done|]. rewrite Hc. eauto.
  - intros e. split.
    + intros He. destruct cards as [|c rest].
      * split; [done|]. rewrite getCardStatusActive_empty in He. congruence.
      * destruct (getCardStatusActive_in_range (c :: rest)) as (i & Hi & _); [done|].
        congruence.
    + intros [-> ->]. reflexivity.
Qed.

Lemma C10_index_in_range_witness :
  ∃ i c, getCardStatusActive [cardWith ["X"]; cardWith ["Y"]] = Ok i ∧
         (0 ≤ i < 2) ∧ [cardWith ["X"]; cardWith ["Y"]] !! i = Some c.
Proof.
  destruct (proj1 (C10_index_in_range (fun s => s) [cardWith ["X"]; cardWith ["Y"]])
              ltac:(done)) as (i & c & Hi & Hr & Hc & _).
  exists i, c. split_and!; [exact Hi|apply Hr|apply Hr|exact Hc].
Defined.

End CardFacts.

(** ** The 2Captcha polling loop *)
Module CaptchaFacts.
Import Captcha.
Import CaptchaNotions.

Lemma pollLoop_pending (polls : nat → PollReply) : ∀ k remaining,
  k ≤ remaining → remaining ≤ maxAttempts →
  (∀ j, j < k → polls (maxAttempts - remaining + j) = PollPending) →
  pollLoop remaining polls =
    (fst (pollLoop (remaining - k) polls),
     pendingCalls (maxAttempts - remaining) k ++ snd (pollLoop (remaining - k) polls)).
Proof.
  induction k as [|k IH]; intros remaining Hk Hmax Hpending.
  - rewrite Nat.sub_0_r. simpl. by destruct (pollLoop remaining polls).
  - destruct remaining as [|remaining']; [lia|].
    change (pollLoop (S remaining') polls) with
      (match polls (maxAttempts - S remaining') with
       | PollReady request => (Some request, [CallPoll (maxAttempts - S remaining')])
       | PollPending =>
           let '(solution, calls) := pollLoop remaining' polls in
           (solution, CallPoll (maxAttempts - S remaining') :: CallSleep pollDelay :: calls)
       | PollRejects _ => (None, [CallPoll (maxAttempts - S remaining')])
       end).
    pose proof (Hpending 0 ltac:(lia)) as H0. rewrite Nat.add_0_r in H0. rewrite H0.
    rewrite (IH remaining'); [|lia|lia|].
    + replace (S remaining' - S k) with (remaining' - k) by lia.
      unfold pendingCalls. simpl. unfold maxAttempts in *.
      replace (S (14 - remaining')) with (15 - remaining') by lia.
      done.
    + intros j Hj. rewrite <- (Hpending (S j)); [f_equal; lia|lia].
Qed.

Lemma pollLoop_head (polls : nat → PollReply) (remaining : nat) :
  0 < remaining →
  pollLoop remaining polls =
    match polls (maxAttempts - remaining) with
    | PollReady request => (Some request, [CallPoll (maxAttempts - remaining)])
    | PollPending =>
        (fst (pollLoop (remaining - 1) polls),
         CallPoll (maxAttempts - remaining) :: CallSleep pollDelay ::
           snd (pollLoop (remaining - 1) polls))
    | PollRejects _ => (None, [CallPoll (maxAttempts - remaining)])
    end.
Proof.
  destruct remaining as [|r]; [lia|]. intros _.
  replace (S r - 1) with r by lia.
  change (pollLoop (S r) polls) with
    (match polls (maxAttempts - S r) with
     | PollReady request => (Some request, [CallPoll (maxAttempts - S r)])
     | PollPending =>
         let '(solution, calls) := pollLoop r polls in
         (solution, CallPoll (maxAttempts - S r) :: CallSleep pollDelay :: calls)
     | PollRejects _ => (None, [CallPoll (maxAttempts - S r)])
     end).
  destruct (polls (maxAttempts - S r)); try done. by destruct (pollLoop r polls).
Qed.

Lemma pendingCalls_count (from n : nat) :
  pollCount (pendingCalls from n) = n ∧
  sleptTotal (pendingCalls from n) = (Z.of_nat n * pollDelay)%Z.
Proof.
  revert from. induction n as [|n IH]; intros from; [done|].
  destruct (IH (S from)) as [Hc Hs]. unfold pendingCalls in *. simpl seq. simpl flat_map.
  split.
  - unfold pollCount in *. simpl. by rewrite Hc.
  - unfold sleptTotal in *. simpl fold_right. rewrite Hs. lia.
Qed.

(** C2, as the code has it: once the job identifier is received, the
    status endpoint is polled at most 15 times, with a pause of 7000 ms
    after every poll answered "not ready".  Polling ends at the first poll
    that is not answered "not ready": a completed job returns its
    solution, a poll request that throws returns absent at once, without
    further polls.  Fifteen "not ready" answers (105000 ms of pauses) also
    return absent. *)
Theorem C2_polling (w : CaptchaWorld) (captchaId : string) :
  submit w = SubmitData true captchaId →
  (∀ k, k < maxAttempts → (∀ j, j < k → polls w j = PollPending) →
     (∀ request, polls w k = PollReady request →
        solveCaptcha2Captcha w =
          (Some request, CallSubmit :: pendingCalls 0 k ++ [CallPoll k])) ∧
     (∀ msg, polls w k = PollRejects msg →
        solveCaptcha2Captcha w =
          (None, CallSubmit :: pendingCalls 0 k ++ [CallPoll k]))) ∧
  ((∀ j, j < maxAttempts → polls w j = PollPending) →
     solveCaptcha2Captcha w = (None, CallSubmit :: pendingCalls 0 maxAttempts) ∧
     sleptTotal (snd (solveCaptcha2Captcha w)) = 105000%Z) ∧
  pollCount (snd (solveCaptcha2Captcha w)) ≤ maxAttempts.
Proof.
  intros Hsubmit. unfold solveCaptcha2Captcha. rewrite Hsubmit.
  assert (Hprefix : ∀ k, k ≤ maxAttempts → (∀ j, j < k → polls w j = PollPending) →
            pollLoop maxAttempts (polls w) =
              (fst (pollLoop (maxAttempts - k) (polls w)),
               pendingCalls 0 k ++ snd (pollLoop (maxAttempts - k) (polls w)))).
  { intros k Hk Hpending.
    rewrite (pollLoop_pending (polls w) k maxAttempts Hk); [|lia|].
    - by rewrite Nat.sub_diag.
    - intros j Hj. rewrite Nat.sub_diag. by apply Hpending. }
  split_and!.
  - intros k Hk Hpending. rewrite (Hprefix k); [|lia|done].
    rewrite (pollLoop_head (polls w) (maxAttempts - k)); [|lia].
    replace (maxAttempts - (maxAttempts - k)) with k by lia.
    split; intros x Hx; by rewrite Hx.
  - intros Hpending. rewrite (Hprefix maxAttempts); [|lia|done].
    rewrite Nat.sub_diag. simpl pollLoop. simpl fst. simpl snd.
    rewrite app_nil_r. split; [done|]. reflexivity.
  - assert (Hbound : ∀ remaining, remaining ≤ maxAttempts →
              pollCount (snd (pollLoop remaining (polls w))) ≤ remaining).
    { induction remaining as [|r IH]; intros Hr; [unfold pollCount; simpl; lia|].
      rewrite (pollLoop_head (polls w) (S r)); [|lia].
      replace (S r - 1) with r by lia.
      specialize (IH ltac:(lia)).
      destruct (polls w (maxAttempts - S r)); unfold pollCount in *; simpl in *; lia. }
    destruct (pollLoop maxAttempts (polls w)) as [solution calls] eqn:Hloop.
    specialize (Hbound maxAttempts ltac:(lia)). rewrite Hloop in Hbound.
    unfold pollCount in *. simpl in *. lia.
Qed.

Lemma C2_polling_witness :
  solveCaptcha2Captcha secondPollWorld =
    (Some "token", [CallSubmit; CallPoll 0; CallSleep 7000; CallPoll 1]).
Proof.
  destruct (C2_polling secondPollWorld "7429" eq_refl) as (Hfirst & _ & _).
  destruct (Hfirst 1) as [Hready _].
  - unfold maxAttempts. lia.
  - intros [|j] Hj; [reflexivity|lia].
  - exact (Hready "token" eq_refl).
Defined.

(** C2 fails as stated: a poll request that throws is not treated as
    "not yet ready".  Here the first poll throws and the second would
    report the solution; the solver returns absent after that single
    poll, with fourteen attempts left. *)
Lemma C2_counterexample :
  submit failingPollWorld = SubmitData true "7429" ∧
  polls failingPollWorld 0 = PollRejects "socket hang up" ∧
  polls failingPollWorld 1 = PollReady "token" ∧
  solveCaptcha2Captcha failingPollWorld = (None, [CallSubmit; CallPoll 0]) ∧
  pollCount (snd (solveCaptcha2Captcha failingPollWorld)) = 1.
Proof. split_and!; reflexivity. Qed.

End CaptchaFacts.

(** ** Validation and the handler of the token-by-email flow *)
Module DianHandlerFacts.
Import Dian.
Import DianHandlerNotions.

Lemma validatePayload_missing (payload : DianTokenEmailPayload) :
  missingFields payload ≠ [] →
  validatePayload payload = Throw (plainError (missingMessage payload)).
Proof.
  intros Hne. unfold validatePayload, missingMessage.
  by destruct (missingFields payload).
Qed.

Lemma missingFields_spec (payload : DianTokenEmailPayload) :
  ("identificationType" ∈ missingFields payload ↔
     truthyOpt (identificationType payload) = false) ∧
  ("userCode" ∈ missingFields payload ↔ truthyOpt (userCode payload) = false) ∧
  ("companyCode" ∈ missingFields payload ↔ truthyOpt (companyCode payload) = false).
Proof.
  unfold missingFields.
  destruct (truthyOpt (identificationType payload)),
           (truthyOpt (userCode payload)),
           (truthyOpt (companyCode payload)); simpl;
    split_and!; split; intros H; try done;
    try (repeat (apply elem_of_cons in H as [H|H]; [discriminate H|]);
         by apply elem_of_nil in H);
    by (repeat first [apply list_elem_of_here | apply list_elem_of_further]).
Qed.

Lemma missing_names_in_message (payload : DianTokenEmailPayload) (name : string) :
  name ∈ missingFields payload → includes (missingMessage payload) name = true.
Proof.
  unfold missingMessage, missingFields.
  destruct (truthyOpt (identificationType payload)),
           (truthyOpt (userCode payload)),
           (truthyOpt (companyCode payload)); simpl; intros H;
    repeat (apply elem_of_cons in H as [->|H]; [vm_compute; reflexivity|]);
    by apply elem_of_nil in H.
Qed.

(** C5: when one or more of identificationType, userCode, companyCode is
    missing or empty, [handle] returns a failure whose error message lists
    the names of all the missing fields together, and it makes no call to
    the browser driver at all: no session is created, nothing is closed.
    Through the lambda handler the answer has status 400. *)
Theorem C5_missing_fields (payload : DianTokenEmailPayload) (w : World) :
  truthyOpt (identificationType payload) = false ∨
  truthyOpt (userCode payload) = false ∨
  truthyOpt (companyCode payload) = false →
  handle payload w = (validationFailure payload, []) ∧
  (∀ name, name ∈ missingFields payload →
           includes (missingMessage payload) name = true) ∧
  (truthyOpt (identificationType payload) = false →
     "identificationType" ∈ missingFields payload) ∧
  (truthyOpt (userCode payload) = false → "userCode" ∈ missingFields payload) ∧
  (truthyOpt (companyCode payload) = false → "companyCode" ∈ missingFields payload) ∧
  (∀ event, buildPayload event = payload →
     handler event w = ({| statusCode := 400; body := validationFailure payload |}, [])).
Proof.
  intros Hmissing.
  destruct (missingFields_spec payload) as (Hid & Huser & Hcompany).
  assert (Hne : missingFields payload ≠ []).
  { intros Hnil. rewrite Hnil in Hid, Huser, Hcompany.
    destruct Hmissing as [H|[H|H]];
      [apply Hid in H|apply Huser in H|apply Hcompany in H];
      by apply elem_of_nil in H. }
  assert (Hhandle : handle payload w = (validationFailure payload, [])).
  { unfold handle. rewrite (validatePayload_missing payload Hne).
    unfold failure. simpl. unfold validationFailure.
    by destruct (isLambda w). }
  split_and!; [done|apply missing_names_in_message|apply Hid|apply Huser|apply Hcompany|].
  intros event <-. unfold handler. by rewrite Hhandle.
Qed.

Lemma C5_missing_fields_witness :
  handle onlyUserCode emptyWorld =
    ({| res_success := false;
        res_message := None;
        res_error := Some "Campos obligatorios faltantes: identificationType, companyCode";
        res_origin := Some "test";
        res_screenshot := None |}, []).
Proof.
  exact (proj1 (C5_missing_fields onlyUserCode emptyWorld (or_introl eq_refl))).
Defined.

(** *** Field aliases *)

Lemma coalesce_aliased (camel pascal : jsval) :
  toString (coalesce (coalesce camel pascal) (JStr "")) = aliased camel pascal.
Proof. by destruct camel, pascal. Qed.

(** C9: the handler takes each of identificationType, userCode and
    companyCode from the camelCase field when it is present (neither
    undefined nor null), otherwise from the PascalCase alias
    (CompanyIdentificationType, UserCode, CompanyCode), otherwise it is the
    empty string; so an event that supplies only the aliases is answered
    exactly as the event that supplies the same values under the
    documented names. *)
Theorem C9_aliases (event : DianEvent) (w : World) :
  (identificationType (buildPayload event) =
     Some (aliased (ev_identificationType event) (ev_CompanyIdentificationType event)) ∧
   userCode (buildPayload event) =
     Some (aliased (ev_userCode event) (ev_UserCode event)) ∧
   companyCode (buildPayload event) =
     Some (aliased (ev_companyCode event) (ev_CompanyCode event))) ∧
  (present (ev_identificationType event) = false →
   present (ev_userCode event) = false →
   present (ev_companyCode event) = false →
   buildPayload event = buildPayload (documentedNames event) ∧
   handler event w = handler (documentedNames event) w).
Proof.
  split.
  - unfold buildPayload. simpl. by rewrite !coalesce_aliased.
  - intros Hid Huser Hcompany.
    assert (Heq : buildPayload event = buildPayload (documentedNames event)).
    { unfold buildPayload, documentedNames. simpl. rewrite !coalesce_aliased.
      unfold aliased. rewrite Hid, Huser, Hcompany.
      by destruct (ev_CompanyIdentificationType event),
                  (ev_UserCode event), (ev_CompanyCode event). }
    split; [done|]. unfold handler. by rewrite Heq.
Qed.

Lemma C9_aliases_witness :
  buildPayload aliasEvent =
    {| identificationType := Some "10910094";
       userCode := Some "1010168874";
       companyCode := Some "901827899";
       origin := Some "test";
       headless := Some true |}
  ∧ handler aliasEvent emptyWorld = handler (documentedNames aliasEvent) emptyWorld.
Proof.
  split; [reflexivity|].
  exact (proj2 (proj2 (C9_aliases aliasEvent emptyWorld) eq_refl eq_refl eq_refl)).
Defined.

End DianHandlerFacts.

(** ** The registry search *)
Module RuesFacts.
Import Rues.
Import RuesNotions.

Section Search.

Variable normalizeKey : string → string.
Variable w : RecordType → SearchObs.
Variable identification : string.

Lemma await_plain (step : option string) (e : JsError) :
  await step = Throw e → code e = None.
Proof. destruct step; [|done]. by intros [= <-]. Qed.

Lemma selectRecordType_plain (o : SearchObs) (e : JsError) :
  selectRecordType o = Throw e → code e = None.
Proof.
  unfold selectRecordType.
  destruct (waitTypeSelector o); simpl; [by intros [= <-]|].
  destruct (typeSelectorCount o =? 0); [by intros [= <-]|apply await_plain].
Qed.

Lemma enterIdentificationAndSubmit_plain (o : SearchObs) (e : JsError) :
  enterIdentificationAndSubmit o = Throw e → code e = None.
Proof.
  unfold enterIdentificationAndSubmit.
  destruct (waitIdInput o); simpl; [by intros [= <-]|].
  by destruct (visibleButton o), (spinnerClears o).
Qed.

Lemma getCardStatusActive_plain (cs : list Card) (e : JsError) :
  getCardStatusActive cs = Throw e → code e = None.
Proof.
  unfold getCardStatusActive. destruct (cardIndexEval cs <? 0)%Z; [|done].
  by intros [= <-].
Qed.

Lemma extractInformation_plain (o : SearchObs) (e : JsError) :
  extractInformation normalizeKey o = Throw e → code e = None.
Proof.
  unfold extractInformation, extractBasicInfo, selectedCard, waitForDetailTabs.
  destruct (waitResults o); simpl; [by intros [= <-]|].
  destruct (getCardStatusActive (cards o)) as [i|e'] eqn:Hi; simpl;
    [|intros [= <-]; by apply getCardStatusActive_plain in Hi].
  destruct (cards o) as [|c0 rest]; [by intros [= <-]|].
  destruct ((c0 :: rest) !! i) as [c|]; simpl; [|by intros [= <-]].
  destruct (enlace c); simpl; [|by intros [= <-]].
  destruct (detailTabs (detail o)); simpl; [done|by intros [= <-]].
Qed.

(** Every error that carries the code NOT_FOUND comes from the end of the
    loop with the flag cleared; no found record was met on the way. *)
Lemma searchLoop_not_found (types : list RecordType) : ∀ (flag : bool) (e : JsError),
  searchLoop normalizeKey types w identification flag = Throw e →
  code e = Some "NOT_FOUND" →
  (flag = false ∨ ∃ c, c ∈ types ∧ apiResponded (w c)) ∧
  (∀ c, c ∈ types → ¬ recordFound (w c)).
Proof.
  induction types as [|c rest IH]; intros flag e Hthrow Hcode; simpl in Hthrow.
  - destruct flag; injection Hthrow as <-; [done|].
    split; [by left|]. intros c Hc. by apply elem_of_nil in Hc.
  - destruct (selectRecordType (w c)) as [[]|e1] eqn:Hsel; simpl in Hthrow;
      [|injection Hthrow as <-; apply selectRecordType_plain in Hsel; congruence].
    destruct (enterIdentificationAndSubmit (w c)) as [responded|e1] eqn:Hsub;
      simpl in Hthrow;
      [|injection Hthrow as <-; apply enterIdentificationAndSubmit_plain in Hsub;
        congruence].
    destruct responded.
    + destruct (verifyResults (w c)) eqn:Hres.
      * destruct (extractInformation normalizeKey (w c)) as [r|e1] eqn:Hext;
          simpl in Hthrow; [done|].
        injection Hthrow as <-. apply extractInformation_plain in Hext. congruence.
      * destruct (IH _ _ Hthrow Hcode) as [_ Hnone]. split.
        -- right. exists c. split; [apply list_elem_of_here|done].
        -- intros c' Hc'. apply elem_of_cons in Hc' as [->|Hc'].
           ++ intros [_ Hfound]. congruence.
           ++ by apply Hnone.
    + destruct (IH _ _ Hthrow Hcode) as [Hflag Hnone]. split.
      * destruct Hflag as [->|(c' & Hc' & Hresp)]; [by left|].
        right. exists c'. split; [by apply list_elem_of_further|done].
      * intros c' Hc'. apply elem_of_cons in Hc' as [->|Hc'].
        -- intros [Hresp _]. unfold apiResponded in Hresp. congruence.
        -- by apply Hnone.
Qed.

Lemma searchLoop_never_clears (types : list RecordType) (flag : bool) :
  (∀ c, c ∈ types → indicatorNeverClears (w c)) →
  searchLoop normalizeKey types w identification flag =
    Throw (if flag then apiError identification else notFoundError identification).
Proof.
  induction types as [|c rest IH]; intros Hall; simpl; [by destruct flag|].
  destruct (Hall c) as (Hsel & Hinput & Hbutton & Hspinner); [apply list_elem_of_here|].
  rewrite Hsel. simpl. unfold enterIdentificationAndSubmit.
  rewrite Hinput, Hbutton, Hspinner. simpl. apply IH.
  intros c' Hc'. apply Hall. by apply list_elem_of_further.
Qed.

(** The record found by the loop is the one of the first record type that
    reports a found record, with [tipo_empresa] set to its label. *)
Lemma searchLoop_found (types : list RecordType) : ∀ (flag : bool) r,
  searchLoop normalizeKey types w identification flag = Ok r →
  ∃ before c after shown,
    types = before ++ c :: after ∧
    (∀ c', c' ∈ before → ¬ recordFound (w c')) ∧
    recordFound (w c) ∧
    extractInformation normalizeKey (w c) = Ok shown ∧
    r = <["tipo_empresa" := VStr (mapRecords c)]> shown.
Proof.
  induction types as [|c rest IH]; intros flag r Hok; simpl in Hok.
  - by destruct flag.
  - destruct (selectRecordType (w c)) as [[]|e1] eqn:Hsel; simpl in Hok; [|done].
    destruct (enterIdentificationAndSubmit (w c)) as [responded|e1] eqn:Hsub;
      simpl in Hok; [|done].
    assert (Hskip : ¬ recordFound (w c) →
              ∀ flag', searchLoop normalizeKey rest w identification flag' = Ok r →
              ∃ before c0 after shown,
                c :: rest = before ++ c0 :: after ∧
                (∀ c', c' ∈ before → ¬ recordFound (w c')) ∧
                recordFound (w c0) ∧
                extractInformation normalizeKey (w c0) = Ok shown ∧
                r = <["tipo_empresa" := VStr (mapRecords c0)]> shown).
    { intros Hnot flag' Hrest.
      destruct (IH _ _ Hrest) as (before & c0 & after & shown & -> & Hb & Hf & He & Hr).
      exists (c :: before), c0, after, shown. split_and!; try done.
      intros c' Hc'. apply elem_of_cons in Hc' as [->|Hc']; [done|by apply Hb]. }
    destruct responded.
    + destruct (verifyResults (w c)) eqn:Hres.
      * destruct (extractInformation normalizeKey (w c)) as [shown|e1] eqn:Hext;
          simpl in Hok; [|done].
        injection Hok as <-. exists [], c, rest, shown. split_and!; try done.
        intros c' Hc'. by apply elem_of_nil in Hc'.
      * apply (Hskip ltac:(intros [_ ?]; congruence) false Hok).
    + apply (Hskip ltac:(intros [? _]; unfold apiResponded in *; congruence) flag Hok).
Qed.

End Search.

Lemma handler_search (normalizeKey : string → string) (event : RuesEvent) (W : World) :
  ready W → toString (ev_identificationNumber event) ≠ "" →
  fst (handler normalizeKey event W) =
    match searchByIdentification normalizeKey (search W)
            (toString (ev_identificationNumber event)) with
    | Ok r =>
        {| statusCode := 200;
           body := BodyResult {| success := true; data := Some r; error := None |} |}
    | Throw e =>
        {| statusCode := statusOf (code e);
           body := BodyError (message e)
                     (if truthyOpt (code e) then default "" (code e)
                      else "UNKNOWN_ERROR") |}
    end.
Proof.
  intros (Hl & Hc & Hp & Hg) Hid. unfold handler, handle, normalizePayload. simpl.
  destruct (toString (ev_identificationNumber event)) as [|a s] eqn:Hs; [done|].
  rewrite Hl, Hc, Hp, Hg.
  by destruct (searchByIdentification normalizeKey (search W) (String a s)).
Qed.

(** C3: when the in-flight indicator fails to clear under all three
    record types (RM, ESAL, ESOL), the search fails with the error code
    API_ERROR, which the handler answers with status 503, never with
    NOT_FOUND or 404; an error with code NOT_FOUND is produced only when
    the API responded under at least one record type and no record type
    reported a found record. *)
Theorem C3_api_error (normalizeKey : string → string)
    (w : RecordType → SearchObs) (identification : string) :
  ((∀ c, c ∈ recordTypes → indicatorNeverClears (w c)) →
   searchByIdentification normalizeKey w identification = Throw (apiError identification) ∧
   code (apiError identification) = Some "API_ERROR" ∧
   ∀ event W,
     ready W → search W = w → identification ≠ "" →
     toString (ev_identificationNumber event) = identification →
     fst (handler normalizeKey event W) =
       {| statusCode := 503;
          body := BodyError (message (apiError identification)) "API_ERROR" |}) ∧
  (∀ e, searchByIdentification normalizeKey w identification = Throw e →
        code e = Some "NOT_FOUND" →
        (∃ c, c ∈ recordTypes ∧ apiResponded (w c)) ∧
        (∀ c, c ∈ recordTypes → ¬ recordFound (w c))).
Proof.
  split.
  - intros Hall.
    pose proof (searchLoop_never_clears normalizeKey w identification recordTypes true Hall)
      as Hloop.
    split_and!; [done|done|].
    intros event W Hready <- Hid Hstr.
    rewrite handler_search; [|done|by rewrite Hstr].
    rewrite Hstr. unfold searchByIdentification. by rewrite Hloop.
  - intros e Hthrow Hcode.
    destruct (searchLoop_not_found normalizeKey w identification recordTypes true e
                Hthrow Hcode) as [[Hflag|Hresp] Hnone]; [done|done].
Qed.

(** C4: a record returned by the search was found under the first record
    type that reports a found record, and its [tipo_empresa] is the label
    of that record type, whatever [tipo_empresa] the fields shown on the
    page gave. *)
Theorem C4_company_type (normalizeKey : string → string)
    (w : RecordType → SearchObs) (identification : string)
    (r : gmap string RuesValue) :
  searchByIdentification normalizeKey w identification = Ok r →
  ∃ before c after shown,
    recordTypes = before ++ c :: after ∧
    (∀ c', c' ∈ before → ¬ recordFound (w c')) ∧
    recordFound (w c) ∧
    extractInformation normalizeKey (w c) = Ok shown ∧
    r = <["tipo_empresa" := VStr (mapRecords c)]> shown ∧
    r !! "tipo_empresa" = Some (VStr (mapRecords c)).
Proof.
  intros Hok.
  destruct (searchLoop_found normalizeKey w identification recordTypes true r Hok)
    as (before & c & after & shown & Htypes & Hb & Hf & He & ->).
  exists before, c, after, shown. split_and!; try done.
  apply lookup_insert_eq.
Qed.

Lemma stuck_never_clears : indicatorNeverClears stuck.
Proof. by split_and!. Qed.

Lemma C3_api_error_witness :
  fst (handler (fun key => key) (eventFor (JStr "900123456")) (readyWorld (fun _ => stuck))) =
    {| statusCode := 503;
       body := BodyError
         "No se pudo consultar el documento 900123456. La API de RUES no está respondiendo. Por favor intente más tarde."
         "API_ERROR" |}
  ∧ ∃ c, c ∈ recordTypes ∧ apiResponded (noResults).
Proof.
  split.
  - destruct (C3_api_error (fun key => key) (fun _ => stuck) "900123456") as [Hall _].
    destruct (Hall (fun c _ => stuck_never_clears)) as (_ & _ & Hhandler).
    apply (Hhandler (eventFor (JStr "900123456")) (readyWorld (fun _ => stuck)));
      [by split_and!|done|done|done].
  - destruct (C3_api_error (fun key => key) (fun _ => noResults) "000000000") as [_ Hnf].
    destruct (Hnf (notFoundError "000000000") eq_refl eq_refl) as [(c & Hc & Hresp) _].
    by exists c.
Defined.

Lemma C4_company_type_witness :
  (∃ shown, extractInformation (fun key => key) found = Ok shown ∧
            shown !! "tipo_empresa" = Some (VStr "Sociedad")) ∧
  (∃ r, searchByIdentification (fun key => key) scenarioA "900123456" = Ok r ∧
        r !! "tipo_empresa" = Some (VStr "Entidades sin animo de lucro")).
Proof.
  split.
  - destruct (extractInformation (fun key => key) found) as [shown|e] eqn:Hshown;
      [|vm_compute in Hshown; discriminate Hshown].
    exists shown. split; [done|].
    assert (Hsome : Ok shown = extractInformation (fun key => key) found) by done.
    vm_compute in Hsome. injection Hsome as ->. reflexivity.
  - destruct (searchByIdentification (fun key => key) scenarioA "900123456")
      as [r|e] eqn:Hr; [|vm_compute in Hr; discriminate Hr].
    exists r. split; [done|].
    destruct (C4_company_type _ _ _ _ Hr)
      as (before & c & after & shown & _ & _ & [Hresp Hfound] & _ & _ & Htipo).
    destruct c; [vm_compute in Hfound; discriminate Hfound|exact Htipo|
                 vm_compute in Hfound; discriminate Hfound].
Defined.

(** C6, as the code has it: a call of [handle] whose identificationNumber
    is absent or empty fails with the validation error before any call to
    the browser driver; when the handler's event carries an empty
    identificationNumber, the handler answers this failure with status 500
    and the error code UNKNOWN_ERROR. *)
Theorem C6_validation (normalizeKey : string → string)
    (payload : RuesPayload) (W : World) :
  identificationNumber payload = None ∨ identificationNumber payload = Some "" →
  handle normalizeKey payload W =
    (Throw (plainError "La identificación es requerida."), []) ∧
  ∀ event, normalizePayload event = payload →
    handler normalizeKey event W =
      ({| statusCode := 500;
          body := BodyError "La identificación es requerida." "UNKNOWN_ERROR" |}, []).
Proof.
  intros Hid.
  assert (Hhandle : handle normalizeKey payload W =
                      (Throw (plainError "La identificación es requerida."), [])).
  { unfold handle. by destruct Hid as [-> | ->]. }
  split; [done|]. intros event <-. unfold handler. by rewrite Hhandle.
Qed.

Lemma C6_validation_witness :
  handler (fun key => key) (eventFor (JStr "")) (readyWorld scenarioA) =
    ({| statusCode := 500;
        body := BodyError "La identificación es requerida." "UNKNOWN_ERROR" |}, []).
Proof.
  exact (proj2 (C6_validation (fun key => key)
                  (normalizePayload (eventFor (JStr ""))) (readyWorld scenarioA)
                  (or_intror eq_refl))
               (eventFor (JStr "")) eq_refl).
Defined.

(** C6 fails as stated: the validation error of an empty
    identificationNumber is answered with status 500, which is not in the
    4xx class. *)
Lemma C6_counterexample :
  statusCode (fst (handler (fun key => key) (eventFor (JStr "")) (readyWorld scenarioA)))
    = 500%Z ∧
  ¬ (400 ≤ statusCode (fst (handler (fun key => key) (eventFor (JStr ""))
                              (readyWorld scenarioA))) < 500)%Z.
Proof. split; [reflexivity|]. simpl. lia. Qed.

(** An event without identificationNumber: [String(undefined)] is the
    text "undefined", which passes the validation of [handle], so the
    browser is launched and "undefined" is searched for. *)
Lemma missing_identification_reaches_driver (normalizeKey : string → string) (W : World) :
  identificationNumber (normalizePayload (eventFor JUndefined)) = Some "undefined" ∧
  ∃ rest, snd (handler normalizeKey (eventFor JUndefined) W) = Launch :: rest.
Proof.
  split; [reflexivity|]. unfold handler, handle. simpl.
  destruct (launch W); [by eexists|].
  destruct (newContext W); [by eexists|].
  destruct (newPage W); [by eexists|].
  destruct (goto W); [by eexists|].
  destruct (searchByIdentification normalizeKey (search W) "undefined"); by eexists.
Qed.

End RuesFacts.

(** ** The outcome poller *)
Module PollerFacts.
Import Dian.
Import PollerNotions.

Lemma pollTicks_reaches (before : list TickObs) : ∀ st st' o after,
  continued st before = Some st' →
  pollTicks st (before ++ o :: after) = outcome (tick st' o) after.
Proof.
  induction before as [|b rest IH]; intros st st' o after Hc; simpl in *.
  - injection Hc as ->. by destruct (tick st' o).
  - destruct (tick st b); try done. by apply IH.
Qed.

Lemma tick_success_priority (st : PollerState) (o : TickObs) :
  successPresent o →
  tick st o =
    if persistedError o then Fail (default "" (stored o))
    else if liveError o then Fail (default "" (guardError o))
    else if modalError o then Fail (default "" (readModalError (modalProbe o)))
    else Return (default "" (successMessage (successAlert o))).
Proof.
  unfold successPresent, persistedError, liveError, modalError, tick. intros Hs.
  destruct (truthyOpt (stored o)); [done|].
  destruct (truthyOpt (guardError o)); [done|].
  destruct (truthyOpt (readModalError (modalProbe o))); [done|].
  by rewrite Hs.
Qed.

(** C1, as the code has it: in an iteration of the polling loop where a
    non-empty success message is present, a persisted observer error, a
    live observer error or a visible error modal makes the poller fail
    with that error's message (the first present, in this order) and the
    success message is not returned; when none of these three is present
    the poller returns the success message, whatever the text of the
    error alert or of the toast. *)
Theorem C1_error_priority (before after : list TickObs) (o : TickObs) (st : PollerState) :
  continued initialState before = Some st →
  successPresent o →
  (persistedError o = true →
     waitForResultMessage (before ++ o :: after) =
       Throw (plainError (default "" (stored o)))) ∧
  (persistedError o = false → liveError o = true →
     waitForResultMessage (before ++ o :: after) =
       Throw (plainError (default "" (guardError o)))) ∧
  (persistedError o = false → liveError o = false → modalError o = true →
     waitForResultMessage (before ++ o :: after) =
       Throw (plainError (default "" (readModalError (modalProbe o))))) ∧
  (persistedError o = false → liveError o = false → modalError o = false →
     waitForResultMessage (before ++ o :: after) =
       Ok (default "" (successMessage (successAlert o)))) ∧
  (persistedError o || liveError o || modalError o = true →
     ∀ msg, waitForResultMessage (before ++ o :: after) ≠ Ok msg).
Proof.
  intros Hc Hs.
  change (waitForResultMessage (before ++ o :: after))
    with (pollTicks initialState (before ++ o :: after)).
  rewrite (pollTicks_reaches before _ st o after Hc).
  rewrite (tick_success_priority st o Hs).
  split_and!.
  - by intros ->.
  - by intros -> ->.
  - by intros -> -> ->.
  - by intros -> -> ->.
  - intros Herr msg.
    destruct (persistedError o); [done|].
    destruct (liveError o); [done|].
    destruct (modalError o); [done|]. done.
Qed.

Lemma C1_error_priority_witness :
  waitForResultMessage [quiet; modalAndSuccess; quiet] =
    Throw (plainError "Error - Usuario no autorizado").
Proof.
  destruct (C1_error_priority [quiet] [quiet] modalAndSuccess initialState
              eq_refl eq_refl) as (_ & _ & Hmodal & _).
  exact (Hmodal eq_refl eq_refl eq_refl).
Defined.

(** C1 fails as stated for the error alert and the toast: with a
    non-empty error-alert text, a non-empty toast text and a non-empty
    success message in the same iteration, the poller returns the success
    message. *)
Lemma C1_counterexample :
  alertError alertAndSuccess = true ∧
  successPresent alertAndSuccess ∧
  waitForResultMessage [alertAndSuccess] = Ok sentMessage.
Proof. split_and!; reflexivity. Qed.

End PollerFacts.

(** ** The modal guard: installing it twice *)
Module GuardFacts.
Import Dian.
Import GuardNotions.

Lemma views_observe (p : Page) (v : View) :
  views (tab p) v → observe p = observeView v.
Proof.
  unfold observe. destruct v as [doc stored navs|st doc stored navs]; simpl.
  - intros ((_ & _ & -> & _) & _ & -> & ->). done.
  - intros ((_ & a & -> & Ha & _) & _ & -> & ->). simpl. by rewrite Ha.
Qed.

(** *** captureModal *)

Lemma captureModal_hidden (id : nat) (t : Tab) :
  isModalVisible (document t) = false → captureModal id t = t.
Proof. unfold captureModal. by intros ->. Qed.

Lemma captureModal_shown (id : nat) (t : Tab) :
  isModalVisible (document t) = true →
  captureModal id t =
    {| loading := loading t;
       document := document t;
       sessionError := Some (modalText (document t));
       heap := alter (setLastError (modalText (document t))) id (heap t);
       dianModalState := dianModalState t;
       pendingSetups := pendingSetups t;
       observers := observers t;
       wrappers := wrappers t;
       navigations := navigations t |}.
Proof. unfold captureModal. by intros ->. Qed.

Lemma setLastError_idem (text : string) (st : ModalGuardState) :
  setLastError text (setLastError text st) = setLastError text st.
Proof. done. Qed.

Lemma captureAll_hidden (ids : list nat) (t : Tab) :
  isModalVisible (document t) = false → captureAll ids t = t.
Proof.
  intros Hv. induction ids as [|id rest IH]; [done|].
  unfold captureAll in *. simpl. by rewrite captureModal_hidden.
Qed.

Lemma captureAll_frame (ids : list nat) : ∀ t,
  loading (captureAll ids t) = loading t ∧
  document (captureAll ids t) = document t ∧
  dianModalState (captureAll ids t) = dianModalState t ∧
  pendingSetups (captureAll ids t) = pendingSetups t ∧
  observers (captureAll ids t) = observers t ∧
  wrappers (captureAll ids t) = wrappers t ∧
  navigations (captureAll ids t) = navigations t.
Proof.
  induction ids as [|id rest IH]; intros t; [done|].
  change (captureAll (id :: rest) t) with (captureAll rest (captureModal id t)).
  destruct (IH (captureModal id t)) as (-> & -> & -> & -> & -> & -> & ->).
  unfold captureModal. by destruct (isModalVisible (document t)).
Qed.

Lemma captureAll_stored (ids : list nat) : ∀ t,
  isModalVisible (document t) = true → ids ≠ [] →
  sessionError (captureAll ids t) = Some (modalText (document t)).
Proof.
  induction ids as [|id rest IH]; intros t Hv Hne; [done|].
  change (captureAll (id :: rest) t) with (captureAll rest (captureModal id t)).
  destruct rest as [|id' rest'].
  - unfold captureAll. simpl. by rewrite captureModal_shown.
  - rewrite IH; [|by rewrite captureModal_shown|done].
    by rewrite captureModal_shown.
Qed.

Lemma captureAll_other (ids : list nat) (a : nat) : ∀ t,
  a ∉ ids → heap (captureAll ids t) !! a = heap t !! a.
Proof.
  induction ids as [|id rest IH]; intros t Hnot; [done|].
  change (captureAll (id :: rest) t) with (captureAll rest (captureModal id t)).
  apply not_elem_of_cons in Hnot as [Hne Hrest].
  rewrite IH; [|done]. unfold captureModal.
  destruct (isModalVisible (document t)); [|done]. simpl.
  by apply list_lookup_alter_ne.
Qed.

Lemma captureAll_member (ids : list nat) (a : nat) : ∀ t st,
  isModalVisible (document t) = true →
  heap t !! a = Some st → a ∈ ids →
  heap (captureAll ids t) !! a = Some (setLastError (modalText (document t)) st).
Proof.
  induction ids as [|id rest IH]; intros t st Hv Hst Hin.
  - by apply elem_of_nil in Hin.
  - change (captureAll (id :: rest) t) with (captureAll rest (captureModal id t)).
    assert (Hdoc : document (captureModal id t) = document t)
      by by rewrite captureModal_shown.
    assert (Hheap : heap (captureModal id t) !! a =
                      Some (if decide (id = a)
                            then setLastError (modalText (document t)) st else st)).
    { rewrite captureModal_shown; [|done]. simpl. rewrite list_lookup_alter.
      destruct (decide (id = a)) as [->|]; [by rewrite Hst|done]. }
    destruct (decide (a ∈ rest)) as [Hrest|Hrest].
    + rewrite (IH _ _ ltac:(by rewrite Hdoc) Hheap Hrest). rewrite Hdoc.
      by destruct (decide (id = a)).
    + rewrite captureAll_other; [|done]. rewrite Hheap.
      apply elem_of_cons in Hin as [->|Hin]; [|done].
      by rewrite decide_True.
Qed.

(** *** setup, and the scripts of a new document *)

Lemma runInitScript_fresh (n : nat) (doc : Document) (t : Tab) :
  Nat.iter n runInitScript (freshTab doc t) = pendingTab n doc t.
Proof.
  induction n as [|n IH]; [done|]. rewrite Nat.iter_succ, IH. reflexivity.
Qed.

Lemma newDocument_views (n : nat) (doc : Document) (t : Tab) :
  0 < n →
  views (Nat.iter n runInitScript (freshTab doc t))
        (Waiting doc (sessionError t) (navigations t)).
Proof.
  intros Hn. rewrite runInitScript_fresh. simpl. unfold Pending. simpl.
  by split_and!.
Qed.

Lemma capturedState_stored (doc : Document) (stored : option string) :
  capturedState doc (capturedStored doc stored) = capturedState doc stored.
Proof.
  unfold capturedState, capturedStored. by destruct (isModalVisible doc).
Qed.

Lemma capturedStored_idem (doc : Document) (stored : option string) :
  capturedStored doc (capturedStored doc stored) = capturedStored doc stored.
Proof. unfold capturedStored. by destruct (isModalVisible doc). Qed.

Lemma setup_views (t : Tab) :
  loading t = false →
  views (setup t)
        (Guarding (capturedState (document t) (sessionError t)) (document t)
                  (capturedStored (document t) (sessionError t)) (navigations t)).
Proof.
  intros Hl. unfold setup, captureModal, capturedState, capturedStored. simpl.
  destruct (isModalVisible (document t)) eqn:Hv; simpl.
  - split_and!; try done. split; [done|].
    exists (length (heap t)). simpl. split_and!; try done.
    + rewrite list_lookup_alter_eq, list_lookup_middle; done.
    + apply elem_of_app. right. by apply list_elem_of_singleton.
    + intros f. by eexists.
  - split_and!; try done. split; [done|].
    exists (length (heap t)). simpl. split_and!; try done.
    + by rewrite list_lookup_middle.
    + apply elem_of_app. right. by apply list_elem_of_singleton.
    + intros f. by eexists.
Qed.

Lemma iter_setup_views (n : nat) (t : Tab) :
  loading t = false → 0 < n →
  views (Nat.iter n setup t)
        (Guarding (capturedState (document t) (sessionError t)) (document t)
                  (capturedStored (document t) (sessionError t)) (navigations t)).
Proof.
  intros Hl Hn. destruct n as [|n]; [lia|]. clear Hn.
  induction n as [|n IH].
  - by apply setup_views.
  - rewrite Nat.iter_succ.
    destruct IH as ((Hload & _) & Hdoc & Hstored & Hnavs).
    pose proof (setup_views (Nat.iter (S n) setup t) Hload) as Hnext.
    rewrite Hdoc, Hstored, Hnavs in Hnext.
    by rewrite capturedState_stored, capturedStored_idem in Hnext.
Qed.

Lemma fireDOMContentLoaded_waiting (t : Tab) doc stored navs :
  views t (Waiting doc stored navs) →
  views (fireDOMContentLoaded t) (viewStep (Waiting doc stored navs) DOMContentLoaded).
Proof.
  intros ((Hload & Hheap & Hmark & Hobs & Hwrap & Hpend) & <- & <- & <-).
  unfold fireDOMContentLoaded. rewrite Hload. simpl.
  by apply (iter_setup_views (pendingSetups t)
              {| loading := false;
                 document := document t;
                 sessionError := sessionError t;
                 heap := heap t;
                 dianModalState := dianModalState t;
                 pendingSetups := 0;
                 observers := observers t;
                 wrappers := wrappers t;
                 navigations := navigations t |}).
Qed.

(** *** Navigation calls *)

Lemma callNavigation_hidden (f : NavFn) (a : list string) (now : Z) (ws : list nat) :
  ∀ t, isModalVisible (document t) = false →
  callNavigation ws f a now t =
    {| loading := loading t;
       document := document t;
       sessionError := sessionError t;
       heap := heap t;
       dianModalState := dianModalState t;
       pendingSetups := pendingSetups t;
       observers := observers t;
       wrappers := wrappers t;
       navigations := navigations t ++ [(f, a)] |}.
Proof.
  induction ws as [|id inner IH]; intros t Hv; [done|].
  simpl. rewrite captureModal_hidden; [|done]. rewrite Hv. by apply IH.
Qed.

Lemma callNavigation_shown (f : NavFn) (a : list string) (now : Z)
    (id : nat) (inner : list nat) (t : Tab) :
  isModalVisible (document t) = true →
  callNavigation (id :: inner) f a now t =
    {| loading := loading t;
       document := document t;
       sessionError := Some (modalText (document t));
       heap := alter (pushBlocked {| fn := navName f; ts := now; args := a |}) id
                 (alter (setLastError (modalText (document t))) id (heap t));
       dianModalState := dianModalState t;
       pendingSetups := pendingSetups t;
       observers := observers t;
       wrappers := wrappers t;
       navigations := navigations t |}.
Proof.
  intros Hv. simpl. rewrite captureModal_shown; [|done]. simpl. by rewrite Hv.
Qed.

(** *** Every page with the script registered refines the single guard *)

Lemma step_views (p : Page) (e : PageEvent) (v : View) :
  0 < initScripts p → views (tab p) v → views (tab (step p e)) (viewStep v e).
Proof.
  intros Hn Hv. destruct e as [doc| |doc|doc|f a now]; simpl.
  - (* NewDocument *)
    destruct v as [d stored navs|st d stored navs];
      destruct Hv as (_ & _ & <- & <-); by apply newDocument_views.
  - (* DOMContentLoaded *)
    destruct v as [d stored navs|st d stored navs].
    + by apply fireDOMContentLoaded_waiting.
    + destruct Hv as ((Hload & Hinst) & Hrest).
      unfold fireDOMContentLoaded. rewrite Hload. by split.
  - (* Mutation *)
    fold (captureAll (observers (tab p)) (setDocument doc (tab p))).
    destruct (captureAll_frame (observers (tab p)) (setDocument doc (tab p)))
      as (Hl & Hd & Hm & Hp & Ho & Hw & Hnav).
    destruct v as [d stored navs|st d stored navs]; simpl.
    + destruct Hv as ((Hload & Hheap & Hmark & Hobs & Hwrap & Hpend) & _ & <- & <-).
      rewrite Hobs. unfold captureAll. simpl. unfold Pending. simpl.
      by split_and!.
    + destruct Hv as ((Hload & a & Hmark & Hheap & Hobs & Hwrap) & _ & <- & <-).
      destruct (isModalVisible doc) eqn:Hvis; simpl.
      * split_and!.
        -- split; [rewrite Hl; exact Hload|].
           exists a. rewrite Hm, Ho, Hw. split_and!; try done.
           by rewrite (captureAll_member (observers (tab p)) a
                         (setDocument doc (tab p)) st Hvis Hheap Hobs).
        -- by rewrite Hd.
        -- rewrite (captureAll_stored (observers (tab p)) (setDocument doc (tab p)) Hvis);
             [done|].
           intros Hnil. rewrite Hnil in Hobs. by apply elem_of_nil in Hobs.
        -- by rewrite Hnav.
      * rewrite captureAll_hidden; [|done]. simpl.
        split_and!; try done. split; [done|]. by exists a.
  - (* SilentChange *)
    destruct v as [d stored navs|st d stored navs]; simpl.
    + destruct Hv as ((Hload & Hheap & Hmark & Hobs & Hwrap & Hpend) & _ & <- & <-).
      unfold Pending. simpl. by split_and!.
    + destruct Hv as ((Hload & a & Hmark & Hheap & Hobs & Hwrap) & _ & <- & <-).
      split_and!; try done. split; [done|]. by exists a.
  - (* Navigate *)
    destruct v as [d stored navs|st d stored navs]; simpl.
    + destruct Hv as ((Hload & Hheap & Hmark & Hobs & Hwrap & Hpend) & <- & <- & <-).
      rewrite Hwrap. simpl. unfold Pending. simpl. by split_and!.
    + destruct Hv as ((Hload & a' & Hmark & Hheap & Hobs & Hwrap) & <- & <- & <-).
      destruct (Hwrap f) as [inner Hf]. rewrite Hf.
      destruct (isModalVisible (document (tab p))) eqn:Hvis.
      * rewrite callNavigation_shown; [|done]. simpl.
        split_and!; try done. split; [done|]. exists a'. simpl.
        split_and!; try done.
        by rewrite !list_lookup_alter_eq, Hheap.
      * rewrite callNavigation_hidden; [|done]. simpl.
        split_and!; try done. split; [done|]. by exists a'.
Qed.

Lemma step_initScripts (p : Page) (e : PageEvent) :
  initScripts (step p e) = initScripts p.
Proof. done. Qed.

Lemma step_alike (p q : Page) (e : PageEvent) :
  alike p q → alike (step p e) (step q e).
Proof.
  intros (Hp & Hq & Htab). split_and!; [done|done|].
  destruct Htab as [Heq|(v & Hvp & Hvq)].
  - destruct e as [doc| |doc|doc|f a now]; simpl; rewrite <- ?Heq; try by left.
    right. exists (Waiting doc (sessionError (tab p)) (navigations (tab p))).
    split; by apply newDocument_views.
  - right. exists (viewStep v e). split; by apply step_views.
Qed.

Lemma run_alike (events : list PageEvent) : ∀ p q,
  alike p q → alike (run p events) (run q events).
Proof.
  induction events as [|e rest IH]; intros p q Hpq; [done|].
  apply (IH (step p e) (step q e)). by apply step_alike.
Qed.

Lemma alike_observe (p q : Page) : alike p q → observe p = observe q.
Proof.
  intros (_ & _ & [Heq|(v & Hvp & Hvq)]).
  - unfold observe. by rewrite Heq.
  - by rewrite (views_observe p v), (views_observe q v).
Qed.

Lemma runInitScript_marked (t : Tab) :
  is_Some (dianModalState t) → runInitScript t = t.
Proof. intros [a Ha]. unfold runInitScript. by rewrite Ha. Qed.

(** C8, as the code has it: registering the guard twice on a page gives,
    for every page state and every later course of the page (new
    documents, DOMContentLoaded, DOM changes, navigation calls), the same
    error field, the same blocked-transitions log, the same persisted
    error and the same navigations carried out or suppressed as
    registering it once; and a run of the script in a window whose marker
    is already set changes nothing. *)
Theorem C8_idempotent (p : Page) (events : list PageEvent) :
  observe (run (setupModalGuards (setupModalGuards p)) events) =
    observe (run (setupModalGuards p) events) ∧
  (∀ t, is_Some (dianModalState t) → runInitScript t = t).
Proof.
  split; [|apply runInitScript_marked].
  apply alike_observe, run_alike. unfold alike. simpl.
  split_and!; [lia|lia|by left].
Qed.

Lemma C8_idempotent_witness :
  observe (run (setupModalGuards (setupModalGuards blankPage)) course) =
    {| seenState :=
         Some {| lastError := Some "Error - Usuario no autorizado";
                 blockedRedirects :=
                   [ {| fn := "reload"; ts := 1730000000500; args := [] |} ] |};
       seenStored := Some "Error - Usuario no autorizado";
       seenNavigations := [ (Assign, ["/User/CompanyLogin"]) ] |}
  ∧ runInitScript (tab (run (setupModalGuards blankPage) course)) =
      tab (run (setupModalGuards blankPage) course).
Proof.
  destruct (C8_idempotent blankPage course) as [Hsame Hmarked].
  split.
  - rewrite Hsame. reflexivity.
  - apply Hmarked. by eexists.
Defined.

(** C8 fails as stated: while the document is loading, the second run of
    the script is not a no-op.  It registers a second deferred [setup];
    at DOMContentLoaded both run, so a second state object replaces the
    first behind the marker and every navigation function is wrapped
    twice, the inner wrapper holding the first state object. *)
Lemma C8_counterexample :
  runInitScript (runInitScript (freshTab hiddenModal blankTab)) ≠
    runInitScript (freshTab hiddenModal blankTab) ∧
  wrappers (tab (run (setupModalGuards blankPage) [NewDocument hiddenModal; DOMContentLoaded]))
           Assign = [0] ∧
  wrappers (tab (run (setupModalGuards (setupModalGuards blankPage))
                     [NewDocument hiddenModal; DOMContentLoaded]))
           Assign = [1; 0] ∧
  dianModalState (tab (run (setupModalGuards blankPage)
                           [NewDocument hiddenModal; DOMContentLoaded])) = Some 0 ∧
  dianModalState (tab (run (setupModalGuards (setupModalGuards blankPage))
                           [NewDocument hiddenModal; DOMContentLoaded])) = Some 1 ∧
  length (heap (tab (run (setupModalGuards (setupModalGuards blankPage))
                         [NewDocument hiddenModal; DOMContentLoaded]))) = 2.
Proof.
  split_and!; try reflexivity.
  intros Heq. apply (f_equal pendingSetups) in Heq. discriminate Heq.
Qed.

End GuardFacts.

(** * Part III: further properties of the code *)

(** ** The registry search, record type by record type *)
Module RuesMore.
Import Rues RuesNotions RuesFacts RuesMoreNotions.

Section Search.

Variable normalizeKey : string → string.
Variable w : RecordType → SearchObs.
Variable identification : string.

(** Record types searched without a record only clear the flag. *)
Lemma searchLoop_skip (before : list RecordType) : ∀ (rest : list RecordType) (flag : bool),
  (∀ c, c ∈ before → searchedWithoutRecord (w c)) →
  searchLoop normalizeKey (before ++ rest) w identification flag =
    searchLoop normalizeKey rest w identification
      (flag && forallb (fun c => negb (respondedb (w c))) before).
Proof.
  induction before as [|c before IH]; intros rest flag Hall; simpl.
  - by rewrite andb_true_r.
  - destruct (Hall c) as [Hsel Hsub]; [apply list_elem_of_here|].
    assert (Hrest : ∀ c', c' ∈ before → searchedWithoutRecord (w c')).
    { intros c' Hc'. apply Hall. by apply list_elem_of_further. }
    rewrite Hsel. simpl. unfold respondedb.
    destruct Hsub as [Hno|[Hyes Hres]].
    + rewrite Hno. simpl. by rewrite IH.
    + rewrite Hyes, Hres. simpl. rewrite IH; [|done]. by rewrite andb_false_r.
Qed.


Lemma failsWith_plain (o : SearchObs) (e : JsError) :
  failsWith normalizeKey o e → code e = None.
Proof.
  intros [H|[[_ H]|(_ & _ & _ & H)]].
  - by apply selectRecordType_plain in H.
  - by apply enterIdentificationAndSubmit_plain in H.
  - by apply (extractInformation_plain normalizeKey) in H.
Qed.

Lemma searchLoop_fails (c : RecordType) (rest : list RecordType) (flag : bool) (e : JsError) :
  failsWith normalizeKey (w c) e →
  searchLoop normalizeKey (c :: rest) w identification flag = Throw e.
Proof.
  simpl. intros [H|[[Hsel H]|(Hsel & Hsub & Hres & H)]].
  - by rewrite H.
  - by rewrite Hsel, H.
  - by rewrite Hsel, Hsub, Hres, H.
Qed.

End Search.

(** The search stops at the first record type that reports a record: when
    the record types before [c] were searched without a record and [c]
    reports one, the outcome is the extraction under [c] with
    [tipo_empresa] set to its label, or the error of that extraction; what
    the later record types would answer plays no part. *)
Theorem first_record_decides (normalizeKey : string → string)
    (w : RecordType → SearchObs) (identification : string)
    (before after : list RecordType) (c : RecordType) :
  recordTypes = before ++ c :: after →
  (∀ c', c' ∈ before → searchedWithoutRecord (w c')) →
  selectRecordType (w c) = Ok tt → recordFound (w c) →
  searchByIdentification normalizeKey w identification =
    (shown ← extractInformation normalizeKey (w c);
     Ok (<["tipo_empresa" := VStr (mapRecords c)]> shown)) ∧
  ∀ w', (∀ c', c' ∈ before → w' c' = w c') → w' c = w c →
        searchByIdentification normalizeKey w' identification =
          searchByIdentification normalizeKey w identification.
Proof.
  intros Htypes Hbefore Hsel [Hresp Hres].
  assert (Hhere : ∀ v, (∀ c', c' ∈ before → v c' = w c') → v c = w c →
            searchByIdentification normalizeKey v identification =
              (shown ← extractInformation normalizeKey (w c);
               Ok (<["tipo_empresa" := VStr (mapRecords c)]> shown))).
  { intros v Hv Hvc. unfold searchByIdentification. rewrite Htypes.
    rewrite searchLoop_skip.
    - simpl. rewrite Hvc, Hsel. simpl. unfold apiResponded in Hresp.
      by rewrite Hresp, Hres.
    - intros c' Hc'. rewrite (Hv c' Hc'). by apply Hbefore. }
  split.
  - by apply Hhere.
  - intros w' Hw' Hc. rewrite (Hhere w' Hw' Hc). symmetry. by apply Hhere.
Qed.

Lemma first_record_decides_witness :
  searchByIdentification (fun key => key) foundFirst "900123456" =
    Ok (<["tipo_empresa" := VStr "Registro Mercantil"]> (shownRecord found)) ∧
  searchByIdentification (fun key => key) (fun _ => found) "900123456" =
    searchByIdentification (fun key => key) foundFirst "900123456".
Proof.
  assert (Hshown : extractInformation (fun key => key) (foundFirst RM) =
                     Ok (shownRecord found)) by (vm_compute; reflexivity).
  destruct (first_record_decides (fun key => key) foundFirst "900123456" [] [ESAL; ESOL] RM
              eq_refl) as [Hhere Hsame].
  - intros c' Hc'. by apply elem_of_nil in Hc'.
  - reflexivity.
  - by split.
  - split.
    + rewrite Hhere, Hshown. reflexivity.
    + apply Hsame; [|reflexivity]. intros c' Hc'. by apply elem_of_nil in Hc'.
Defined.

(** An error under one record type ends the whole search: when the record
    types before [c] were searched without a record and a step under [c]
    throws (selecting the type, entering the identification, or
    extracting the found record), the search throws that error at once,
    also when a later record type holds the record, and the handler
    answers it with status 500 and the error code UNKNOWN_ERROR. *)
Theorem search_fails_fast (normalizeKey : string → string)
    (w : RecordType → SearchObs) (identification : string)
    (before after : list RecordType) (c : RecordType) (e : JsError) :
  recordTypes = before ++ c :: after →
  (∀ c', c' ∈ before → searchedWithoutRecord (w c')) →
  failsWith normalizeKey (w c) e →
  searchByIdentification normalizeKey w identification = Throw e ∧
  ∀ event W,
    ready W → search W = w → identification ≠ "" →
    toString (ev_identificationNumber event) = identification →
    fst (handler normalizeKey event W) =
      {| statusCode := 500; body := BodyError (message e) "UNKNOWN_ERROR" |}.
Proof.
  intros Htypes Hbefore Hfail.
  assert (Hsearch : searchByIdentification normalizeKey w identification = Throw e).
  { unfold searchByIdentification. rewrite Htypes, searchLoop_skip; [|done].
    by apply searchLoop_fails. }
  split; [done|]. intros event W Hready <- Hid Hstr.
  rewrite handler_search; [|done|by rewrite Hstr].
  rewrite Hstr, Hsearch. by rewrite (failsWith_plain normalizeKey _ _ Hfail).
Qed.

Lemma search_fails_fast_witness :
  fst (handler (fun key => key) (eventFor (JStr "900123456")) (readyWorld brokenESAL)) =
    {| statusCode := 500;
       body := BodyError "page.waitForSelector: Timeout 120000ms exceeded."
                         "UNKNOWN_ERROR" |}
  ∧ recordFound (brokenESAL ESOL).
Proof.
  split; [|by split].
  destruct (search_fails_fast (fun key => key) brokenESAL "900123456" [RM] [ESOL] ESAL
              (plainError "page.waitForSelector: Timeout 120000ms exceeded.") eq_refl)
    as [_ Hhandler].
  - intros c' Hc'. apply list_elem_of_singleton in Hc' as ->.
    split; [reflexivity|left; reflexivity].
  - left. reflexivity.
  - by apply (Hhandler (eventFor (JStr "900123456")) (readyWorld brokenESAL)).
Defined.

(** When no step throws and no record type reports a record, the error
    is decided by the responses alone: NOT_FOUND (status 404) as soon as
    the API responded under one record type, API_ERROR (status 503) when
    it responded under none, whether the spinner stayed or no submit
    button was visible. *)
Theorem search_without_record (normalizeKey : string → string)
    (w : RecordType → SearchObs) (identification : string) :
  (∀ c, c ∈ recordTypes → searchedWithoutRecord (w c)) →
  let e := if forallb (fun c => negb (respondedb (w c))) recordTypes
           then apiError identification else notFoundError identification in
  searchByIdentification normalizeKey w identification = Throw e ∧
  ((∃ c, c ∈ recordTypes ∧ apiResponded (w c)) → e = notFoundError identification) ∧
  ∀ event W,
    ready W → search W = w → identification ≠ "" →
    toString (ev_identificationNumber event) = identification →
    fst (handler normalizeKey event W) =
      {| statusCode := statusOf (code e);
         body := BodyError (message e) (default "" (code e)) |}.
Proof.
  intros Hall e.
  assert (Hsearch : searchByIdentification normalizeKey w identification = Throw e).
  { unfold searchByIdentification.
    rewrite <- (app_nil_r recordTypes) at 1. rewrite searchLoop_skip; [|done].
    unfold e. generalize (forallb (fun c => negb (respondedb (w c))) recordTypes).
    by intros []. }
  split_and!; [done| |].
  - intros (c & Hc & Hresp). unfold e.
    destruct (forallb (fun c => negb (respondedb (w c))) recordTypes) eqn:Hf; [|done].
    rewrite forallb_forall in Hf. specialize (Hf c).
    unfold respondedb, apiResponded in *. rewrite Hresp in Hf.
    discriminate Hf. by apply list_elem_of_In.
  - intros event W Hready <- Hid Hstr.
    rewrite handler_search; [|done|by rewrite Hstr].
    rewrite Hstr, Hsearch. unfold e.
    by destruct (forallb (fun c => negb (respondedb (search W c))) recordTypes).
Qed.

Lemma search_without_record_witness :
  fst (handler (fun key => key) (eventFor (JStr "000000000")) (readyWorld scenarioB)) =
    {| statusCode := 404;
       body := BodyError
         "Documento 000000000 no encontrado en ningún tipo de registro (RM, ESAL, ESOL)."
         "NOT_FOUND" |}.
Proof.
  destruct (search_without_record (fun key => key) scenarioB "000000000") as (_ & _ & Hhandler).
  - intros c _. destruct c; (split; [reflexivity|]);
      [left; reflexivity|right; by split|right; by split].
  - by apply (Hhandler (eventFor (JStr "000000000")) (readyWorld scenarioB)).
Defined.


(** *** The extracted record *)

Lemma merged_lookup (details basic base : gmap string RuesValue) (k : string) :
  (details ∪ basic ∪ base) !! k =
    match details !! k with
    | Some v => Some v
    | None => match basic !! k with Some v => Some v | None => base !! k end
    end.
Proof.
  rewrite !lookup_union.
  by destruct (details !! k), (basic !! k), (base !! k).
Qed.

Lemma detailed_lookup (normalizeKey : string → string) (d : DetailObs) (k : string) :
  k ∉ detailKeys → extractDetailedInfo normalizeKey d !! k = None.
Proof.
  intros Hk. unfold extractDetailedInfo.
  rewrite !lookup_insert_ne, lookup_empty; [done|..];
    intros <-; apply Hk; unfold detailKeys;
    repeat first [apply list_elem_of_here | apply list_elem_of_further].
Qed.

Lemma extractInformation_merged (normalizeKey : string → string) (o : SearchObs)
    (r : gmap string RuesValue) :
  extractInformation normalizeKey o = Ok r →
  ∃ info, extractBasicInfo normalizeKey (cards o) = Ok info ∧
    r = extractDetailedInfo normalizeKey (detail o) ∪ (VStr <$> info) ∪
        <["nombre" := VStr (default "" (info !! "nombre"))]>
          (<["tipo_empresa" := VStr ""]> ∅).
Proof.
  unfold extractInformation.
  destruct (waitResults o); simpl; [done|].
  destruct (extractBasicInfo normalizeKey (cards o)) as [info|e] eqn:Hinfo; simpl; [|done].
  destruct (selectedCard (cards o)) as [[c|]|e]; simpl; [|done|done].
  destruct (enlace c); simpl; [|done].
  destruct (waitForDetailTabs (detail o)) as [[]|e]; simpl; [|done].
  intros [= <-]. by exists info.
Qed.

Lemma merged_fields (normalizeKey : string → string) (d : DetailObs)
    (info : gmap string string) :
  let r := extractDetailedInfo normalizeKey d ∪ (VStr <$> info) ∪
           <["nombre" := VStr (default "" (info !! "nombre"))]>
             (<["tipo_empresa" := VStr ""]> ∅) in
  r !! "informacion_general" =
    Some (VRecord match generalTab d with
                  | Some records => getTabInformation normalizeKey records
                  | None => ∅
                  end) ∧
  r !! "actividad_economica" =
    Some (VActivities (getEconomicActivity maxTries 1 (economicTab d))) ∧
  r !! "representante_legal" =
    Some (VStr match representativeTab d with
               | Some (Some text) => text
               | _ => ""
               end) ∧
  r !! "nombre" = Some (VStr (default "" (info !! "nombre"))).
Proof.
  split_and!.
  - rewrite merged_lookup. unfold extractDetailedInfo. by rewrite lookup_insert_eq.
  - rewrite merged_lookup. unfold extractDetailedInfo.
    by rewrite lookup_insert_ne, lookup_insert_eq.
  - rewrite merged_lookup. unfold extractDetailedInfo.
    by rewrite lookup_insert_ne, lookup_insert_ne, lookup_insert_eq.
  - rewrite merged_lookup, detailed_lookup, lookup_fmap.
    + destruct (info !! "nombre"); simpl; [done|]. by rewrite lookup_insert_eq.
    + unfold detailKeys. intros H.
      repeat (apply elem_of_cons in H as [H|H]; [discriminate H|]).
      by apply elem_of_nil in H.
Qed.

(** The record built by [extractInformation] merges three sources with a
    fixed priority: the three detail fields always come from the detail
    tabs, also when the card shows a row with the same key; every other
    field comes from the card; [nombre] and [tipo_empresa] are the empty
    string when the card does not give them. *)
Theorem record_fields (normalizeKey : string → string) (o : SearchObs)
    (r : gmap string RuesValue) :
  extractInformation normalizeKey o = Ok r →
  ∃ info, extractBasicInfo normalizeKey (cards o) = Ok info ∧
    r !! "informacion_general" =
      Some (VRecord match generalTab (detail o) with
                    | Some records => getTabInformation normalizeKey records
                    | None => ∅
                    end) ∧
    r !! "actividad_economica" =
      Some (VActivities (getEconomicActivity maxTries 1 (economicTab (detail o)))) ∧
    r !! "representante_legal" =
      Some (VStr match representativeTab (detail o) with
                 | Some (Some text) => text
                 | _ => ""
                 end) ∧
    r !! "nombre" = Some (VStr (default "" (info !! "nombre"))) ∧
    r !! "tipo_empresa" = Some (VStr (default "" (info !! "tipo_empresa"))) ∧
    ∀ k, k ∉ detailKeys → k ≠ "nombre" → k ≠ "tipo_empresa" →
         r !! k = VStr <$> info !! k.
Proof.
  intros Hr. apply extractInformation_merged in Hr as (info & Hinfo & ->).
  exists info. split; [done|].
  destruct (merged_fields normalizeKey (detail o) info) as (Hg & Ha & Hl & Hn).
  split_and!; try done.
  - rewrite merged_lookup, detailed_lookup, lookup_fmap.
    + destruct (info !! "tipo_empresa"); simpl; [done|].
      by rewrite lookup_insert_ne, lookup_insert_eq.
    + unfold detailKeys. intros H.
      repeat (apply elem_of_cons in H as [H|H]; [discriminate H|]).
      by apply elem_of_nil in H.
  - intros k Hk Hn' Ht. rewrite merged_lookup, detailed_lookup, lookup_fmap; [|done].
    destruct (info !! k); simpl; [done|].
    by rewrite !lookup_insert_ne, lookup_empty.
Qed.

Lemma record_fields_witness :
  ∃ info, extractBasicInfo (fun key => key) (cards found) = Ok info ∧
          shownRecord found !! "nombre" = Some (VStr (default "" (info !! "nombre"))) ∧
          shownRecord found !! "tipo_empresa" =
            Some (VStr (default "" (info !! "tipo_empresa"))).
Proof.
  assert (Hshown : extractInformation (fun key => key) found = Ok (shownRecord found))
    by (vm_compute; reflexivity).
  destruct (record_fields (fun key => key) found (shownRecord found) Hshown)
    as (info & Hinfo & _ & _ & _ & Hnombre & Htipo & _).
  by exists info.
Defined.

(** Every record returned by the search carries the five fields nombre,
    tipo_empresa, informacion_general, actividad_economica and
    representante_legal, each of its own kind. *)
Theorem returned_record_complete (normalizeKey : string → string)
    (w : RecordType → SearchObs) (identification : string)
    (r : gmap string RuesValue) :
  searchByIdentification normalizeKey w identification = Ok r →
  ∃ nombre c general activities representative,
    c ∈ recordTypes ∧
    r !! "nombre" = Some (VStr nombre) ∧
    r !! "tipo_empresa" = Some (VStr (mapRecords c)) ∧
    r !! "informacion_general" = Some (VRecord general) ∧
    r !! "actividad_economica" = Some (VActivities activities) ∧
    r !! "representante_legal" = Some (VStr representative).
Proof.
  intros Hok.
  destruct (searchLoop_found normalizeKey w identification recordTypes true r Hok)
    as (before & c & after & shown & Htypes & _ & _ & Hshown & ->).
  apply extractInformation_merged in Hshown as (info & _ & ->).
  destruct (merged_fields normalizeKey (detail (w c)) info) as (Hg & Ha & Hr & Hn).
  eexists _, c, _, _, _. split_and!.
  - rewrite Htypes. apply elem_of_app. right. apply list_elem_of_here.
  - by rewrite lookup_insert_ne.
  - apply lookup_insert_eq.
  - by rewrite lookup_insert_ne.
  - by rewrite lookup_insert_ne.
  - by rewrite lookup_insert_ne.
Qed.

Lemma returned_record_complete_witness :
  is_Some (searchedRecord scenarioA "900123456" !! "nombre") ∧
  is_Some (searchedRecord scenarioA "900123456" !! "representante_legal").
Proof.
  assert (Hr : searchByIdentification (fun key => key) scenarioA "900123456" =
                 Ok (searchedRecord scenarioA "900123456")) by (vm_compute; reflexivity).
  destruct (returned_record_complete _ _ _ _ Hr)
    as (n & c & g & a & rep & _ & Hn & _ & _ & _ & Hrep).
  split; by eexists.
Defined.

(** *** Rows of a card or of a tab *)

Lemma collectRegistros_other (normalizeKey : string → string) (k : string)
    (rows : list Registro) : ∀ acc : gmap string string,
  (∀ row, row ∈ rows → registroKey normalizeKey row ≠ Some k) →
  collectRegistros normalizeKey rows acc !! k = acc !! k.
Proof.
  unfold collectRegistros.
  induction rows as [|row rows IH]; intros acc Hrows; [done|]. simpl.
  rewrite IH; [|intros row' Hrow'; apply Hrows; by apply list_elem_of_further].
  pose proof (Hrows row ltac:(apply list_elem_of_here)) as Hrow.
  unfold registroKey in Hrow.
  destruct (registroEntry normalizeKey row) as [[key value]|]; [|done].
  apply lookup_insert_ne. intros ->. by apply Hrow.
Qed.

(** When several rows give the same key, the last of them is kept; rows
    without a label or without a value leave the result as it is, and a
    key no row gives keeps what was there before. *)
Theorem collectRegistros_last_wins (normalizeKey : string → string)
    (init : gmap string string) (k : string) (rows : list Registro) :
  (∀ earlier row later value,
     rows = earlier ++ row :: later →
     registroEntry normalizeKey row = Some (k, value) →
     (∀ row', row' ∈ later → registroKey normalizeKey row' ≠ Some k) →
     collectRegistros normalizeKey rows init !! k = Some value) ∧
  ((∀ row, row ∈ rows → registroKey normalizeKey row ≠ Some k) →
   collectRegistros normalizeKey rows init !! k = init !! k).
Proof.
  split; [|apply collectRegistros_other].
  intros earlier row later value -> Hrow Hlater.
  unfold collectRegistros. rewrite fold_left_app. simpl. rewrite Hrow.
  fold (collectRegistros normalizeKey earlier init).
  fold (collectRegistros normalizeKey later
          (<[k:=value]> (collectRegistros normalizeKey earlier init))).
  rewrite collectRegistros_other; [|done]. apply lookup_insert_eq.
Qed.

Lemma collectRegistros_last_wins_witness :
  getTabInformation (fun key => key)
    [ {| etiqueta := Some "estado"; valor := Some "Cancelada" |};
      {| etiqueta := Some " estado "; valor := Some " Activa " |};
      {| etiqueta := Some "estado"; valor := None |};
      {| etiqueta := None; valor := Some "sin etiqueta" |} ] !! "estado" = Some "Activa".
Proof.
  refine (proj1 (collectRegistros_last_wins (fun key => key) ∅ "estado" _)
            [ {| etiqueta := Some "estado"; valor := Some "Cancelada" |} ]
            {| etiqueta := Some " estado "; valor := Some " Activa " |}
            [ {| etiqueta := Some "estado"; valor := None |};
              {| etiqueta := None; valor := Some "sin etiqueta" |} ]
            "Activa" eq_refl eq_refl _).
  intros row' H.
  repeat (apply elem_of_cons in H as [->|H]; [discriminate|]).
  by apply elem_of_nil in H.
Defined.

(** *** The economic-activity tab *)

Lemma getEconomicActivity_skip (tab : nat → option (list Registro)) : ∀ n tries attempt,
  n ≤ tries → emptyBefore tab attempt (attempt + n) →
  getEconomicActivity tries attempt tab =
    getEconomicActivity (tries - n) (attempt + n) tab.
Proof.
  induction n as [|n IH]; intros tries attempt Hn Hempty.
  - by rewrite Nat.sub_0_r, Nat.add_0_r.
  - destruct tries as [|tries]; [lia|]. simpl.
    assert (Hrest : getEconomicActivity tries (S attempt) tab =
                      getEconomicActivity (tries - n) (attempt + S n) tab).
    { rewrite (IH tries (S attempt)); [f_equal; lia|lia|].
      intros j Hj. apply Hempty. lia. }
    destruct (Hempty attempt ltac:(lia)) as [-> | ->]; exact Hrest.
Qed.

Lemma getEconomicActivity_ext (tab tab' : nat → option (list Registro)) : ∀ tries attempt,
  (∀ k, attempt ≤ k < attempt + tries → tab' k = tab k) →
  getEconomicActivity tries attempt tab' = getEconomicActivity tries attempt tab.
Proof.
  induction tries as [|tries IH]; intros attempt Hsame; [done|]. simpl.
  rewrite (Hsame attempt) by lia.
  rewrite (IH (S attempt)); [done|]. intros k Hk. apply Hsame. lia.
Qed.

Lemma getEconomicActivity_codes (tab : nat → option (list Registro)) : ∀ tries attempt item,
  item ∈ getEconomicActivity tries attempt tab → fst item ≠ "".
Proof.
  induction tries as [|tries IH]; intros attempt item Hin; simpl in Hin.
  - by apply elem_of_nil in Hin.
  - destruct (tab attempt) as [[|row rows]|]; try by apply (IH (S attempt)).
    apply list_elem_of_In, filter_In in Hin as [_ Hne].
    intros Hempty. by rewrite Hempty in Hne.
Qed.

(** The economic activities are read at most three times (tries 1 to 3):
    the rows of the first try that shows any row are returned, without
    the rows that lack a code, a description or have an empty code, and
    no further try is made even when none of its rows remains; when the
    tab is missing or empty at all three tries the result is empty.  What
    the tab shows after the third try is never read. *)
Theorem economic_activity (tab : nat → option (list Registro)) :
  (∀ item, item ∈ getEconomicActivity maxTries 1 tab → fst item ≠ "") ∧
  (∀ tab', (∀ k, 1 ≤ k ≤ maxTries → tab' k = tab k) →
           getEconomicActivity maxTries 1 tab' = getEconomicActivity maxTries 1 tab) ∧
  (emptyBefore tab 1 (S maxTries) → getEconomicActivity maxTries 1 tab = []) ∧
  (∀ k row rows,
     1 ≤ k ≤ maxTries → tab k = Some (row :: rows) → emptyBefore tab 1 k →
     getEconomicActivity maxTries 1 tab =
       List.filter (fun item => nonEmpty (fst item)) (omap activityEntry (row :: rows))).
Proof.
  split_and!.
  - apply getEconomicActivity_codes.
  - intros tab' Hsame. apply getEconomicActivity_ext.
    intros k Hk. apply Hsame. unfold maxTries in *. lia.
  - intros Hempty.
    rewrite (getEconomicActivity_skip tab maxTries maxTries 1); [|lia|].
    + by rewrite Nat.sub_diag.
    + intros j Hj. apply Hempty. unfold maxTries in *. lia.
  - intros k row rows Hk Htab Hempty.
    rewrite (getEconomicActivity_skip tab (k - 1) maxTries 1); [|lia|].
    + replace (1 + (k - 1)) with k by lia.
      destruct (maxTries - (k - 1)) as [|left] eqn:Hleft; [lia|].
      simpl. by rewrite Htab.
    + intros j Hj. apply Hempty. lia.
Qed.

Lemma economic_activity_witness :
  getEconomicActivity maxTries 1 lateTab = [("6201", "Desarrollo de software")].
Proof.
  destruct (economic_activity lateTab) as (_ & _ & _ & Hfirst).
  rewrite (Hfirst 3 {| etiqueta := Some " 6201 "; valor := Some "Desarrollo de software" |}
             [ {| etiqueta := Some "  "; valor := Some "sin codigo" |};
               {| etiqueta := None; valor := Some "sin etiqueta" |} ]);
    [reflexivity|unfold maxTries; lia|reflexivity|].
  intros j Hj. assert (j = 1 ∨ j = 2) as [-> | ->] by lia; [by left|by right].
Defined.

(** *** Release of the browser *)

(** [handle] closes the browser and the context in every outcome in which
    it obtained them, whatever the search returns or throws; it makes no
    driver call after the failure of a call other than closing what it
    holds; and it closes the page only when [setupPage] returned: a page
    created by [newPage] whose [goto] rejects is left to the closing of
    the context. *)
Theorem handle_releases (normalizeKey : string → string) (payload : RuesPayload) (W : World) :
  let calls := snd (handle normalizeKey payload W) in
  (Launch ∈ calls → launch W = None → last calls = Some CloseBrowser) ∧
  (NewContext ∈ calls → newContext W = None → CloseContext ∈ calls) ∧
  (ClosePage ∈ calls ↔ Search ∈ calls) ∧
  (launch W ≠ None → calls = [] ∨ calls = [Launch]) ∧
  (Goto ∈ calls → goto W ≠ None → NewPage ∈ calls ∧ ClosePage ∉ calls).
Proof.
  unfold handle.
  destruct (identificationNumber payload) as [[|a s]|]; simpl;
    try (split_and!; [intros H; by apply elem_of_nil in H..|
                      split; intros H; by apply elem_of_nil in H|by left|
                      intros H; by apply elem_of_nil in H]).
  destruct (launch W) as [m1|]; simpl.
  { split_and!; [done| |split|by right|]; intros H;
      repeat (apply elem_of_cons in H as [H|H]; [discriminate H|]);
      by apply elem_of_nil in H. }
  destruct (newContext W) as [m2|]; simpl.
  { split_and!; [done|done|split|done|]; intros H;
      repeat (apply elem_of_cons in H as [H|H]; [discriminate H|]);
      by apply elem_of_nil in H. }
  destruct (newPage W) as [m3|]; simpl.
  { split_and!; [done| |split|done|].
    - intros _ _. repeat first [apply list_elem_of_here | apply list_elem_of_further].
    - intros H. repeat (apply elem_of_cons in H as [H|H]; [discriminate H|]).
      by apply elem_of_nil in H.
    - intros H. repeat (apply elem_of_cons in H as [H|H]; [discriminate H|]).
      by apply elem_of_nil in H.
    - intros H. repeat (apply elem_of_cons in H as [H|H]; [discriminate H|]).
      by apply elem_of_nil in H. }
  destruct (goto W) as [m4|]; simpl.
  { split_and!; [done| |split|done|].
    - intros _ _. repeat first [apply list_elem_of_here | apply list_elem_of_further].
    - intros H. repeat (apply elem_of_cons in H as [H|H]; [discriminate H|]).
      by apply elem_of_nil in H.
    - intros H. repeat (apply elem_of_cons in H as [H|H]; [discriminate H|]).
      by apply elem_of_nil in H.
    - intros _ _. split.
      + repeat first [apply list_elem_of_here | apply list_elem_of_further].
      + intros H. repeat (apply elem_of_cons in H as [H|H]; [discriminate H|]).
        by apply elem_of_nil in H. }
  split_and!; [done| |split|done|done].
  - intros _ _. repeat first [apply list_elem_of_here | apply list_elem_of_further].
  - intros _. repeat first [apply list_elem_of_here | apply list_elem_of_further].
  - intros _. repeat first [apply list_elem_of_here | apply list_elem_of_further].
Qed.

Lemma handle_releases_witness :
  last (snd (handle (fun key => key) gotoFails.1 gotoFails.2)) = Some CloseBrowser ∧
  ClosePage ∉ snd (handle (fun key => key) gotoFails.1 gotoFails.2).
Proof.
  destruct (handle_releases (fun key => key) gotoFails.1 gotoFails.2)
    as (Hlast & _ & _ & _ & Hgoto).
  split.
  - apply Hlast; [|reflexivity]. apply list_elem_of_here.
  - apply Hgoto; [|done].
    repeat first [apply list_elem_of_here | apply list_elem_of_further].
Defined.

End RuesMore.


(** ** The outcome poller: what it can fail with *)
Module PollerMore.
Import Dian PollerNotions PollerFacts PollerMoreNotions.

Lemma default_opt (o : option string) :
  truthyOpt o = true → o = Some (default "" o).
Proof. by destruct o. Qed.

(** One iteration started with [lastModalError] unset: a failure has one
    of six messages, and a continuation leaves [lastModalError] unset. *)
Lemma tick_unset (st : PollerState) (o : TickObs) :
  lastModalError st = None →
  match tick st o with
  | Return _ => True
  | Fail msg =>
      stored o = Some msg ∨ guardError o = Some msg ∨
      readModalError (modalProbe o) = Some msg ∨ waitForTimeout o = Some msg ∨
      msg = reloadedMessage ∨ msg = closedMessage
  | Continue st' => lastModalError st' = None
  end.
Proof.
  intros Hlast. unfold tick. rewrite Hlast.
  destruct (truthyOpt (stored o)) eqn:Hs; [left; by apply default_opt|].
  destruct (truthyOpt (guardError o)) eqn:Hg; [right; left; by apply default_opt|].
  destruct (truthyOpt (readModalError (modalProbe o))) eqn:Hm;
    [right; right; left; by apply default_opt|].
  destruct (truthyOpt (successMessage (successAlert o))); [done|].
  destruct (match errorBlockThrown o with
            | Some thrown => includes thrown closedMarker
            | None => false
            end); simpl; [auto 10|].
  destruct (isClosed o); simpl; [auto 10|].
  destruct (waitForTimeout o); simpl; [auto 10|done].
Qed.

Lemma pollTicks_unset (ticks : list TickObs) : ∀ st e,
  lastModalError st = None → pollTicks st ticks = Throw e →
  e = plainError (message e) ∧ failureMessage ticks (message e).
Proof.
  induction ticks as [|o rest IH]; intros st e Hlast Hthrow; simpl in Hthrow.
  - rewrite Hlast in Hthrow. injection Hthrow as <-. split; [done|].
    right. right. by right.
  - pose proof (tick_unset st o Hlast) as Htick.
    destruct (tick st o) as [msg|msg|st'] eqn:Ht; [done| |].
    + injection Hthrow as <-. split; [done|]. simpl.
      destruct Htick as [H|[H|[H|[H|[H|H]]]]];
        [left; exists o; split; [apply list_elem_of_here|auto]..|
         right; by left|right; right; by left].
    + destruct (IH st' e Htick Hthrow) as [He Hmsg]. split; [done|].
      destruct Hmsg as [(o' & Ho' & H)|H]; [|by right].
      left. exists o'. split; [by apply list_elem_of_further|done].
Qed.

(** [lastModalError] is still unset whenever an iteration starts, so the
    fallbacks [lastModalError ?? ...] always give their generic message;
    and a failure of the poller carries one of these messages only: the
    persisted error, the live error of the guard, the text of the visible
    modal, the rejection of the 100 ms wait, or one of the three generic
    messages (reloaded, closed, no confirmation).  The text of the error
    alert, of the toast, and the messages of the initial-screen check are
    not among them. *)
Theorem poller_failures (ticks : list TickObs) :
  (∀ before after st, ticks = before ++ after →
     continued initialState before = Some st → lastModalError st = None) ∧
  (∀ e, waitForResultMessage ticks = Throw e →
        e = plainError (message e) ∧ failureMessage ticks (message e)).
Proof.
  split.
  - intros before after st _. clear ticks after.
    assert (Hgen : ∀ st0, lastModalError st0 = None →
              continued st0 before = Some st → lastModalError st = None).
    { induction before as [|o rest IH]; intros st0 H0 Hc; simpl in Hc.
      - by injection Hc as <-.
      - pose proof (tick_unset st0 o H0) as Htick.
        destruct (tick st0 o) as [msg|msg|st']; [done|done|]. by apply (IH st'). }
    by apply Hgen.
  - intros e. by apply pollTicks_unset.
Qed.

Lemma poller_failures_witness :
  failureMessage [quiet; modalAndSuccess] "Error - Usuario no autorizado".
Proof.
  destruct (poller_failures [quiet; modalAndSuccess]) as [_ Hfail].
  destruct (Hfail (plainError "Error - Usuario no autorizado") eq_refl) as [_ Hmsg].
  exact Hmsg.
Defined.





(** *** The text of the modal *)

Lemma modalText_cases (doc : Document) :
  modalText doc =
    let title := trim (default "" (errorModalTitle doc)) in
    let text := trim (default "" (errorModalMessage doc)) in
    match nonEmpty title, nonEmpty text with
    | true, true => title +:+ " - " +:+ text
    | true, false => title
    | false, true => text
    | false, false => defaultModalText
    end.
Proof.
  unfold modalText. simpl.
  destruct (trim (default "" (errorModalTitle doc))) as [|a s];
    destruct (trim (default "" (errorModalMessage doc))) as [|b u]; reflexivity.
Qed.

Lemma modalText_nonEmpty (doc : Document) : nonEmpty (modalText doc) = true.
Proof.
  rewrite modalText_cases. simpl.
  destruct (trim (default "" (errorModalTitle doc))) as [|a s];
    destruct (trim (default "" (errorModalMessage doc))) as [|b u]; reflexivity.
Qed.



End PollerMore.


(** ** The modal guard within a document and across reloads *)
Module GuardMore.
Import Dian GuardNotions GuardFacts DianInPage GuardMoreNotions.

Lemma run_app (p : Page) (events later : list PageEvent) :
  run p (events ++ later) = run (run p events) later.
Proof. unfold run. apply fold_left_app. Qed.

Lemma run_initScripts (events : list PageEvent) : ∀ p,
  initScripts (run p events) = initScripts p.
Proof.
  induction events as [|e rest IH]; intros p; [done|].
  change (run p (e :: rest)) with (run (step p e) rest). by rewrite IH.
Qed.

Lemma run_views (events : list PageEvent) : ∀ p v,
  0 < initScripts p → views (tab p) v →
  views (tab (run p events)) (viewRun v events).
Proof.
  induction events as [|e rest IH]; intros p v Hn Hv; [done|].
  change (run p (e :: rest)) with (run (step p e) rest).
  change (viewRun v (e :: rest)) with (viewRun (viewStep v e) rest).
  apply IH; [done|]. by apply step_views.
Qed.

(** After a new document and its DOMContentLoaded every page that holds
    the script is guarded. *)
Lemma loaded_views (p : Page) (doc : Document) :
  0 < initScripts p →
  views (tab (run p [NewDocument doc; DOMContentLoaded]))
        (Guarding (capturedState doc (sessionError (tab p))) doc
                  (capturedStored doc (sessionError (tab p))) (navigations (tab p))).
Proof.
  intros Hn.
  change (run p [NewDocument doc; DOMContentLoaded])
    with (step (step p (NewDocument doc)) DOMContentLoaded).
  apply (step_views (step p (NewDocument doc)) DOMContentLoaded
           (Waiting doc (sessionError (tab p)) (navigations (tab p)))); [done|].
  simpl. by apply newDocument_views.
Qed.

Lemma viewStep_grows (e : PageEvent) st doc stored navs :
  sameDocument e = true →
  ∃ st' doc' stored' navs',
    viewStep (Guarding st doc stored navs) e = Guarding st' doc' stored' navs' ∧
    grows (Guarding st doc stored navs) (Guarding st' doc' stored' navs').
Proof.
  intros He. destruct e as [d| |d|d|f a now]; [done|..]; simpl.
  1, 3: eexists _, _, _, _; (split; [reflexivity|]); simpl; by split_and!.
  - destruct (isModalVisible d); eexists _, _, _, _; (split; [reflexivity|]); simpl;
      split_and!; try done; try (by intros _; eexists).
  - destruct (isModalVisible doc); eexists _, _, _, _; (split; [reflexivity|]); simpl;
      split_and!; try done; try (by intros _; eexists); try (by apply prefix_app_r).
Qed.

Lemma viewRun_grows (events : list PageEvent) : ∀ st doc stored navs,
  forallb sameDocument events = true →
  ∃ st' doc' stored' navs',
    viewRun (Guarding st doc stored navs) events = Guarding st' doc' stored' navs' ∧
    grows (Guarding st doc stored navs) (Guarding st' doc' stored' navs').
Proof.
  induction events as [|e rest IH]; intros st doc stored navs Hall.
  - eexists _, _, _, _. split; [done|]. simpl. by split_and!.
  - simpl in Hall. apply andb_true_iff in Hall as [He Hrest].
    destruct (viewStep_grows e st doc stored navs He)
      as (st1 & doc1 & stored1 & navs1 & Hstep & Hl1 & Hb1 & Hn1 & Hs1).
    destruct (IH st1 doc1 stored1 navs1 Hrest)
      as (st2 & doc2 & stored2 & navs2 & Hrun & Hl2 & Hb2 & Hn2 & Hs2).
    exists st2, doc2, stored2, navs2. split.
    + change (viewRun (Guarding st doc stored navs) (e :: rest))
        with (viewRun (viewStep (Guarding st doc stored navs) e) rest).
      by rewrite Hstep.
    + simpl. split_and!; [auto|by etrans|by etrans|auto].
Qed.

(** A page loaded with the script, and then any events of that document,
    is guarded. *)
Lemma guarded_views (p : Page) (doc : Document) (events : list PageEvent) :
  0 < initScripts p → forallb sameDocument events = true →
  ∃ st doc' stored navs,
    views (tab (run p (NewDocument doc :: DOMContentLoaded :: events)))
          (Guarding st doc' stored navs).
Proof.
  intros Hn Hall.
  change (NewDocument doc :: DOMContentLoaded :: events)
    with ([NewDocument doc; DOMContentLoaded] ++ events).
  rewrite run_app.
  destruct (viewRun_grows events (capturedState doc (sessionError (tab p))) doc
              (capturedStored doc (sessionError (tab p))) (navigations (tab p)) Hall)
    as (st & doc' & stored & navs & Hrun & _).
  exists st, doc', stored, navs. rewrite <- Hrun.
  apply run_views; [by rewrite run_initScripts|by apply loaded_views].
Qed.

(** After a reload the guard starts from what was persisted: the error
    field of the new document is the text of the modal when the modal is
    visible at DOMContentLoaded, otherwise the error persisted before the
    reload, otherwise unset; the log of blocked navigations starts empty
    and the persisted error is kept. *)
Theorem reload_restores (p : Page) (doc : Document) :
  0 < initScripts p →
  (isModalVisible doc = true →
     observe (run p [NewDocument doc; DOMContentLoaded]) =
       {| seenState := Some {| lastError := Some (modalText doc);
                               blockedRedirects := [] |};
          seenStored := Some (modalText doc);
          seenNavigations := navigations (tab p) |}) ∧
  (isModalVisible doc = false → truthyOpt (sessionError (tab p)) = true →
     observe (run p [NewDocument doc; DOMContentLoaded]) =
       {| seenState := Some {| lastError := sessionError (tab p);
                               blockedRedirects := [] |};
          seenStored := sessionError (tab p);
          seenNavigations := navigations (tab p) |}) ∧
  (isModalVisible doc = false → truthyOpt (sessionError (tab p)) = false →
     observe (run p [NewDocument doc; DOMContentLoaded]) =
       {| seenState := Some {| lastError := None; blockedRedirects := [] |};
          seenStored := sessionError (tab p);
          seenNavigations := navigations (tab p) |}).
Proof.
  intros Hn.
  rewrite (views_observe _ _ (loaded_views p doc Hn)).
  unfold observeView, capturedState, capturedStored.
  split_and!; intros Hv; rewrite Hv; [done|..]; by intros ->.
Qed.

Lemma reload_restores_witness :
  observe (run pageWithStoredError [NewDocument hiddenModal; DOMContentLoaded]) =
    {| seenState := Some {| lastError := Some "Error - Usuario no autorizado";
                            blockedRedirects := [] |};
       seenStored := Some "Error - Usuario no autorizado";
       seenNavigations := [(Reload, [])] |}.
Proof.
  refine (proj1 (proj2 (reload_restores pageWithStoredError hiddenModal _))
            eq_refl eq_refl).
  simpl. lia.
Defined.



(** Within one document the guard never loses what it recorded: over any
    events of a loaded page that do not replace the document, the error
    field stays set once it is set (hiding the modal does not clear it),
    the log of blocked navigations and the list of navigations carried
    out only grow at their end, and the persisted error is not removed. *)
Theorem guard_keeps_records (p : Page) (doc : Document) (events later : list PageEvent) :
  0 < initScripts p →
  forallb sameDocument events = true → forallb sameDocument later = true →
  let q := run p (NewDocument doc :: DOMContentLoaded :: events) in
  ∃ st st',
    seenState (observe q) = Some st ∧
    seenState (observe (run q later)) = Some st' ∧
    (is_Some (lastError st) → is_Some (lastError st')) ∧
    blockedRedirects st `prefix_of` blockedRedirects st' ∧
    seenNavigations (observe q) `prefix_of` seenNavigations (observe (run q later)) ∧
    (is_Some (seenStored (observe q)) → is_Some (seenStored (observe (run q later)))).
Proof.
  intros Hn Hall Hlater q.
  destruct (guarded_views p doc events Hn Hall) as (st & doc' & stored & navs & Hq).
  fold q in Hq.
  assert (Hnq : 0 < initScripts q) by (unfold q; by rewrite run_initScripts).
  destruct (viewRun_grows later st doc' stored navs Hlater)
    as (st' & doc2 & stored' & navs' & Hrun & Hl & Hb & Hnav & Hs).
  pose proof (run_views later q _ Hnq Hq) as Hq'. rewrite Hrun in Hq'.
  rewrite (views_observe q _ Hq), (views_observe (run q later) _ Hq'). simpl.
  by exists st, st'.
Qed.

Lemma guard_keeps_records_witness :
  ∃ st', seenState (observe (run (run (setupModalGuards blankPage)
                                   [NewDocument hiddenModal; DOMContentLoaded])
                              flicker)) = Some st' ∧
         is_Some (lastError st') ∧ length (blockedRedirects st') = 1.
Proof.
  destruct (guard_keeps_records (setupModalGuards blankPage) hiddenModal
              [Mutation shownModal; Navigate Replace ["/User/Login"] 1730000000700]
              [Mutation hiddenModal; Navigate Assign ["/User/Login"] 1730000000900])
    as (st & st' & Hst & Hst' & Hl & Hb & _); [simpl; lia|reflexivity|reflexivity|].
  exists st'. split; [exact Hst'|].
  assert (Hs : Some st' = seenState (observe (run (run (setupModalGuards blankPage)
                  [NewDocument hiddenModal; DOMContentLoaded]) flicker))) by done.
  vm_compute in Hs. injection Hs as ->. split; [by eexists|reflexivity].
Defined.

(** *** From the guard to the poller *)

Lemma viewStep_stored (v : View) (e : PageEvent) :
  truthyOpt (viewStored v) = true → truthyOpt (viewStored (viewStep v e)) = true.
Proof.
  destruct v as [d stored navs|st d stored navs];
    destruct e as [d'| |d'|d'|f a now]; simpl; try done.
  - unfold capturedStored. destruct (isModalVisible d); [|done].
    intros _. apply PollerMore.modalText_nonEmpty.
  - destruct (isModalVisible d'); [|done]. intros _. apply PollerMore.modalText_nonEmpty.
  - destruct (isModalVisible d); [|done]. intros _. apply PollerMore.modalText_nonEmpty.
Qed.

Lemma viewRun_stored (events : list PageEvent) : ∀ v,
  truthyOpt (viewStored v) = true → truthyOpt (viewStored (viewRun v events)) = true.
Proof.
  induction events as [|e rest IH]; intros v Hv; [done|].
  apply (IH (viewStep v e)). by apply viewStep_stored.
Qed.

Lemma views_stored (t : Tab) (v : View) : views t v → sessionError t = viewStored v.
Proof. destruct v; by intros (_ & _ & -> & _). Qed.

(** A modal that the guard has observed reaches the poller whatever
    happens next: once a DOM change shows the modal on a loaded page,
    after any further events (the modal hidden again, navigation calls,
    even a reload of the document) the persisted error holds a non-empty
    text, the next iteration of the poller that reads it fails with that
    text, and reading it removes it from the storage while the state
    behind the marker is left as it is. *)
Theorem observed_modal_reaches_poller (p : Page) (doc shown : Document)
    (events later : list PageEvent) :
  0 < initScripts p → forallb sameDocument events = true →
  isModalVisible shown = true →
  let q := run p (NewDocument doc :: DOMContentLoaded :: events ++ Mutation shown :: later) in
  ∃ text,
    fst (consumeStoredModalError (tab q)) = Some text ∧
    nonEmpty text = true ∧
    (∀ st o, stored o = Some text → tick st o = Fail text) ∧
    fst (consumeStoredModalError (snd (consumeStoredModalError (tab q)))) = None ∧
    getModalState (snd (consumeStoredModalError (tab q))) = getModalState (tab q).
Proof.
  intros Hn Hall Hshown q.
  destruct (guarded_views p doc events Hn Hall) as (st & doc' & stored & navs & Hq0).
  set (q0 := run p (NewDocument doc :: DOMContentLoaded :: events)) in *.
  assert (Hq : q = run q0 (Mutation shown :: later)).
  { unfold q, q0.
    change (NewDocument doc :: DOMContentLoaded :: events ++ Mutation shown :: later)
      with ((NewDocument doc :: DOMContentLoaded :: events) ++ Mutation shown :: later).
    apply run_app. }
  assert (Hn0 : 0 < initScripts q0) by (unfold q0; by rewrite run_initScripts).
  pose proof (run_views (Mutation shown :: later) q0 _ Hn0 Hq0) as Hviews.
  rewrite <- Hq in Hviews.
  assert (Htruthy : truthyOpt (sessionError (tab q)) = true).
  { rewrite (views_stored _ _ Hviews).
    change (viewRun (Guarding st doc' stored navs) (Mutation shown :: later))
      with (viewRun (viewStep (Guarding st doc' stored navs) (Mutation shown)) later).
    apply viewRun_stored. simpl. rewrite Hshown. simpl.
    apply PollerMore.modalText_nonEmpty. }
  destruct (sessionError (tab q)) as [text|] eqn:Hstored; [|done].
  exists text. unfold consumeStoredModalError. rewrite Hstored. simpl in *.
  rewrite Htruthy. simpl. split_and!; try done.
  intros st0 o Ho. unfold tick. rewrite Ho. simpl. by rewrite Htruthy.
Qed.

Lemma observed_modal_reaches_poller_witness :
  fst (consumeStoredModalError
         (tab (run (setupModalGuards blankPage)
                 [NewDocument hiddenModal; DOMContentLoaded; Mutation shownModal;
                  Mutation hiddenModal; NewDocument hiddenModal; DOMContentLoaded]))) =
    Some "Error - Usuario no autorizado".
Proof.
  destruct (observed_modal_reaches_poller (setupModalGuards blankPage) hiddenModal
              shownModal []
              [Mutation hiddenModal; NewDocument hiddenModal; DOMContentLoaded])
    as (text & Htext & _); [simpl; lia|reflexivity|reflexivity|].
  simpl app in Htext. rewrite Htext.
  assert (Hs : Some text = fst (consumeStoredModalError
         (tab (run (setupModalGuards blankPage)
                 [NewDocument hiddenModal; DOMContentLoaded; Mutation shownModal;
                  Mutation hiddenModal; NewDocument hiddenModal; DOMContentLoaded]))))
    by done.
  vm_compute in Hs. by injection Hs as ->.
Defined.

End GuardMore.

(** ** The proxy pool *)
Module ProxiesFacts.
Import Proxies ProxiesNotions.

Lemma split_cons (sep : ascii) (s : string) : ∃ part parts, split sep s = part :: parts.
Proof.
  induction s as [|c s IH]; simpl; [by eexists _, _|].
  destruct (Ascii.eqb c sep); [by eexists _, _|].
  destruct IH as (part & parts & ->). by eexists _, _.
Qed.

Lemma split_free (sep : ascii) (s : string) :
  sepFree sep s = true → split sep s = [s].
Proof.
  induction s as [|c s IH]; simpl; [done|].
  intros [Hc Hs]%andb_true_iff. apply negb_true_iff in Hc. rewrite Hc.
  by rewrite (IH Hs).
Qed.

Lemma split_app (sep : ascii) (a b : string) :
  sepFree sep a = true → split sep (a +:+ String sep b) = a :: split sep b.
Proof.
  induction a as [|c a IH]; simpl.
  - intros _. by rewrite Ascii.eqb_refl.
  - intros [Hc Ha]%andb_true_iff. apply negb_true_iff in Hc. rewrite Hc.
    by rewrite (IH Ha).
Qed.

Lemma colon_append (s : string) : ":" +:+ s = String ":" s.
Proof. reflexivity. Qed.

(** Splitting an entry at the colons loses nothing: joining the parts
    with colons gives the entry back; and an entry made of four parts
    without colon yields exactly these parts, as server
    "http://ip:port", username and password.  With fewer than four parts
    the missing ones are undefined, and parts after the fourth are
    ignored. *)
Theorem proxy_entry (ip port user pass : string) :
  (∀ s, join ":" (split ":" s) = s) ∧
  (sepFree ":" ip = true → sepFree ":" port = true → sepFree ":" user = true →
   (sepFree ":" pass = true →
    proxyConfig (ip +:+ ":" +:+ port +:+ ":" +:+ user +:+ ":" +:+ pass) =
      {| server := "http://" +:+ ip +:+ ":" +:+ port;
         username := Some user;
         password := Some pass |}) ∧
   (∀ extra,
    sepFree ":" pass = true →
    proxyConfig (ip +:+ ":" +:+ port +:+ ":" +:+ user +:+ ":" +:+ pass +:+ ":" +:+ extra) =
      {| server := "http://" +:+ ip +:+ ":" +:+ port;
         username := Some user;
         password := Some pass |}) ∧
   proxyConfig (ip +:+ ":" +:+ port +:+ ":" +:+ user) =
     {| server := "http://" +:+ ip +:+ ":" +:+ port;
        username := Some user;
        password := None |} ∧
   proxyConfig ip =
     {| server := "http://" +:+ ip +:+ ":undefined";
        username := None;
        password := None |}).
Proof.
  split.
  - intros s. induction s as [|c s IH]; [done|]. simpl split.
    destruct (split_cons ":" s) as (part & parts & Hs). rewrite Hs in IH |- *.
    destruct (Ascii.eqb_spec c ":") as [->|Hc].
    + change (join ":" ("" :: part :: parts))
        with (String ":" (join ":" (part :: parts))).
      by rewrite IH.
    + assert (Hjoin : join ":" (String c part :: parts) =
                        String c (join ":" (part :: parts))) by (by destruct parts).
      by rewrite Hjoin, IH.
  - intros Hip Hport Huser. unfold proxyConfig. split_and!.
    + intros Hpass. rewrite !(colon_append (_ +:+ _)), (colon_append pass).
      rewrite (split_app ":" ip), (split_app ":" port), (split_app ":" user),
        (split_free ":" pass); [|done..].
      simpl. by rewrite colon_append.
    + intros extra Hpass. rewrite !(colon_append (_ +:+ _)), (colon_append extra).
      rewrite (split_app ":" ip), (split_app ":" port), (split_app ":" user),
        (split_app ":" pass); [|done..].
      destruct (split_cons ":" extra) as (part & parts & ->).
      simpl. by rewrite colon_append.
    + rewrite (colon_append (_ +:+ _)), (colon_append user).
      rewrite (split_app ":" ip), (split_app ":" port), (split_free ":" user); [|done..].
      simpl. by rewrite colon_append.
    + by rewrite (split_free ":" ip).
Qed.

Lemma proxy_entry_witness :
  proxyConfig "142.111.48.253:7030:hzggpbol:xqrp7h734xyj" =
    {| server := "http://142.111.48.253:7030";
       username := Some "hzggpbol";
       password := Some "xqrp7h734xyj" |}.
Proof.
  destruct (proxy_entry "142.111.48.253" "7030" "hzggpbol" "xqrp7h734xyj") as [_ Hparts].
  destruct (Hparts eq_refl eq_refl eq_refl) as (Hfour & _).
  exact (Hfour eq_refl).
Defined.

Lemma cursorAfter_mod (proxies : list string) (i : nat) :
  proxies ≠ [] → i < length proxies →
  ∀ k, cursorAfter proxies k i = (i + k) mod length proxies.
Proof.
  intros Hne Hi k. induction k as [|k IH].
  - unfold cursorAfter. simpl. rewrite Nat.add_0_r. symmetry. by apply Nat.mod_small.
  - unfold cursorAfter in *. rewrite Nat.iter_succ, IH. unfold getNextProxyFrom.
    destruct (Nat.eqb_spec (length proxies) 0) as [H0|_]; [by destruct proxies|].
    cbn [snd]. rewrite Nat.Div0.add_mod_idemp_l. f_equal. lia.
Qed.

(** The pool is served in a circle: from a cursor inside a non-empty
    pool, call number k hands out the entry at position (cursor + k)
    modulo the size of the pool and never nothing; the cursor stays
    inside the pool; the sequence repeats after as many calls as the pool
    has entries, and every entry is handed out within that many calls. *)
Theorem proxy_rotation (proxies : list string) (i : nat) :
  proxies ≠ [] → i < length proxies →
  (∀ k, served proxies k i = proxyConfig <$> proxies !! ((i + k) mod length proxies)) ∧
  (∀ k, is_Some (served proxies k i)) ∧
  (∀ k, cursorAfter proxies k i < length proxies) ∧
  (∀ k, served proxies (k + length proxies) i = served proxies k i) ∧
  (∀ j proxy, proxies !! j = Some proxy →
     ∃ k, k < length proxies ∧ served proxies k i = Some (proxyConfig proxy)).
Proof.
  intros Hne Hi.
  assert (Hn : length proxies ≠ 0) by (by destruct proxies).
  assert (Hserved : ∀ k, served proxies k i =
            proxyConfig <$> proxies !! ((i + k) mod length proxies)).
  { intros k. unfold served. rewrite (cursorAfter_mod proxies i Hne Hi).
    unfold getNextProxyFrom. destruct (Nat.eqb_spec (length proxies) 0); [done|].
    simpl. by rewrite Nat.Div0.mod_mod. }
  split_and!.
  - done.
  - intros k. rewrite Hserved.
    destruct (lookup_lt_is_Some_2 proxies ((i + k) mod length proxies)) as [proxy ->];
      [by apply Nat.mod_upper_bound|]. by eexists.
  - intros k. rewrite (cursorAfter_mod proxies i Hne Hi). by apply Nat.mod_upper_bound.
  - intros k. rewrite !Hserved. do 2 f_equal.
    rewrite Nat.add_assoc. rewrite <- (Nat.mul_1_l (length proxies)) at 1.
    by rewrite Nat.Div0.mod_add.
  - intros j proxy Hj. pose proof (lookup_lt_Some _ _ _ Hj) as Hlt.
    exists ((j + length proxies - i) mod length proxies). split.
    + by apply Nat.mod_upper_bound.
    + rewrite Hserved, Nat.Div0.add_mod_idemp_r.
      replace (i + (j + length proxies - i)) with (j + 1 * length proxies) by lia.
      rewrite Nat.Div0.mod_add, Nat.mod_small; [|done]. by rewrite Hj.
Qed.

Lemma proxy_rotation_witness :
  fst (getNextProxy 9) =
    Some {| server := "http://142.111.67.146:5611";
            username := Some "hzggpbol";
            password := Some "xqrp7h734xyj" |}
  ∧ snd (getNextProxy 9) = 0.
Proof.
  destruct (proxy_rotation WEBSHARE_PROXIES 9) as (Hserved & _ & _ & _ & _);
    [done|simpl; lia|].
  split; [exact (Hserved 0)|reflexivity].
Defined.

End ProxiesFacts.

(** ** The challenge solver as a whole *)
Module CaptchaMore.
Import Captcha CaptchaNotions CaptchaFacts.



Lemma pollLoop_waits (polls : nat → PollReply) : ∀ remaining,
  pollCount (snd (pollLoop remaining polls)) ≤ remaining ∧
  (0 ≤ sleptTotal (snd (pollLoop remaining polls))
     ≤ pollDelay * Z.of_nat (pollCount (snd (pollLoop remaining polls))))%Z.
Proof.
  induction remaining as [|r IH]; [by compute|].
  rewrite (pollLoop_head polls (S r)) by lia. replace (S r - 1) with r by lia.
  destruct IH as [Hcount Hslept]. unfold pollCount, sleptTotal, pollDelay in *.
  destruct (polls (maxAttempts - S r)); simpl in *; lia.
Qed.




(** The solver never polls more than 15 times and never pauses for more
    than 7000 ms per poll, 105000 ms in all, whatever the services
    answer. *)
Theorem waiting_bound (w : CaptchaWorld) :
  pollCount (snd (resolveCaptcha w)) ≤ maxAttempts ∧
  (sleptTotal (snd (resolveCaptcha w))
     ≤ pollDelay * Z.of_nat (pollCount (snd (resolveCaptcha w))) ≤ 105000)%Z.
Proof.
  assert (H2 : pollCount (snd (solveCaptcha2Captcha w)) ≤ maxAttempts ∧
               (sleptTotal (snd (solveCaptcha2Captcha w))
                  ≤ pollDelay * Z.of_nat (pollCount (snd (solveCaptcha2Captcha w))))%Z).
  { unfold solveCaptcha2Captcha.
    destruct (submit w) as [msg|[|] captchaId];
      try (unfold pollCount, sleptTotal, pollDelay, maxAttempts; simpl; lia).
    destruct (pollLoop_waits (polls w) maxAttempts) as [Hc Hs].
    destruct (pollLoop maxAttempts (polls w)) as [solution polled].
    unfold pollCount, sleptTotal in *. simpl in *. lia. }
  unfold resolveCaptcha.
  destruct (truthyOpt (solveCaptchaAntiCaptcha w));
    [unfold pollCount, sleptTotal, pollDelay, maxAttempts; simpl; lia|].
  destruct (solveCaptcha2Captcha w) as [solution later].
  unfold pollCount, sleptTotal, pollDelay, maxAttempts in *. simpl in *. lia.
Qed.

End CaptchaMore.

(** ** The token-by-email flow as a whole *)

Module DianHandlerMore.
Import JS Dian DianHandlerNotions DianHandlerMoreNotions DianHandlerTactics.

(** Whatever happens, [handle] closes exactly what it opened: the browser
    is closed if and only if it was launched, the context if and only if
    it was created, the page if and only if it was opened, and when a
    browser was launched closing it is the last call made. *)
Theorem closes_what_it_opens (payload : DianTokenEmailPayload) (w : World) :
  let calls := snd (handle payload w) in
  (CloseBrowser ∈ calls ↔ Launch ∈ calls ∧ launch w = None) ∧
  (CloseContext ∈ calls ↔ NewContext ∈ calls ∧ newContext w = None) ∧
  (ClosePage ∈ calls ↔ NewPage ∈ calls ∧ newPage w = None) ∧
  (CloseBrowser ∈ calls → last calls = Some CloseBrowser).
Proof.
  handle_cases payload w; split_and!; try split; membership.
Qed.

(** A successful result carries the message the polling returned, no
    error and no screenshot; any other result carries an error and no
    message.  The origin of the payload is handed back in both.  A
    screenshot is attempted exactly when the flow failed with a page open
    outside Lambda, and the result has one exactly when that attempt
    yielded a non-empty image. *)
Theorem result_shape (payload : DianTokenEmailPayload) (w : World) :
  let r := fst (handle payload w) in
  let calls := snd (handle payload w) in
  res_origin r = origin payload ∧
  (if res_success r
   then res_error r = None ∧ res_screenshot r = None ∧ Poll ∈ calls ∧
        ∃ msg, res_message r = Some msg ∧ waitForResultMessage (ticks w) = Ok msg
   else res_message r = None ∧ is_Some (res_error r)) ∧
  (Screenshot ∈ calls ↔
     res_success r = false ∧ isLambda w = false ∧ NewPage ∈ calls ∧ newPage w = None) ∧
  (∀ shot, res_screenshot r = Some shot ↔
     Screenshot ∈ calls ∧ screenshotData w = Some shot ∧ nonEmpty shot = true).
Proof.
  assert (Hshot : ∀ shot,
            (if truthyOpt (screenshotData w) then screenshotData w else None) = Some shot ↔
            screenshotData w = Some shot ∧ nonEmpty shot = true).
  { intros shot. destruct (screenshotData w) as [[|c data]|]; simpl;
      split; try done; try (by intros [[= <-] ?]); try (by intros [[=] ?]).
    by intros [= <-]. }
  handle_cases payload w; split_and!; try done; try (by eexists);
    try (by repeat constructor);
    try (split; membership; fail).
  all: try (intros shot; rewrite ?Hshot; split; membership; fail).
Qed.

Lemma poll_after_login (payload : DianTokenEmailPayload) (w : World) :
  Poll ∈ snd (handle payload w) →
  interactWithLoginForm (login w) = Ok tt ∧ missingFields payload = [].
Proof. handle_cases payload w; membership. Qed.

Lemma login_needs_token (o : LoginObs) :
  interactWithLoginForm o = Ok tt →
  truthyOpt (siteKey o) = true ∧
  truthyOpt (fst (Captcha.resolveCaptcha (captcha o))) = true ∧
  (clickSubmit o = None ∨ forceClickSubmit o = None).
Proof.
  unfold interactWithLoginForm, solveTurnstileCaptcha, clickWithRetry, await.
  destruct (waitLegalRepresentative o); try done.
  destruct (clickLegalRepresentative o), (forceClickLegalRepresentative o); try done;
    (destruct (waitForm o); try done;
     destruct (fillForm o); try done;
     destruct (waitCaptcha o); try done;
     destruct (truthyOpt (siteKey o)); try done;
     cbn [bind mbind];
     destruct (truthyOpt (fst (Captcha.resolveCaptcha (captcha o)))) eqn:Htoken;
     try done;
     destruct (waitCaptchaInput o); try done; cbn; rewrite ?Htoken; try done;
     destruct (clickSubmit o), (forceClickSubmit o); try done; auto).
Qed.

(** The result is polled for only after the login form went through: the
    payload was complete, the captcha element had a site key, a provider
    returned a token, and every step of the form completed (a click at
    least on its forced retry). *)
Theorem poll_needs_token (payload : DianTokenEmailPayload) (w : World) :
  Poll ∈ snd (handle payload w) →
  missingFields payload = [] ∧
  truthyOpt (siteKey (login w)) = true ∧
  truthyOpt (fst (Captcha.resolveCaptcha (captcha (login w)))) = true ∧
  interactWithLoginForm (login w) = Ok tt ∧
  (clickSubmit (login w) = None ∨ forceClickSubmit (login w) = None).
Proof.
  intros H. apply poll_after_login in H as [Hlogin Hm].
  destruct (login_needs_token (login w) Hlogin) as (Hkey & Htoken & Hclick).
  by split_and!.
Qed.

Lemma poll_needs_token_witness :
  truthyOpt (fst (Captcha.resolveCaptcha (captcha (login emptyWorld)))) = true.
Proof.
  assert (H : Poll ∈ snd (handle fullPayload emptyWorld)) by (by repeat constructor).
  exact (proj1 (proj2 (proj2 (poll_needs_token fullPayload emptyWorld H)))).
Defined.

(** When no provider returns a token, the form is not submitted and the
    result is not polled for: the flow fails with the message that the
    captcha could not be solved, provided the steps before the captcha
    completed. *)
Theorem captcha_unsolved (payload : DianTokenEmailPayload) (w : World) :
  truthyOpt (fst (Captcha.resolveCaptcha (captcha (login w)))) = false →
  (Poll ∉ snd (handle payload w)) ∧
  (∀ e, interactWithLoginForm (login w) = Throw e →
        waitLegalRepresentative (login w) = None →
        clickWithRetry (clickLegalRepresentative (login w))
                       (forceClickLegalRepresentative (login w)) = Ok tt →
        waitForm (login w) = None → fillForm (login w) = None →
        waitCaptcha (login w) = None → truthyOpt (siteKey (login w)) = true →
        e = plainError "No se pudo resolver el captcha Turnstile").
Proof.
  intros Htoken. split.
  - intros H. apply poll_after_login in H as [H _].
    apply login_needs_token in H as (_ & H & _). congruence.
  - intros e He H1 H2 H3 H4 H5 H6. revert He.
    unfold interactWithLoginForm, solveTurnstileCaptcha.
    rewrite H1, H2, H3, H4, H5, H6, Htoken. cbn. congruence.
Qed.

Lemma captcha_unsolved_witness :
  (Poll ∉ snd (handle fullPayload noTokenWorld)) ∧
  interactWithLoginForm (login noTokenWorld) =
    Throw (plainError "No se pudo resolver el captcha Turnstile").
Proof.
  destruct (captcha_unsolved fullPayload noTokenWorld eq_refl) as [Hpoll Herror].
  split; [exact Hpoll|].
  destruct (interactWithLoginForm (login noTokenWorld)) as [[]|e] eqn:He;
    [discriminate He|].
  f_equal. exact (Herror e eq_refl eq_refl eq_refl eq_refl eq_refl eq_refl eq_refl).
Defined.

End DianHandlerMore.

(** ** The certificate flow *)

Module DianAuthFacts.
Import JS DianAuth DianAuthNotions DianAuthTactics.

Lemma fst_bindFlow {A B : Type} (m : Flow A) (k : A → Flow B) :
  fst (bindFlow m k) =
    match fst m with Ok a => fst (k a) | Throw e => Throw e end.
Proof. destruct m as [[a|e] calls]; [|done]. simpl. by destruct (k a). Qed.

Lemma snd_bindFlow {A B : Type} (m : Flow A) (k : A → Flow B) :
  snd (bindFlow m k) =
    snd m ++ match fst m with Ok a => snd (k a) | Throw _ => [] end.
Proof.
  destruct m as [[a|e] calls]; simpl; [by destruct (k a)|by rewrite app_nil_r].
Qed.

Lemma elem_of_bindFlow {A B : Type} (c : Call) (m : Flow A) (k : A → Flow B) :
  c ∈ snd (bindFlow m k) ↔ c ∈ snd m ∨ ∃ a, fst m = Ok a ∧ c ∈ snd (k a).
Proof.
  rewrite snd_bindFlow, elem_of_app. destruct m as [[a|e] calls]; simpl.
  - split; intros [H|H]; auto; [right; by exists a|].
    destruct H as (a' & [= <-] & H). by right.
  - split; intros [H|H]; auto; [by apply elem_of_nil in H|by destruct H as (? & ? & _)].
Qed.

Lemma snd_handle (payload : Payload) (w : World) :
  snd (handle payload w) = snd (attempt payload w) ++ snd (release w).
Proof.
  unfold handle. destruct (attempt payload w) as [r calls].
  by destruct (release w) as [[[]|e] closing].
Qed.

Lemma fst_handle (payload : Payload) (w : World) :
  fst (handle payload w) =
    match fst (release w) with
    | Ok _ => Ok (fst (attempt payload w))
    | Throw e => Throw e
    end.
Proof.
  unfold handle. destruct (attempt payload w) as [r calls].
  by destruct (release w) as [[[]|e] closing].
Qed.

Lemma snd_attempt (payload : Payload) (w : World) :
  snd (attempt payload w) =
    snd (bindFlow (convertCertificate w) (fun _ => browse payload w)).
Proof.
  unfold attempt.
  by destruct (bindFlow (convertCertificate w) (fun _ => browse payload w)) as [[r|e] calls].
Qed.

Lemma snd_callFor {A : Type} (c : Call) (answer : A + string) :
  snd (callFor c answer) = [c].
Proof. by destruct answer. Qed.

Lemma convert_calls (c : Call) (w : World) :
  c ∈ snd (convertCertificate w) → c = WritePems.
Proof.
  unfold convertCertificate.
  destruct (mkdir w), (p12 w), (writePems w); simpl; intros H; by split_calls H.
Qed.

Lemma release_calls (c : Call) (w : World) :
  c ∈ snd (release w) → c = CloseContext ∨ c = CloseBrowser.
Proof.
  unfold release.
  destruct (contextObtained w), (browserObtained w), (closeContext w), (closeBrowser w);
    simpl; intros H; split_calls H; auto.
Qed.

Lemma bypass_calls (c : Call) (w : World) :
  c ∈ snd (bypassWarning w) → c = ClickAdvanced ∨ c = ClickProceed ∨ c = PressKeys.
Proof.
  unfold bypassWarning.
  destruct (advancedButton w), (clickAdvanced w), (proceedLink w), (clickProceed w),
           (pressKeys w); simpl; intros H; split_calls H; auto.
Qed.

Lemma browse_calls (c : Call) (payload : Payload) (w : World) :
  c ∈ snd (browse payload w) →
  c ∈ plainCalls ∨ c ∈ snd (bypassWarning w) ∨ c ∈ snd (fst (fillLoginForm (form w))).
Proof.
  browse_cases payload w; intros H; split_calls H; subst;
    try (left; by repeat constructor); try (right; left; done);
    right; right;
    by destruct (hasIdentificationTypeField info && hasUserCodeField info);
      [|apply elem_of_nil in H].
Qed.

Lemma form_calls (c : Call) (o : FormObs) :
  c ∈ snd (fst (fillLoginForm o)) →
  c ∈ [SelectOption; FillUserCode; ReadCompanyCode; ReadCaptcha; SolveCaptcha;
       InjectSolution; ShotBeforeSubmit; ClickSubmit; ReadAfterLogin].
Proof.
  form_cases o.
  all: intros H; split_calls H; subst; by repeat constructor.
Qed.

Lemma attempt_calls (c : Call) (payload : Payload) (w : World) :
  c ∈ snd (attempt payload w) →
  c ∈ WritePems :: plainCalls ++ [ClickAdvanced; ClickProceed; PressKeys] ++
      [SelectOption; FillUserCode; ReadCompanyCode; ReadCaptcha; SolveCaptcha;
       InjectSolution; ShotBeforeSubmit; ClickSubmit; ReadAfterLogin].
Proof.
  rewrite snd_attempt, elem_of_bindFlow. intros [H|(_ & _ & H)].
  - apply convert_calls in H as ->. apply list_elem_of_here.
  - apply list_elem_of_further. rewrite !elem_of_app.
    apply browse_calls in H as [H|[H|H]]; [by left|right; left|right; right].
    + apply bypass_calls in H. destruct_or! H; subst; by repeat constructor.
    + exact (form_calls _ _ H).
Qed.

Lemma browse_success (payload : Payload) (w : World) (r : HandleResult) :
  fst (browse payload w) = Ok r → success r = true.
Proof. browse_cases payload w; by intros [= <-]. Qed.

Lemma browse_sleep (payload : Payload) (w : World) (ms : Z) :
  Sleep ms ∈ snd (browse payload w) ↔
  ms = 60000%Z ∧ (∃ r, fst (browse payload w) = Ok r) ∧
  default false (headless payload) = false.
Proof.
  assert (Hbypass : Sleep ms ∉ snd (bypassWarning w)).
  { intros H. apply bypass_calls in H. by destruct_or! H. }
  assert (Hform : ∀ info,
            Sleep ms ∉ snd (fst (if hasIdentificationTypeField info && hasUserCodeField info
                                 then fillLoginForm (form w) else (pass (), None)))).
  { intros info H.
    destruct (hasIdentificationTypeField info && hasUserCodeField info);
      [|by apply elem_of_nil in H].
    apply form_calls in H. by split_calls H. }
  browse_cases payload w; (split; [intros H|intros (-> & [r Hr] & Hh)]);
    try discriminate; try (by find_call);
    split_calls H; try (by destruct (Hform _ H)); try (by injection H as ->; eauto).
Qed.

(** A failed conversion of the certificate ends the flow before any
    browser exists: [handle] returns the failure result with the error
    message, the only call it can have made is the writing of the PEM
    files, and the lambda handler answers with status 200.  Unless the
    temporary folder could not be made, the message starts with the
    conversion prefix. *)
Theorem conversion_failure (payload : Payload) (w : World) (e : JsError) :
  fst (convertCertificate w) = Throw e →
  handle payload w = (Ok (failed (message e)), snd (convertCertificate w)) ∧
  fst (handler payload w) = {| statusCode := 200; body := failed (message e) |} ∧
  (∀ c, c ∈ snd (handle payload w) → c = WritePems) ∧
  (mkdir w = None →
   ∃ inner, message e = "No se pudo convertir P12 a PEM: " +:+ inner).
Proof.
  intros He.
  assert (Hhandle : handle payload w =
                      (Ok (failed (message e)), snd (convertCertificate w))).
  { unfold handle, attempt, release, contextObtained, browserObtained.
    destruct (convertCertificate w) as [[[]|e'] calls]; [done|].
    simpl in He. injection He as ->. simpl. by rewrite app_nil_r. }
  split_and!.
  - done.
  - unfold handler. by rewrite Hhandle.
  - intros c. rewrite Hhandle. apply convert_calls.
  - intros Hmkdir. revert He. unfold convertCertificate. rewrite Hmkdir.
    destruct (p12 w); [| | |destruct (writePems w)]; simpl; intros [= <-];
      try by eexists.
Qed.

Lemma conversion_failure_witness :
  handle somePayload (withP12 (P12Rejects "PKCS#12 MAC could not be verified. Invalid password?") workingWorld) =
    (Ok (failed "No se pudo convertir P12 a PEM: PKCS#12 MAC could not be verified. Invalid password?"), []).
Proof.
  exact (proj1 (conversion_failure somePayload
                  (withP12 (P12Rejects "PKCS#12 MAC could not be verified. Invalid password?") workingWorld)
                  _ eq_refl)).
Defined.

Lemma release_cases (w : World) :
  (fst (release w) = Ok tt ∧
   ¬ (contextObtained w = true ∧ is_Some (closeContext w)) ∧
   ¬ (browserObtained w = true ∧ is_Some (closeBrowser w))) ∨
  (∃ e, fst (release w) = Throw e ∧
        ((contextObtained w = true ∧ is_Some (closeContext w)) ∨
         (browserObtained w = true ∧ is_Some (closeBrowser w)))).
Proof.
  unfold release.
  destruct (contextObtained w), (browserObtained w),
           (closeContext w), (closeBrowser w); simpl;
    first [ left; split; [done|]; split; intros [? ?];
            by (try discriminate; try eapply is_Some_None)
          | right; eexists; split; [done|]; eauto ].
Qed.

(** The lambda handler of the certificate flow answers 500 only when one
    of the two closings of the [finally] block rejects; in every other
    case, failures of the flow included, it answers 200 with the result of
    the flow as body. *)
Theorem certificate_handler_status (payload : Payload) (w : World) :
  let answer := fst (handler payload w) in
  (statusCode answer = 200%Z ∨ statusCode answer = 500%Z) ∧
  (statusCode answer = 500%Z ↔
     (contextObtained w = true ∧ is_Some (closeContext w)) ∨
     (browserObtained w = true ∧ is_Some (closeBrowser w))) ∧
  (statusCode answer = 200%Z → body answer = fst (attempt payload w)).
Proof.
  pose proof (fst_handle payload w) as Hf. unfold handler.
  destruct (handle payload w) as [outcome calls]. simpl in Hf. subst outcome.
  destruct (release_cases w) as [(-> & Hc & Hb)|(e & -> & H)]; simpl.
  - split_and!; [by left| |done]. split; [done|]. by intros [?|?].
  - split_and!; [by right|done|done].
Qed.

(** The closings of the [finally] block are not guarded: when closing the
    context rejects, [handle] throws that error in place of its result,
    the browser that was launched is never closed, and the lambda handler
    answers 500. *)
Theorem unguarded_cleanup (payload : Payload) (w : World) (msg : string) :
  contextObtained w = true → closeContext w = Some msg →
  fst (handle payload w) = Throw (plainError msg) ∧
  Launch ∈ snd (handle payload w) ∧
  (CloseBrowser ∉ snd (handle payload w)) ∧
  last (snd (handle payload w)) = Some CloseContext ∧
  fst (handler payload w) = {| statusCode := 500; body := failed msg |}.
Proof.
  intros Hcontext Hclose.
  assert (Hrelease : release w = (Throw (plainError msg), [CloseContext])).
  { unfold release. by rewrite Hcontext, Hclose. }
  assert (Hthrow : fst (handle payload w) = Throw (plainError msg)).
  { by rewrite fst_handle, Hrelease. }
  split_and!.
  - done.
  - rewrite snd_handle, snd_attempt, elem_of_app, elem_of_bindFlow. left. right.
    unfold contextObtained, browserObtained in Hcontext.
    destruct (convertCertificate w) as [[[]|e] calls]; [|done].
    exists tt. split; [done|].
    unfold browse. rewrite snd_bindFlow. apply list_elem_of_here.
  - rewrite snd_handle, Hrelease, elem_of_app. cbn [snd]. intros [H|H].
    + apply attempt_calls in H. unfold plainCalls in H. by split_calls H.
    + by split_calls H.
  - rewrite snd_handle, Hrelease. cbn [snd]. apply last_snoc.
  - unfold handler. destruct (handle payload w) as [outcome calls].
    simpl in Hthrow. by subst outcome.
Qed.

Lemma unguarded_cleanup_witness :
  fst (handle somePayload (withCloseContext (Some "Target closed") workingWorld)) =
    Throw (plainError "Target closed").
Proof.
  exact (proj1 (unguarded_cleanup somePayload
                  (withCloseContext (Some "Target closed") workingWorld)
                  "Target closed" eq_refl eq_refl)).
Defined.

(** The 60 seconds left for inspection are waited exactly when the flow
    succeeded and the payload does not ask for a headless browser, in
    Lambda as elsewhere; the flow makes no other such pause. *)
Theorem inspection_pause (payload : Payload) (w : World) (ms : Z) :
  Sleep ms ∈ snd (handle payload w) ↔
  ms = 60000%Z ∧ success (fst (attempt payload w)) = true ∧
  default false (headless payload) = false.
Proof.
  rewrite snd_handle, elem_of_app, snd_attempt, elem_of_bindFlow.
  setoid_rewrite browse_sleep.
  unfold attempt. rewrite (surjective_pairing (bindFlow _ _)), fst_bindFlow.
  destruct (convertCertificate w) as [[[]|e] calls] eqn:Hconvert; cbn [fst snd].
  - split.
    + intros [[H|(_ & _ & -> & [r Hr] & Hh)]|H].
      * pose proof (convert_calls (Sleep ms) w) as Hc. rewrite Hconvert in Hc.
        by specialize (Hc H).
      * rewrite Hr. split_and!; try done. by apply (browse_success payload w).
      * apply release_calls in H. by destruct H.
    + intros (-> & Hs & Hh). left. right. exists tt. split_and!; try done.
      destruct (fst (browse payload w)) as [r|e]; [by exists r|done].
  - split.
    + intros [[H|(a & Ha & _)]|H]; [|done|].
      * pose proof (convert_calls (Sleep ms) w) as Hc. rewrite Hconvert in Hc.
        by specialize (Hc H).
      * apply release_calls in H. by destruct H.
    + by intros (_ & Hs & _).
Qed.

Lemma form_submit (o : FormObs) :
  ClickSubmit ∈ snd (fst (fillLoginForm o)) →
  ShotBeforeSubmit ∈ snd (fst (fillLoginForm o)) ∧
  is_Some (snd (fillLoginForm o)) ∧
  ∀ key, captchaElement o = inl (Some (Some key)) → nonEmpty key = true →
         truthyOpt (fst (Captcha.resolveCaptcha (captcha o))) = true ∧
         inject o = None ∧
         InjectSolution ∈ snd (fst (fillLoginForm o)).
Proof.
  form_cases o; intros H; split_calls H;
    (split_and!; [by find_call|by eexists|]);
    intros key' Hkey'; try discriminate Hkey'; injection Hkey' as <-;
    intros Hne; try congruence; split_and!; try done; by find_call.
Qed.

Lemma browse_submit (payload : Payload) (w : World) :
  ClickSubmit ∈ snd (browse payload w) →
  ClickSubmit ∈ snd (fst (fillLoginForm (form w))) ∧
  (∃ info, analyse w = inl info ∧ hasLoginForm info = true) ∧
  ∀ c, c ∈ snd (fst (fillLoginForm (form w))) → c ∈ snd (browse payload w).
Proof.
  assert (Hbypass : ClickSubmit ∉ snd (bypassWarning w)).
  { intros H. apply bypass_calls in H. by destruct_or! H. }
  unfold hasLoginForm.
  browse_cases payload w; intros H; split_calls H;
    (destruct (hasIdentificationTypeField info && hasUserCodeField info) eqn:Hlogin;
     [|by apply elem_of_nil in H]);
    (split_and!; [done|by exists info|]);
    intros c Hc;
    repeat first [apply list_elem_of_further | (apply elem_of_app; left; exact Hc)
                 | (apply elem_of_app; right)].
Qed.

(** The form is submitted only after the screenshot of the filled form was
    taken, on a page that has the login form; and when the page has a
    captcha with a site key, only after a provider returned a token and
    the token was put into the page. *)
Theorem submit_needs_solution (payload : Payload) (w : World) :
  ClickSubmit ∈ snd (handle payload w) →
  ShotBeforeSubmit ∈ snd (handle payload w) ∧
  (∃ info, analyse w = inl info ∧ hasLoginForm info = true) ∧
  ∀ key, captchaElement (form w) = inl (Some (Some key)) → nonEmpty key = true →
         truthyOpt (fst (Captcha.resolveCaptcha (captcha (form w)))) = true ∧
         inject (form w) = None ∧
         InjectSolution ∈ snd (handle payload w).
Proof.
  intros H. rewrite snd_handle, elem_of_app, snd_attempt, elem_of_bindFlow in H.
  destruct H as [[H|(a & Ha & H)]|H].
  - by apply convert_calls in H.
  - assert (Hhandle : ∀ c, c ∈ snd (browse payload w) → c ∈ snd (handle payload w)).
    { intros c Hc. rewrite snd_handle, elem_of_app, snd_attempt, elem_of_bindFlow.
      left. right. by exists a. }
    apply browse_submit in H as (H & Hform & Hlift).
    apply form_submit in H as (Hshot & _ & Hkey).
    split_and!; [auto|done|].
    intros key Helement Hne. destruct (Hkey key Helement Hne) as (? & ? & Hin).
    split_and!; auto.
  - apply release_calls in H. by destruct H.
Qed.

Lemma submit_needs_solution_witness :
  truthyOpt (fst (Captcha.resolveCaptcha (captcha (form workingWorld)))) = true.
Proof.
  assert (H : ClickSubmit ∈ snd (handle somePayload workingWorld))
    by (vm_compute; find_call).
  destruct (submit_needs_solution somePayload workingWorld H) as (_ & _ & Hkey).
  exact (proj1 (Hkey "0x4AAAAAAA" eq_refl eq_refl)).
Defined.

(** Errors while the form is filled and submitted are swallowed: once the
    page was analysed and the last screenshot and the cookies were read,
    the flow reports success, and it reports the form as filled whenever
    the page has the login form, whatever became of the filling.  The
    screenshot before the submission is part of the result as soon as it
    was taken. *)
Theorem form_errors_swallowed (payload : Payload) (w : World)
    (pageContent : string) (info : PageInfo) (finalShot : string)
    (cookieList : list Cookie) :
  fst (convertCertificate w) = Ok tt →
  launch w = None → newContext w = None → newPage w = None → settle w = None →
  content w = inl pageContent → analyse w = inl info →
  shotFinal w = inl finalShot → readCookies w = inl cookieList →
  fst (attempt payload w) =
    {| success := true;
       certificateAccepted := Some (hasLoginForm info);
       formFilled := Some (hasLoginForm info);
       pageInfo := Some info;
       screenshots :=
         Some {| beforeSubmit :=
                   if hasLoginForm info then snd (fillLoginForm (form w)) else None;
                 final := Some finalShot |};
       cookies := Some cookieList;
       error := None |} ∧
  (∀ shot, shotBeforeSubmit (form w) = inl shot →
           ShotBeforeSubmit ∈ snd (fst (fillLoginForm (form w))) →
           snd (fillLoginForm (form w)) = Some shot).
Proof.
  intros Hconvert Hlaunch Hcontext Hpage Hsettle Hcontent Hanalyse Hfinal Hcookies.
  split.
  - unfold attempt. rewrite (surjective_pairing (bindFlow _ _)), fst_bindFlow, Hconvert.
    unfold browse, hasLoginForm.
    rewrite Hlaunch, Hcontext, Hpage, Hsettle, Hcontent. cbn -[isWarningPage].
    destruct (isWarningPage pageContent (currentUrl w)); cbn -[isWarningPage];
      rewrite Hanalyse, Hfinal, Hcookies; cbn -[isWarningPage];
      destruct (default false (headless payload)); cbn -[isWarningPage];
      by destruct (hasIdentificationTypeField info && hasUserCodeField info).
  - intros shot'. generalize (form w). intros o.
    form_cases o; intros Hs H; split_calls H; congruence.
Qed.

Lemma form_errors_swallowed_witness :
  formFilled (fst (attempt somePayload (withForm rejectedForm workingWorld))) = Some true.
Proof.
  destruct (form_errors_swallowed somePayload (withForm rejectedForm workingWorld)
              _ _ _ _ eq_refl eq_refl eq_refl eq_refl eq_refl eq_refl eq_refl
              eq_refl eq_refl) as [H _].
  exact (f_equal formFilled H).
Defined.

End DianAuthFacts.
